(** * The template directive engine of the Claude CLI (src/cli/index.js)

    A shallow embedding of [findReplace], [getPrompt] (with its nested
    [simpleVarReplace] and [runCommand]) and [runPrompt] (with its nested
    [runEveries]), followed by the properties of the engine.

    Modelling conventions.
    - A JavaScript string is a sequence of UTF-16 code units; a [string]
      here is such a sequence with every code unit below 256, one [ascii]
      per code unit. The one place where the engine makes a code unit out
      of its input is [JSON.parse] on an escape [\uXXXX]: where that names
      a code unit above 255 the run of the model ends with [OutOfModel],
      and the model says nothing about the run of the program.
    - The regular expressions of [getPrompt] are terms of [regex], run by
      a backtracking matcher with the priorities of the JavaScript one.
    - Values the engine never inspects beyond truthiness, string conversion
      and property reads (numbers, booleans, null, objects, functions) are
      host values; [eval], the file system, the random numbers and the
      Claude client are functions of the host, see [Host].
    - The code of a [js] command is run by a direct [eval] inside
      [runCommand]: it can reach the scope, but also the client and the
      locals of the call of [getPrompt] around it ([promptText], [out] and
      the three queues). The host function [js_eval] stands for code that
      keeps to the scope it is given and to the world; the properties that
      would fail for other code say that no [js] command is run.
    - The scope object [variables] is one object shared by every call; it
      is a component of the state, and what the source reads through an
      alias of it ([ran.variables], [prompt.variables]) is read from the
      state.
    - [await] is sequential composition: the program is single threaded and
      every promise is awaited where it is created.
    - Loops that the source does not bound (the scan of [findReplace], the
      recursion of [getPrompt], the followup loop) take a [fuel].
    - Console output and the spinner are not modelled. *)

From Stdlib Require Import String Ascii List ZArith NArith Bool Lia.
From stdpp Require Import base option gmap strings list.
Import ListNotations.
Local Open Scope string_scope.

(** ** Characters and character classes *)

Definition code (c : ascii) : N := N_of_ascii c.

Definition in_range (lo hi : N) (c : ascii) : bool :=
  ((lo <=? code c) && (code c <=? hi))%N.

(** [a-z] *)
Definition is_lower (c : ascii) : bool := in_range 97 122 c.

(** [\w], that is [A-Za-z0-9_] *)
Definition is_word (c : ascii) : bool :=
  in_range 97 122 c || in_range 65 90 c || in_range 48 57 c || (code c =? 95)%N.

(** [\s] and the characters removed by [String.prototype.trim]: tab, line
    feed, vertical tab, form feed, carriage return, space and the no-break
    space U+00A0 (the other members lie above code unit 255). *)
Definition is_space (c : ascii) : bool :=
  in_range 9 13 c || (code c =? 32)%N || (code c =? 160)%N.

(** [.] without the [s] flag: anything but a line terminator. *)
Definition is_dot (c : ascii) : bool :=
  negb ((code c =? 10)%N || (code c =? 13)%N).

Inductive cset : Type :=
| Lower                (* [a-z] *)
| Word                 (* \w and [\w_] *)
| Space                (* \s *)
| Dot                  (* . *)
| Any                  (* [\s\S] *)
| Not (c : ascii).     (* [^c] *)

Definition in_cset (cs : cset) (c : ascii) : bool :=
  match cs with
  | Lower => is_lower c
  | Word => is_word c
  | Space => is_space c
  | Dot => is_dot c
  | Any => true
  | Not d => negb (Ascii.eqb c d)
  end.

(** ** Backtracking regular expressions with capture groups *)

Inductive regex : Type :=
| Chr (c : ascii)                      (* a literal character *)
| Plus (greedy : bool) (cs : cset)     (* cs+ and cs+? *)
| Star (cs : cset)                     (* cs* *)
| Opt (r : regex)                      (* (?:r)? *)
| Seq (r1 r2 : regex)                  (* r1 r2 *)
| Group (name : string) (r : regex)    (* (?<name>r) *)
| Backref (name : string).             (* \k<name>, or \n for the n-th group *)

Declare Scope regex_scope.
Delimit Scope regex_scope with re.
Bind Scope regex_scope with regex.
Infix "·" := Seq (at level 60, right associativity) : regex_scope.

(** Captures: the most recent binding of a name comes first. *)
Definition groups : Type := list (string * string).

Fixpoint group (g : groups) (name : string) : option string :=
  match g with
  | [] => None
  | (n, v) :: g' => if String.eqb n name then Some v else group g' name
  end.

Fixpoint take_str (n : nat) (s : string) : string :=
  match n, s with
  | S n', String c s' => String c (take_str n' s')
  | _, _ => EmptyString
  end.

Fixpoint drop_str (n : nat) (s : string) : string :=
  match n, s with
  | S n', String _ s' => drop_str n' s'
  | _, _ => s
  end.

(** The text between position [s] and the later position [s'] of one input. *)
Definition consumed (s s' : string) : string :=
  take_str (String.length s - String.length s') s.

Section Matcher.
Context {A : Type}.

(** [cs+]: as many characters as possible, then fewer. *)
Fixpoint plus_greedy (cs : cset) (k : string -> option A) (s : string) : option A :=
  match s with
  | String c s' =>
      if in_cset cs c then
        match plus_greedy cs k s' with
        | Some x => Some x
        | None => k s'
        end
      else None
  | EmptyString => None
  end.

(** [cs+?]: one character, then more only if the rest fails. *)
Fixpoint plus_lazy (cs : cset) (k : string -> option A) (s : string) : option A :=
  match s with
  | String c s' =>
      if in_cset cs c then
        match k s' with
        | Some x => Some x
        | None => plus_lazy cs k s'
        end
      else None
  | EmptyString => None
  end.

(** [cs*]: as many characters as possible, down to none. *)
Fixpoint star_greedy (cs : cset) (k : string -> option A) (s : string) : option A :=
  match s with
  | String c s' =>
      if in_cset cs c then
        match star_greedy cs k s' with
        | Some x => Some x
        | None => k s
        end
      else k s
  | EmptyString => k s
  end.

(** [rmatch r s g k] matches [r] at the start of [s] under the captures
    [g] and hands the remaining input and the captures to [k]; the first
    success in backtracking order is the result. *)
Fixpoint rmatch (r : regex) (s : string) (g : groups)
         (k : string -> groups -> option A) : option A :=
  match r with
  | Chr c =>
      match s with
      | String c' s' => if Ascii.eqb c c' then k s' g else None
      | EmptyString => None
      end
  | Plus true cs => plus_greedy cs (fun s' => k s' g) s
  | Plus false cs => plus_lazy cs (fun s' => k s' g) s
  | Star cs => star_greedy cs (fun s' => k s' g) s
  | Opt r1 =>
      match rmatch r1 s g k with
      | Some x => Some x
      | None => k s g
      end
  | Seq r1 r2 => rmatch r1 s g (fun s' g' => rmatch r2 s' g' k)
  | Group name r1 =>
      rmatch r1 s g (fun s' g' => k s' ((name, consumed s s') :: g'))
  | Backref name =>
      match group g name with
      | None => k s g
      | Some t =>
          if String.prefix t s then k (drop_str (String.length t) s) g else None
      end
  end.
End Matcher.

(** [regex.exec(str)] for a global regex whose [lastIndex] is at the start
    of [s]: the leftmost match, as the text before it, its captures, and
    the input after it. *)
Fixpoint exec (r : regex) (s : string) : option (string * groups * string) :=
  match rmatch r s [] (fun s' g => Some (g, s')) with
  | Some (g, s') => Some (EmptyString, g, s')
  | None =>
      match s with
      | EmptyString => None
      | String c s' =>
          match exec r s' with
          | Some (pre, g, post) => Some (String c pre, g, post)
          | None => None
          end
      end
  end.

(** ** What a match is *)

(** Every character of [w] belongs to [cs]. *)
Fixpoint all_in (cs : cset) (w : string) : bool :=
  match w with
  | String c w' => in_cset cs c && all_in cs w'
  | EmptyString => true
  end.

(** [matches r s g s' g']: the expression [r] can match at the start of
    [s] under the captures [g], up to the rest [s'] and with the captures
    [g']. It says which matches exist, not which one backtracking finds
    first. *)
Inductive matches : regex -> string -> groups -> string -> groups -> Prop :=
| matches_chr c s g :
    matches (Chr c) (String c s) g s g
| matches_plus greedy cs c w s g :
    all_in cs (String c w) = true ->
    matches (Plus greedy cs) (String c w ++ s) g s g
| matches_star cs w s g :
    all_in cs w = true ->
    matches (Star cs) (w ++ s) g s g
| matches_opt r s g s' g' :
    matches r s g s' g' ->
    matches (Opt r) s g s' g'
| matches_opt_skip r s g :
    matches (Opt r) s g s g
| matches_seq r1 r2 s g s1 g1 s2 g2 :
    matches r1 s g s1 g1 ->
    matches r2 s1 g1 s2 g2 ->
    matches (Seq r1 r2) s g s2 g2
| matches_group name r s g s' g' :
    matches r s g s' g' ->
    matches (Group name r) s g s' ((name, consumed s s') :: g')
| matches_backref name t s g :
    group g name = Some t ->
    matches (Backref name) (t ++ s) g s g
| matches_backref_unset name s g :
    group g name = None ->
    matches (Backref name) s g s g.

(** An expression that cannot match the empty string, by its shape. *)
Fixpoint nonempty (r : regex) : bool :=
  match r with
  | Chr _ => true
  | Plus _ _ => true
  | Star _ => false
  | Opt _ => false
  | Seq r1 r2 => nonempty r1 || nonempty r2
  | Group _ r1 => nonempty r1
  | Backref _ => false
  end.

(** The four expressions of [RE] in [getPrompt]. *)
Module RE.
Local Open Scope regex_scope.
Local Open Scope char_scope.

(** /{#(?<command>[a-z]+)(?: (?:(?<var>\w+)=)?(?<param>.+?))?}\s*(?<body>[\s\S]+?)\s*{\/(?<endcmd>\1)}/g *)
Definition block : regex :=
  Chr "{" · Chr "#" · Group "command" (Plus true Lower) ·
  Opt (Chr " " · Opt (Group "var" (Plus true Word) · Chr "=") ·
       Group "param" (Plus false Dot)) ·
  Chr "}" · Star Space · Group "body" (Plus false Any) · Star Space ·
  Chr "{" · Chr "/" · Group "endcmd" (Backref "command") · Chr "}".

(** /{#(?<command>[a-z]+)(?:\s+(?:(?<var>\w+)=)?(?<input>".+"))?\/?}/g *)
Definition inline_command : regex :=
  Chr "{" · Chr "#" · Group "command" (Plus true Lower) ·
  Opt (Plus true Space · Opt (Group "var" (Plus true Word) · Chr "=") ·
       Group "input" (Chr "034" · Plus true Dot · Chr "034")) ·
  Opt (Chr "/") · Chr "}".

(** /{(?<name>[\w_]+)}/g *)
Definition var_read : regex :=
  Chr "{" · Group "name" (Plus true Word) · Chr "}".

(** /{(?<var>[\w_]+)=(?<value>[^}]+)}/g *)
Definition var_write : regex :=
  Chr "{" · Group "var" (Plus true Word) · Chr "=" ·
  Group "value" (Plus true (Not "}")) · Chr "}".
End RE.

(** ** Values, errors and results *)

(** A value of the scope: [undefined], a string, or a value owned by the
    host (number, boolean, null, object, function). *)
Inductive jsval (hostval : Type) : Type :=
| JUndefined
| JString (s : string)
| JHost (h : hostval).
Arguments JUndefined {hostval}.
Arguments JString {hostval} s.
Arguments JHost {hostval} h.

Inductive error : Type :=
| Error (message : string)        (* new Error(message) *)
| TypeError (message : string)    (* raised by the runtime *)
| SyntaxError (message : string)  (* raised by JSON.parse *)
| HostError (message : string).   (* raised inside a host function *)

(** How a computation ends: with a value, with an exception, with
    [process.exit(code)], or (model only) by exhausting its fuel or by
    reaching a value that the model does not represent, such as a text with
    a code unit above 255. *)
Inductive result (A : Type) : Type :=
| Ok (a : A)
| Throw (e : error)
| Exit (code : Z)
| OutOfFuel
| OutOfModel.
Arguments Ok {A} a.
Arguments Throw {A} e.
Arguments Exit {A} code.
Arguments OutOfFuel {A}.
Arguments OutOfModel {A}.

(** ** Directive nodes and the parser *)

(** The objects built by the four callbacks of [getPrompt]; an absent
    capture group is [undefined] in the source and [None] here. *)
Inductive node : Type :=
| NBlock (command : string) (param var : option string) (body : string)
| NCommand (command : string) (value var : option string)
| NVariableSet (name value : string)   (* type 'variable_set' *)
| NVariable (name : string).           (* type 'variable' *)

(** An element of the array [out]: a string or a node. *)
Inductive token : Type :=
| TStr (s : string)
| TNode (n : node).

(** A group that takes part in every match of its expression. *)
Definition group_text (g : groups) (name : string) : string :=
  default EmptyString (group g name).

Definition block_callback (a : groups) : result token :=
  if negb (bool_decide (group a "command" = group a "endcmd")) then
    Throw (Error ("Unexpected command end: " ++ group_text a "command"
                  ++ "!=" ++ group_text a "endcmd"))
  else
    Ok (TNode (NBlock (group_text a "command") (group a "param")
                     (group a "var") (group_text a "body"))).

Definition inline_command_callback (a : groups) : result token :=
  Ok (TNode (NCommand (group_text a "command") (group a "input") (group a "var"))).

Definition var_write_callback (a : groups) : result token :=
  Ok (TNode (NVariableSet (group_text a "var") (group_text a "value"))).

Definition var_read_callback (a : groups) : result token :=
  Ok (TNode (NVariable (group_text a "name"))).

(** The [while ((match = regex.exec(str)) !== null)] loop of [findReplace]
    on the input that follows [prevIndex]. A match of the empty string
    would leave [lastIndex] in place and loop forever: [fuel] bounds the
    number of matches. *)
Fixpoint findReplace_scan (fuel : nat) (re : regex)
         (callback : groups -> result token) (str : string) : result (list token) :=
  match exec re str with
  | None => Ok [TStr str]
  | Some (pre, a, post) =>
      match fuel with
      | O => OutOfFuel
      | S fuel' =>
          match callback a with
          | Ok t =>
              match findReplace_scan fuel' re callback post with
              | Ok rest => Ok (TStr pre :: t :: rest)
              | Throw e => Throw e
              | Exit c => Exit c
              | OutOfFuel => OutOfFuel
              | OutOfModel => OutOfModel
              end
          | Throw e => Throw e
          | Exit c => Exit c
          | OutOfFuel => OutOfFuel
          | OutOfModel => OutOfModel
          end
      end
  end.

(** [findReplace(regex, string, callback)] on an array; a string argument
    is the array of that one string. *)
Fixpoint findReplace (re : regex) (callback : groups -> result token)
         (strings : list token) : result (list token) :=
  match strings with
  | [] => Ok []
  | TNode n :: strings' =>
      match findReplace re callback strings' with
      | Ok out => Ok (TNode n :: out)
      | r => r
      end
  | TStr str :: strings' =>
      let here :=
        if (String.length str =? 0)%nat then Ok [TStr str]
        else findReplace_scan (String.length str) re callback str in
      match here with
      | Ok out1 =>
          match findReplace re callback strings' with
          | Ok out2 => Ok (out1 ++ out2)%list
          | r => r
          end
      | r => r
      end
  end.

(** The four passes at the head of [getPrompt]. *)
Definition parse (template : string) : result (list token) :=
  match findReplace RE.block block_callback [TStr template] with
  | Ok out =>
      match findReplace RE.inline_command inline_command_callback out with
      | Ok out =>
          match findReplace RE.var_write var_write_callback out with
          | Ok out => findReplace RE.var_read var_read_callback out
          | r => r
          end
      | r => r
      end
  | r => r
  end.

(** ** Strings: trim, the final normalisation, JSON string literals *)

(** [str.trim().length] is zero exactly when every character is white space. *)
Fixpoint blank (s : string) : bool :=
  match s with
  | String c s' => is_space c && blank s'
  | EmptyString => true
  end.

(** [s.replace(/c+/g, 'c')]: every run of the character [c] becomes one [c]. *)
Fixpoint collapse (c : ascii) (s : string) : string :=
  match s with
  | String a s' =>
      if Ascii.eqb a c then
        match s' with
        | String b _ => if Ascii.eqb b c then collapse c s' else String a (collapse c s')
        | EmptyString => String a EmptyString
        end
      else String a (collapse c s')
  | EmptyString => EmptyString
  end.

(** [promptText.replace(/\n+/g, '\n').replace(/ +/g, ' ')] *)
Definition normalise (promptText : string) : string :=
  collapse " " (collapse "010" promptText).

(** The text [s] between double quotes (character 34). *)
Definition quoted (s : string) : string := String "034" (s ++ String "034" "").

Definition hex_digit (c : ascii) : option N :=
  if in_range 48 57 c then Some (code c - 48)%N
  else if in_range 97 102 c then Some (code c - 87)%N
  else if in_range 65 70 c then Some (code c - 55)%N
  else None.

(** A character put in front of a text that was decoded, or that could
    not be. [JSON.parse] reads its whole input before it returns, so an
    error in the rest of the text comes first. *)
Definition decoded_char (c : ascii) (rest : result string) : result string :=
  match rest with
  | Ok s => Ok (String c s)
  | r => r
  end.

(** The same for a code unit above 255. *)
Definition decoded_wide (rest : result string) : result string :=
  match rest with
  | Ok _ => OutOfModel
  | r => r
  end.

Definition unexpected_token : error := SyntaxError "Unexpected token in JSON".

(** The white space of JSON: space, tab, line feed, carriage return. *)
Fixpoint json_space (s : string) : bool :=
  match s with
  | String c s' =>
      ((code c =? 32) || (code c =? 9) || (code c =? 10) || (code c =? 13))%N
      && json_space s'
  | EmptyString => true
  end.

(** The characters of a JSON string literal after its opening quote; only
    white space may follow the closing quote. An escape [\uXXXX] stands
    for the code unit with the number XXXX. *)
Fixpoint json_chars (s : string) : result string :=
  match s with
  | EmptyString => Throw unexpected_token
  | String "034" s' => if json_space s' then Ok EmptyString else Throw unexpected_token
  | String "\" (String e s') =>
      match e with
      | "034"%char => decoded_char "034" (json_chars s')
      | "\"%char => decoded_char "\" (json_chars s')
      | "/"%char => decoded_char "/" (json_chars s')
      | "b"%char => decoded_char "008" (json_chars s')
      | "f"%char => decoded_char "012" (json_chars s')
      | "n"%char => decoded_char "010" (json_chars s')
      | "r"%char => decoded_char "013" (json_chars s')
      | "t"%char => decoded_char "009" (json_chars s')
      | "u"%char =>
          match s' with
          | String h1 (String h2 (String h3 (String h4 s''))) =>
              match hex_digit h1, hex_digit h2, hex_digit h3, hex_digit h4 with
              | Some 0%N, Some 0%N, Some d3, Some d4 =>
                  decoded_char (ascii_of_N (16 * d3 + d4)) (json_chars s'')
              | Some _, Some _, Some _, Some _ => decoded_wide (json_chars s'')
              | _, _, _, _ => Throw unexpected_token
              end
          | _ => Throw unexpected_token
          end
      | _ => Throw unexpected_token
      end
  | String "\" EmptyString => Throw unexpected_token
  | String c s' =>
      if (code c <? 32)%N then Throw unexpected_token
      else decoded_char c (json_chars s')
  end.

(** [JSON.parse(text)] for a text that starts with a double quote, as every
    capture of [input] does: the string it denotes, or the [SyntaxError] it
    throws. What it makes of another text (a number, an array, an error) is
    outside the model. *)
Definition JSON_parse (text : string) : result string :=
  match text with
  | String "034" s => json_chars s
  | _ => OutOfModel
  end.

(** Number of bytes of the UTF-8 encoding ([Blob.size]). *)
Fixpoint utf8_length (s : string) : N :=
  match s with
  | String c s' => ((if code c <? 128 then 1 else 2) + utf8_length s')%N
  | EmptyString => 0%N
  end.

(** ** The host: JavaScript runtime, file system and conversation backend *)

(** [Object.getOwnPropertyNames(Object.prototype)]: the names every
    ordinary object inherits. *)
Definition Object_prototype_names : list string :=
  [ "constructor"; "__defineGetter__"; "__defineSetter__"; "hasOwnProperty";
    "__lookupGetter__"; "__lookupSetter__"; "isPrototypeOf";
    "propertyIsEnumerable"; "toString"; "valueOf"; "__proto__";
    "toLocaleString" ].

Definition inherited (name : string) : bool :=
  existsb (String.eqb name) Object_prototype_names.

Record attachment : Type := {
  file_name : string;
  file_type : string;
  file_size : N;
  extracted_content : string;
}.

(** An element of a queue, the object [{ body: arg }]. *)
Record item : Type := { item_body : string }.

(** A call into the Claude client. *)
Inductive request : Type :=
| ClaudeInit                                                    (* claude.init() *)
| StartConversation (body : string) (attachments : list attachment)
| ConvoSendMessage (body : string) (attachments : list attachment)
| ClaudeSendMessage (prompt : string).                          (* callClaude *)

Class Host : Type := {
  hostval : Type;
  world : Type;
  (** ToBoolean, ToString and property read of a host value *)
  host_truthy : hostval -> bool;
  host_text : hostval -> string;
  host_get : hostval -> string -> jsval hostval;
  (** [Object.prototype[name]] for a name of [Object_prototype_names] *)
  prototype_member : string -> hostval;
  (** [join(templatePath.split(sep).slice(0, -1).join(sep), value)] *)
  import_path : string -> string -> string;
  readFileSync : world -> string -> option string;
  writeFileSync : world -> string -> string -> option world;
  (** [eval(EVAL_STR)] for the scope and the argument of a [js] command, up
      to the settlement of its promise, for code that keeps to the copy of
      the scope it is given and to the world *)
  js_eval : world -> gmap string (jsval hostval) -> string ->
            result (jsval hostval) * world;
  (** [Math.random().toString(16).slice(2).slice(0, 6)] *)
  random_hex : world -> string * world;
  (** the object [{ completion: body }] *)
  completion_object : string -> hostval;
  (** [claude.ready] and the effect of [claude.init()] *)
  claude_ready : world -> bool;
  claude_init : world -> world;
  (** the object handed to the [done] callback of a request *)
  respond : world -> request -> jsval hostval * world;
}.

(** ** The evaluator *)

Section Engine.
Context {H : Host}.

Abbreviation value := (jsval hostval).

(** ToBoolean *)
Definition truthy (v : value) : bool :=
  match v with
  | JUndefined => false
  | JString s => negb (String.eqb s "")
  | JHost h => host_truthy h
  end.

(** ToString, as applied by [+=], template literals and [replace] *)
Definition to_text (v : value) : string :=
  match v with
  | JUndefined => "undefined"
  | JString s => s
  | JHost h => host_text h
  end.

(** [a || b] *)
Definition or_else (a b : value) : value := if truthy a then a else b.

(** The state the engine works on: the own properties of the one scope
    object [variables] that every call of [getPrompt] and [runPrompt]
    shares (its prototype stays [Object.prototype]), the host, and the
    requests made so far, oldest first. *)
Record state : Type := {
  variables : gmap string value;
  host_world : world;
  requests : list request;
}.

Definition M (A : Type) : Type := state -> result A * state.

Definition ret {A} (a : A) : M A := fun st => (Ok a, st).

Definition bind {A B} (m : M A) (f : A -> M B) : M B :=
  fun st =>
    match m st with
    | (Ok a, st') => f a st'
    | (Throw e, st') => (Throw e, st')
    | (Exit c, st') => (Exit c, st')
    | (OutOfFuel, st') => (OutOfFuel, st')
    | (OutOfModel, st') => (OutOfModel, st')
    end.

Definition throw {A} (e : error) : M A := fun st => (Throw e, st).
(** [EXIT(status)], that is [process.exit(status)] *)
Definition EXIT {A} (status : Z) : M A := fun st => (Exit status, st).
Definition out_of_fuel {A} : M A := fun st => (OutOfFuel, st).

(** A pure computation that may throw. *)
Definition lift {A} (r : result A) : M A := fun st => (r, st).

Notation "'let*' x ':=' m 'in' k" := (bind m (fun x => k))
  (at level 10, x pattern, m at level 100, k at level 200).
Notation "m ';;' k" := (bind m (fun _ => k))
  (at level 100, k at level 200, right associativity).

(** [o[name]] on the own properties [o] of an ordinary object: an own
    property, else the one inherited from [Object.prototype]. *)
Definition lookup (o : gmap string value) (name : string) : value :=
  match o !! name with
  | Some v => v
  | None => if inherited name then JHost (prototype_member name) else JUndefined
  end.

(** [variables[name]] *)
Definition get (name : string) : M value :=
  fun st => (Ok (lookup (variables st) name), st).

(** [o[name] = v] on an ordinary object: the setter of [__proto__]
    inherited from [Object.prototype] creates no property (and ignores
    [undefined] and strings; a host object would replace the prototype,
    which this model leaves out). *)
Definition set_prop (name : string) (v : value) (o : gmap string value)
  : gmap string value :=
  if String.eqb name "__proto__" then o else <[name := v]> o.

Definition with_variables (vars : gmap string value) (st : state) : state :=
  {| variables := vars; host_world := host_world st; requests := requests st |}.

(** [variables[name] = v] *)
Definition set (name : string) (v : value) : M unit :=
  fun st => (Ok tt, with_variables (set_prop name v (variables st)) st).

(** [result.variables]: the scope object itself, or a fresh object. *)
Inductive varsref : Type :=
| TheScope
| Fresh (o : gmap string value).

(** [Object.assign(variables, src)] *)
Definition Object_assign (src : varsref) : M unit :=
  match src with
  | TheScope => ret tt
  | Fresh o => fun st => (Ok tt, with_variables (o ∪ variables st) st)
  end.

(** A request to the Claude client, answered through the [done]
    callback that [status] wraps: no completion ends the process. *)
Definition call (rq : request) : M value :=
  fun st =>
    let '(a, w) := respond (host_world st) rq in
    let st' := {| variables := variables st;
                  host_world := w;
                  requests := requests st ++ [rq] |} in
    match a with
    | JUndefined => throw (TypeError "Cannot read properties of undefined") st'
    | JString _ => EXIT 1 st'
    | JHost h => if truthy (host_get h "completion") then ret a st' else EXIT 1 st'
    end.

(** [a.completion] for a response that passed [done]. *)
Definition completion (a : value) : value :=
  match a with
  | JHost h => host_get h "completion"
  | _ => JUndefined
  end.

(** The object a command returns; [None] is an absent property. *)
Record command_result : Type := {
  r_body : option value;
  r_value : option value;
  r_variables : option varsref;
  r_attachments : option (list attachment);
  r_followup : option (list item);
  r_every : option (list item);
}.

Definition no_result : command_result :=
  {| r_body := None; r_value := None; r_variables := None;
     r_attachments := None; r_followup := None; r_every := None |}.

Definition with_body (b : value) (r : command_result) : command_result :=
  {| r_body := Some b; r_value := r_value r; r_variables := r_variables r;
     r_attachments := r_attachments r; r_followup := r_followup r;
     r_every := r_every r |}.

Definition is_js (command : string) : bool :=
  String.eqb command "js" || String.eqb command "jsdisplay" || String.eqb command "jsd".

Definition is_display (command : string) : bool :=
  String.eqb command "jsdisplay" || String.eqb command "jsd".

Definition truthy_text (o : option string) : bool :=
  match o with
  | Some s => negb (String.eqb s "")
  | None => false
  end.

Definition run_js (arg : string) : M value :=
  fun st =>
    let '(r, w) := js_eval (host_world st) (variables st) arg in
    (r, {| variables := variables st; host_world := w; requests := requests st |}).

Definition write_file (path content : string) : M unit :=
  fun st =>
    match writeFileSync (host_world st) path content with
    | Some w =>
        (Ok tt, {| variables := variables st; host_world := w; requests := requests st |})
    | None => (Throw (HostError "writeFileSync"), st)
    end.

Definition read_file (path : string) : M string :=
  fun st =>
    match readFileSync (host_world st) path with
    | Some text => (Ok text, st)
    | None => (Throw (HostError "ENOENT: no such file or directory"), st)
    end.

Definition random_file_name : M string :=
  fun st =>
    let '(hex, w) := random_hex (host_world st) in
    (Ok ("file-" ++ hex ++ ".txt"),
     {| variables := variables st; host_world := w; requests := requests st |}).

(** [runCommand(command, variables, arg, param)] *)
Definition runCommand (command : string) (arg : string) (param : option string)
  : M command_result :=
  if String.eqb command "writefile" then
    match param with
    | None => throw (TypeError "The path argument must be of type string")
    | Some path =>
        write_file path arg ;;
        ret {| r_body := Some (JString ""); r_value := Some (JString arg);
               r_variables := None; r_attachments := None;
               r_followup := None; r_every := None |}
    end
  else if is_js command then
    let* result := run_js arg in
    let vars := {[ "js_response" := result ]} in
    ret {| r_body := Some (if is_display command then result else JString "");
           r_value := Some result;
           r_variables :=
             Some (Fresh (match param with
                          | Some p => if truthy_text param then set_prop p result vars else vars
                          | None => vars
                          end));
           r_attachments := None; r_followup := None; r_every := None |}
  else if String.eqb command "every" then
    ret {| r_body := None; r_value := None; r_variables := None;
           r_attachments := None; r_followup := None;
           r_every := Some [ {| item_body := arg |} ] |}
  else if String.eqb command "file" then
    let* name := (if truthy_text param then ret (default "" param) else random_file_name) in
    ret {| r_body := Some (JString ""); r_value := Some (JString arg);
           r_variables := None;
           r_attachments :=
             Some [ {| file_name := name; file_type := "text/plain";
                       file_size := utf8_length arg; extracted_content := arg |} ];
           r_followup := None; r_every := None |}
  else if String.eqb command "followup" then
    ret {| r_body := None; r_value := None; r_variables := None;
           r_attachments := None;
           r_followup := Some [ {| item_body := arg |} ];
           r_every := None |}
  else if String.eqb command "claude" then
    let* result := call (ClaudeSendMessage arg) in
    ret {| r_body := Some (completion result); r_value := None;
           r_variables := Some (Fresh {[ "claude_response" := result ]});
           r_attachments := None; r_followup := None; r_every := None |}
  else
    ret {| r_body := Some (JString (command ++ "(" ++ arg ++ ")"));
           r_value := None; r_variables := None; r_attachments := None;
           r_followup := None; r_every := None |}.

(** [string.replace(re, callback)] for a global expression; [fuel] bounds
    the number of replacements. *)
Fixpoint replace_scan (fuel : nat) (re : regex) (callback : groups -> string)
         (s : string) : string :=
  match exec re s with
  | None => s
  | Some (pre, a, post) =>
      match fuel with
      | O => s
      | S fuel' => pre ++ callback a ++ replace_scan fuel' re callback post
      end
  end.

(** [simpleVarReplace(string)] is [substitute] on the scope; [string] is
    [undefined] for an inline command without input, and
    [undefined.replace] throws. *)
Definition substitute (vars : gmap string value) (s : string) : string :=
  replace_scan (String.length s) RE.var_read
    (fun a => to_text (or_else (lookup vars (group_text a "name")) (JString ""))) s.

Definition simpleVarReplace (string : option String.string) : M String.string :=
  match string with
  | None => throw (TypeError "Cannot read properties of undefined (reading 'replace')")
  | Some s => fun st => (Ok (substitute (variables st) s), st)
  end.

(** The object [getPrompt] returns, [{ body, attachments, followup,
    variables, every }]; its [variables] is the scope object of the state. *)
Record evaluation : Type := {
  body : string;
  attachments : list attachment;
  followup : list item;
  every : list item;
}.

Definition append_body (text : string) (acc : evaluation) : evaluation :=
  {| body := body acc ++ text; attachments := attachments acc;
     followup := followup acc; every := every acc |}.

(** [result = ran] *)
Definition result_of (ran : evaluation) : command_result :=
  {| r_body := Some (JString (body ran)); r_value := None;
     r_variables := Some TheScope;
     r_attachments := Some (attachments ran);
     r_followup := Some (followup ran);
     r_every := Some (every ran) |}.

Definition node_var (block : node) : option string :=
  match block with
  | NBlock _ _ var _ => var
  | NCommand _ _ var => var
  | _ => None
  end.

(** [try { block.value = JSON.parse(block.value) } catch (e) { }]; an
    absent input is [undefined], which [JSON.parse] refuses. *)
Definition parsed_value (value : option string) : result (option string) :=
  match value with
  | Some text =>
      match JSON_parse text with
      | Ok v => Ok (Some v)
      | Throw _ => Ok (Some text)
      | Exit c => Exit c
      | OutOfFuel => OutOfFuel
      | OutOfModel => OutOfModel
      end
  | None => Ok None
  end.

(** The part of the loop body of [getPrompt] that computes [result] for a
    node; [getPrompt] is the recursive call. *)
Definition node_result (getPrompt : string -> M evaluation) (block : node)
           (acc : evaluation) : M (command_result * evaluation) :=
  match block with
  | NCommand command value var =>
      let* value := lift (parsed_value value) in
      if String.eqb command "import" then
        let* templatePath := get "templatePath" in
        match templatePath, value with
        | JString path, Some v =>
            let* text := read_file (import_path path v) in
            let* ran := getPrompt text in
            ret (result_of ran, acc)
        | JString _, None => throw (TypeError "The path argument must be of type string")
        | _, _ => throw (TypeError "variables.templatePath.split is not a function")
        end
      else
        let* arg := simpleVarReplace value in
        let* result := runCommand command arg None in
        ret (if truthy_text var then with_body (JString "") result else result, acc)
  | NBlock command param var text =>
      if String.eqb command "followup" || String.eqb command "every" then
        let* result := runCommand command text param in
        ret (result, acc)
      else
        let* ran := getPrompt text in
        Object_assign TheScope ;;
        let acc := {| body := body acc;
                      attachments := (attachments acc ++ attachments ran)%list;
                      followup := (followup acc ++ followup ran)%list;
                      every := every acc |} in
        let* result := runCommand command (body ran) param in
        ret (result, acc)
  | _ => ret (no_result, acc)
  end.

(** The loop body of [getPrompt] for an element of [out] that is a node. *)
Definition eval_node (getPrompt : string -> M evaluation) (block : node)
           (acc : evaluation) : M evaluation :=
  let* acc := (match block with
               | NVariable name =>
                   let* v := get name in
                   ret (append_body (to_text v) acc)
               | _ => ret acc
               end) in
  (match block with
   | NVariableSet name value => set name (JString value)
   | _ => ret tt
   end) ;;
  let* (result, acc) := node_result getPrompt block acc in
  let result_body := default (JString "") (r_body result) in
  let acc := append_body (to_text result_body) acc in
  let last := or_else (default JUndefined (r_value result)) result_body in
  set "response" last ;;
  set "result" last ;;
  Object_assign (default (Fresh ∅) (r_variables result)) ;;
  (if truthy_text (node_var block) then
     let* response := get "response" in
     set (default "" (node_var block)) response
   else ret tt) ;;
  ret {| body := body acc;
         attachments := (attachments acc ++ default [] (r_attachments result))%list;
         followup := (followup acc ++ default [] (r_followup result))%list;
         every := (every acc ++ default [] (r_every result))%list |}.

(** The loop body of [getPrompt]. *)
Definition eval_element (getPrompt : string -> M evaluation) (block : token)
           (acc : evaluation) : M evaluation :=
  match block with
  | TStr s =>
      if blank s then ret (append_body (String "010" "") acc)
      else ret (append_body s acc)
  | TNode n => eval_node getPrompt n acc
  end.

(** [for (const block of out) { ... }] *)
Fixpoint eval_all (getPrompt : string -> M evaluation) (out : list token)
         (acc : evaluation) : M evaluation :=
  match out with
  | [] => ret acc
  | block :: out' =>
      let* acc := eval_element getPrompt block acc in
      eval_all getPrompt out' acc
  end.

Definition empty_evaluation : evaluation :=
  {| body := ""; attachments := []; followup := []; every := [] |}.

(** [getPrompt(template, variables)]; [fuel] bounds the depth of nested
    blocks and imports. *)
Fixpoint getPrompt (fuel : nat) (template : string) : M evaluation :=
  match fuel with
  | O => out_of_fuel
  | S fuel' =>
      let* out := lift (parse template) in
      let* acc := eval_all (getPrompt fuel') out empty_evaluation in
      ret {| body := normalise (body acc); attachments := attachments acc;
             followup := followup acc; every := every acc |}
  end.

(** ** The orchestrator *)

(** ToBoolean of an array: every object is truthy, the empty array too. *)
Definition truthy_array {A : Type} (a : list A) : bool := true.

(** [if (!claude.ready) { await claude.init() }] *)
Definition ensure_ready : M unit :=
  fun st =>
    if claude_ready (host_world st) then (Ok tt, st)
    else (Ok tt, {| variables := variables st;
                    host_world := claude_init (host_world st);
                    requests := requests st ++ [ClaudeInit] |}).

(** [convo.sendMessage(body, status({ attachments, done }, ...))] awaited,
    and its response stored; [convo] is [undefined] until a conversation
    was started. *)
Definition send (convo : bool) (text : string) (files : list attachment) : M unit :=
  if convo then
    let* a := call (ConvoSendMessage text files) in
    set "claude_response" a
  else throw (TypeError "Cannot read properties of undefined (reading 'sendMessage')").

(** [runEveries()] on the queue [prompt.every] *)
Fixpoint runEveries (fuel : nat) (convo : bool) (queue : list item) : M unit :=
  match queue with
  | [] => ret tt
  | j :: queue' =>
      let* thing := getPrompt fuel (item_body j) in
      if blank (body thing) then runEveries fuel convo queue'
      else
        send convo (body thing) (attachments thing) ;;
        runEveries fuel convo queue'
  end.

(** [for (let i of prompt.followup) { ... }]: [queue] holds the elements of
    [prompt.followup] from the current one on, [everies] is [prompt.every];
    the loop returns what was pushed on [prompt.followup] and the final
    [prompt.every]. [fuel] also bounds the number of iterations. *)
Fixpoint run_followups (fuel n : nat) (convo : bool) (queue everies : list item)
  : M (list item * list item) :=
  match queue with
  | [] => ret ([], everies)
  | i :: queue' =>
      match n with
      | O => out_of_fuel
      | S n' =>
          let* followup_i := getPrompt fuel (item_body i) in
          let queue' := (queue' ++ followup followup_i)%list in
          let everies := (everies ++ every followup_i)%list in
          let* (pushed, final) :=
            (if blank (body followup_i) then run_followups fuel n' convo queue' everies
             else
               send convo (body followup_i) (attachments followup_i) ;;
               runEveries fuel convo everies ;;
               run_followups fuel n' convo queue' everies) in
          ret ((followup followup_i ++ pushed)%list, final)
      end
  end.

(** What [runPrompt] returns beside [runEveries]: the prompt with its
    queues as they are at the end, and whether [prompt.conversation] is
    set. *)
Record outcome : Type := {
  prompt_after : evaluation;
  conversation : bool;
}.

(** [runPrompt(prompt)] for a [prompt] that carries the result of
    [getPrompt], as [template] calls it; [None] is the bare [return]. *)
Definition runPrompt (fuel : nat) (prompt : evaluation) (dontRespond : bool)
  : M (option outcome) :=
  if negb (negb (blank (body prompt)) || truthy_array (every prompt)
           || truthy_array (followup prompt))
  then ret None
  else
    ensure_ready ;;
    let* convo :=
      (if dontRespond then
         set "response" (JString (body prompt)) ;;
         set "claude_response" (JHost (completion_object (body prompt))) ;;
         ret false
       else if negb (blank (body prompt)) then
         let* a := call (StartConversation (body prompt) (attachments prompt)) in
         set "claude_response" a ;;
         let* claude_response := get "claude_response" in
         set "response" (completion claude_response) ;;
         ret true
       else ret false) in
    runEveries fuel convo (every prompt) ;;
    let* (pushed, final) := run_followups fuel fuel convo (followup prompt) (every prompt) in
    ret (Some {| prompt_after :=
                   {| body := body prompt; attachments := attachments prompt;
                      followup := (followup prompt ++ pushed)%list;
                      every := final |};
                 conversation := dontRespond || negb (blank (body prompt)) |}).

(** The part of [template] that evaluates the template and runs the
    prompt; [files] are the attachments given on the command line, which
    come first. *)
Definition run_template (fuel : nat) (templateText : string) (files : list attachment)
  : M (option outcome) :=
  let* prompt := getPrompt fuel templateText in
  runPrompt fuel
            {| body := body prompt;
               attachments := (files ++ attachments prompt)%list;
               followup := followup prompt; every := every prompt |}
            false.

(** ** The vocabulary of the properties *)

(** The command names with a handler of their own: [import] in the loop of
    [getPrompt], the others in [runCommand]. *)
Definition handler_names : list string :=
  [ "import"; "js"; "jsdisplay"; "jsd"; "file"; "writefile"; "followup";
    "every"; "claude" ].

Definition has_handler (command : string) : bool :=
  existsb (String.eqb command) handler_names.

(** The scope after the tail of the loop body, which follows the
    computation of [result]: [response] and [result] are assigned, then the
    variables of the result, then the bound variable. *)
Definition after_node (block : node) (result : command_result)
           (vars : gmap string value) : gmap string value :=
  let result_body := default (JString "") (r_body result) in
  let last := or_else (default JUndefined (r_value result)) result_body in
  let vars := set_prop "result" last (set_prop "response" last vars) in
  let vars := match default (Fresh ∅) (r_variables result) with
              | TheScope => vars
              | Fresh o => o ∪ vars
              end in
  if truthy_text (node_var block)
  then set_prop (default "" (node_var block)) (lookup vars "response") vars
  else vars.

(** The accumulators after the tail of the loop body. *)
Definition collect (result : command_result) (acc : evaluation) : evaluation :=
  {| body := body acc ++ to_text (default (JString "") (r_body result));
     attachments := (attachments acc ++ default [] (r_attachments result))%list;
     followup := (followup acc ++ default [] (r_followup result))%list;
     every := (every acc ++ default [] (r_every result))%list |}.

(** The state in which [result] is computed: a [variable_set] node has
    made its assignment. *)
Definition before_result (block : node) (st : state) : state :=
  match block with
  | NVariableSet name value => with_variables (set_prop name (JString value) (variables st)) st
  | _ => st
  end.

(** The accumulators with which [result] is computed: a [variable] node
    has appended its value. *)
Definition read_variable (block : node) (acc : evaluation) (st : state) : evaluation :=
  match block with
  | NVariable name => append_body (to_text (lookup (variables st) name)) acc
  | _ => acc
  end.

Definition LF : string := String "010" "".

(** What [runCommand] returns for [followup] and for [every]. *)
Definition queued (command text : string) : command_result :=
  {| r_body := None; r_value := None; r_variables := None; r_attachments := None;
     r_followup := if String.eqb command "followup" then Some [ {| item_body := text |} ] else None;
     r_every := if String.eqb command "every" then Some [ {| item_body := text |} ] else None |}.

Definition is_ok {A : Type} (r : result A) : Prop :=
  match r with
  | Ok _ => True
  | _ => False
  end.

(** The backend hands a truthy completion to every [done] callback. *)
Definition responsive : Prop :=
  forall (w : world) (rq : request),
    exists h w', respond w rq = (JHost h, w')
                 /\ truthy (host_get h "completion") = true.

(** [emits m st expected post]: run from [st], the computation [m] makes
    the requests [expected], in this order, and returns a value that
    satisfies [post]; it stops early only when an answer of the backend
    carries no completion, and has then made an initial part of
    [expected]. *)
Definition emits {A : Type} (m : M A) (st : state) (expected : list request)
           (post : A -> Prop) : Prop :=
  exists sent,
    requests (snd (m st)) = (requests st ++ sent)%list
    /\ sent `prefix_of` expected
    /\ (forall a, fst (m st) = Ok a -> sent = expected /\ post a)
    /\ (responsive -> is_ok (fst (m st))).

(** The template [t] evaluates to [r] in every state, and makes no request
    while it does. *)
Definition resolves_to (fuel : nat) (t : string) (r : evaluation) : Prop :=
  forall st, exists st', getPrompt fuel t st = (Ok r, st') /\ requests st' = requests st.

Definition resolve_all (fuel : nat) (queue : list item) (results : list evaluation) : Prop :=
  Forall2 (fun i r => resolves_to fuel (item_body i) r) queue results.

(** The message sent for a resolved item: none when its body is blank. *)
Definition message (r : evaluation) : list request :=
  if blank (body r) then [] else [ConvoSendMessage (body r) (attachments r)].

(** One drain of the every queue. *)
Definition round (everies : list evaluation) : list request :=
  flat_map message everies.

(** The followups in turn, each one that is sent followed by a drain. *)
Definition followup_rounds (followups everies : list evaluation) : list request :=
  flat_map (fun f => if blank (body f) then [] else (message f ++ round everies)%list)
           followups.

Fixpoint has_brace (s : string) : bool :=
  match s with
  | String c s' => Ascii.eqb c "{" || has_brace s'
  | EmptyString => false
  end.

(** The evaluation of a text without directives. *)
Definition plain (s : string) : evaluation :=
  {| body := normalise (if blank s then LF else s);
     attachments := []; followup := []; every := [] |}.

(** The state in which the queues are drained: the answer [a] to the
    initial message is bound to [claude_response], its completion to
    [response]. *)
Definition drain_state (prompt : evaluation) (a : hostval) (w : world)
           (st : state) : state :=
  {| variables := set_prop "response" (host_get a "completion")
                    (set_prop "claude_response" (JHost a) (variables st));
     host_world := w;
     requests := (requests st ++ [StartConversation (body prompt) (attachments prompt)])%list |}.

End Engine.

(** A host to run the engine on: a file system held in a list, a client
    that is ready, a backend that answers [re:] followed by the message,
    and no [eval]. *)
Module Demo.

Inductive object : Type :=
| Response (completion : string)     (* { completion } *)
| Builtin (name : string).           (* a member of Object.prototype *)

Record disk : Type := { files : list (string * string) }.

Fixpoint read (fs : list (string * string)) (path : string) : option string :=
  match fs with
  | [] => None
  | (p, text) :: fs' => if String.eqb p path then Some text else read fs' path
  end.

Definition message_of (rq : request) : string :=
  match rq with
  | ClaudeInit => ""
  | StartConversation text _ => text
  | ConvoSendMessage text _ => text
  | ClaudeSendMessage text => text
  end.

Definition host : Host :=
  {| hostval := object;
     world := disk;
     host_truthy := fun _ => true;
     host_text := fun o =>
       match o with
       | Response _ => "[object Object]"
       | Builtin name => "function " ++ name ++ "() { [native code] }"
       end;
     host_get := fun o name =>
       match o with
       | Response text => if String.eqb name "completion" then JString text else JUndefined
       | Builtin _ => JUndefined
       end;
     prototype_member := Builtin;
     import_path := fun _ value => value;
     readFileSync := fun w path => read (files w) path;
     writeFileSync := fun w path text => Some {| files := (path, text) :: files w |};
     js_eval := fun w _ _ => (Throw (HostError "eval is not available"), w);
     random_hex := fun w => ("000000", w);
     completion_object := Response;
     claude_ready := fun _ => true;
     claude_init := fun w => w;
     respond := fun w rq => (JHost (Response ("re:" ++ message_of rq)), w) |}.

(** The empty scope, an empty disk, no request made. *)
Definition start : @state host :=
  @Build_state host ∅ {| files := [] |} [].

End Demo.

(** * The other functions of the program *)

(** ** [formatName], the file name of an exported conversation *)

(** The name of a conversation comes from the backend and is any
    JavaScript string: in this part a string is the list of its UTF-16
    code units, whatever their values. *)
Definition units : Type := list N.

(** [a-z0-9] *)
Definition alnum_unit (u : N) : bool :=
  ((97 <=? u) && (u <=? 122) || (48 <=? u) && (u <=? 57))%N.

(** The code unit of the dash. *)
Definition dash : N := 45%N.

(** [s.replace(/[^a-z0-9]+/g, '-')]: every run of code units outside
    [a-z0-9] becomes one dash. *)
Fixpoint dash_runs (s : units) : units :=
  match s with
  | u :: s' =>
      if alnum_unit u then u :: dash_runs s'
      else
        match s' with
        | v :: _ => if alnum_unit v then dash :: dash_runs s' else dash_runs s'
        | [] => [dash]
        end
  | [] => []
  end.

(** The code units of a formatted name. *)
Definition name_unit (u : N) : bool := alnum_unit u || (u =? dash)%N.

(** No two neighbours in [s] are both the code unit [d]. *)
Fixpoint no_double (d : N) (s : units) : bool :=
  match s with
  | u :: s' =>
      match s' with
      | v :: _ => negb ((u =? d)%N && (v =? d)%N) && no_double d s'
      | [] => true
      end
  | [] => true
  end.

Section FormatName.

(** [String.prototype.toLowerCase], a function of the runtime that follows
    the case mappings of Unicode; it may change the length of a text. *)
Variable toLowerCase : units -> units.

(** [name.slice(0, 25).toLowerCase().replace(/[^a-z0-9]+/g, '-')] *)
Definition formatName (name : units) : units :=
  dash_runs (toLowerCase (firstn 25 name)).

End FormatName.

(** [toLowerCase] on a text of ASCII code units, to run [formatName] on:
    the letters [A-Z] move up by 32. *)
Definition lower_ascii (s : units) : units :=
  map (fun u => if ((65 <=? u) && (u <=? 90))%N then (u + 32)%N else u) s.

(** ** [getKey] and [getCookie], the session key *)

Fixpoint trimStart (s : string) : string :=
  match s with
  | String c s' => if is_space c then trimStart s' else s
  | EmptyString => EmptyString
  end.

Fixpoint trimEnd (s : string) : string :=
  match s with
  | String c s' =>
      match trimEnd s' with
      | EmptyString => if is_space c then EmptyString else String c EmptyString
      | t => String c t
      end
  | EmptyString => EmptyString
  end.

(** [String.prototype.trim] *)
Definition trim (s : string) : string := trimEnd (trimStart s).

(** The expression that matches the text [text] and then [r]. *)
Fixpoint lit (text : string) (r : regex) : regex :=
  match text with
  | String c text' => Seq (Chr c) (lit text' r)
  | EmptyString => r
  end.

(** The part of the expression of [getCookie] that follows the
    alternative: [escape(name)], the character [=], and the group 1 of any
    number of characters other than [;]. [escape] puts a backslash before
    each character that has a meaning in a pattern, so that [name] matches
    itself, character by character. *)
Definition cookie_pair (name : string) : regex :=
  lit name (Seq (Chr "=") (Group "1" (Star (Not ";")))).

(** [cookie.match(RegExp(...))] for the expression that is the
    alternative of the start of the text and of [;] with white space,
    followed by [cookie_pair name], then
    [match ? match[1] : null]. The search tries the positions from the
    left; the alternative [^] comes first and holds at the start of the
    text only, the alternative of [;] and white space is tried at every
    position. *)
Definition getCookie (name cookie : string) : option string :=
  match rmatch (cookie_pair name) cookie [] (fun _ g => Some g) with
  | Some g => Some (group_text g "1")
  | None =>
      match exec (Seq (Chr ";") (Seq (Star Space) (cookie_pair name))) cookie with
      | Some (_, g, _) => Some (group_text g "1")
      | None => None
      end
  end.

Definition START_SEQ : string := "sk-ant-sid01".

(** [!key || !key.startsWith(START_SEQ)] *)
Definition no_session_key (key : option string) : bool :=
  negb (truthy_text key) || negb (String.prefix START_SEQ (default "" key)).

(** [getKey()] as a function of what it reads: the flag [--key]
    ([cli.flags.key], by default the path of the key file), the environment
    variable [CLAUDE_KEY] and the text of the key file, [None] where
    [readFileSync] throws. *)
Definition getKey (flag : string) (env file : option string) : result string :=
  if String.prefix START_SEQ flag then Ok flag
  else
    let key := if truthy_text env then env else None in
    let key := match file with
               | Some text => Some (trim text)
               | None => key
               end in
    let looked_up : result (option string) :=
      if no_session_key key then
        if negb (truthy_text key) then Exit 1
        else Ok (getCookie (default "" key) (default "" key))
      else Ok key in
    match looked_up with
    | Ok key => if no_session_key key then Exit 1 else Ok (trim (default "" key))
    | Throw e => Throw e
    | Exit c => Exit c
    | OutOfFuel => OutOfFuel
    | OutOfModel => OutOfModel
    end.

(** ** The vocabulary of the further properties *)

(** No two neighbours in [s] are both the character [c]. *)
Fixpoint no_run (c : ascii) (s : string) : bool :=
  match s with
  | String a s' =>
      match s' with
      | String b _ => negb (Ascii.eqb a c && Ascii.eqb b c) && no_run c s'
      | EmptyString => true
      end
  | EmptyString => true
  end.

(** The first character of [s], if any, is outside [cs]. *)
Definition starts_outside (cs : cset) (s : string) : bool :=
  match s with
  | String c _ => negb (in_cset cs c)
  | EmptyString => true
  end.

(** Every character of [s] satisfies [p]. *)
Fixpoint all_chars (p : ascii -> bool) (s : string) : bool :=
  match s with
  | String c s' => p c && all_chars p s'
  | EmptyString => true
  end.

(** The text holds the two characters that open a command, an opening
    brace and a hash sign. *)
Fixpoint has_command (s : string) : bool :=
  match s with
  | String a s' =>
      match s' with
      | String b _ => (Ascii.eqb a "{" && Ascii.eqb b "#") || has_command s'
      | EmptyString => false
      end
  | EmptyString => false
  end.

(** A request made by [callClaude], outside of any conversation. *)
Definition one_shot (rq : request) : bool :=
  match rq with
  | ClaudeSendMessage _ => true
  | _ => false
  end.

Section Invariants.
Context {H : Host}.

(** Whatever the state, the computation [m] keeps the requests made so
    far and adds nothing but requests of [callClaude]. *)
Definition quiet {A : Type} (m : M A) : Prop :=
  forall st, exists sent,
    requests (snd (m st)) = (requests st ++ sent)%list
    /\ forallb one_shot sent = true.

(** The computation [m] never ends for lack of fuel. *)
Definition fuelled {A : Type} (m : M A) : Prop :=
  forall st, fst (m st) <> OutOfFuel.

End Invariants.

(** [decodes value v]: the branch of an inline command makes [v] of the
    input [value], which is the text that [JSON.parse] returns, or the
    input as it is written where [JSON.parse] throws. *)
Definition decodes (value v : string) : Prop :=
  JSON_parse value = Ok v \/ ((exists e, JSON_parse value = Throw e) /\ v = value).

(** The element is not a [js] command: no code is evaluated when it is
    processed. *)
Definition runs_no_code (t : token) : bool :=
  match t with
  | TNode (NBlock command _ _ _) => negb (is_js command)
  | TNode (NCommand command _ _) => negb (is_js command)
  | _ => true
  end.

(** The accumulators [acc'] hold what [acc] holds, followed by more. *)
Definition grows (acc acc' : evaluation) : Prop :=
  (exists text, body acc' = body acc ++ text)
  /\ attachments acc `prefix_of` attachments acc'
  /\ followup acc `prefix_of` followup acc'
  /\ every acc `prefix_of` every acc'.

(** A host like [Demo.host] whose backend answers without a completion. *)
Definition mute_host : Host :=
  {| hostval := Demo.object;
     world := Demo.disk;
     host_truthy := fun _ => true;
     host_text := host_text (Host := Demo.host);
     host_get := host_get (Host := Demo.host);
     prototype_member := Demo.Builtin;
     import_path := fun _ value => value;
     readFileSync := fun w path => Demo.read (Demo.files w) path;
     writeFileSync := fun w path text => Some {| Demo.files := (path, text) :: Demo.files w |};
     js_eval := fun w _ _ => (Throw (HostError "eval is not available"), w);
     random_hex := fun w => ("000000", w);
     completion_object := Demo.Response;
     claude_ready := fun _ => false;
     claude_init := fun w => w;
     respond := fun w rq => (JHost (Demo.Response ""), w) |}.

(** ** The schedule of the orchestrator *)

(** The turn of a queued item: the item, and what its text evaluates to
    when the turn comes. *)
Record visit : Type := {
  visited : item;
  yields : evaluation;
}.

Section Schedule.
Context {H : Host}.

(** [visits fuel st vs st']: from the state [st], the items of [vs] have
    their turns one after the other, up to the state [st']. At its turn an
    item is evaluated by [getPrompt] in the state of that moment; the body
    it yields is sent on the conversation, with the attachments it yields,
    unless it is blank. *)
Inductive visits (fuel : nat) : state -> list visit -> state -> Prop :=
| visits_nil (st : state) : visits fuel st [] st
| visits_skip (st : state) (v : visit) (st1 : state) (vs : list visit) (st' : state) :
    getPrompt fuel (item_body (visited v)) st = (Ok (yields v), st1) ->
    blank (body (yields v)) = true ->
    visits fuel st1 vs st' ->
    visits fuel st (v :: vs) st'
| visits_send (st : state) (v : visit) (st1 st2 : state) (vs : list visit) (st' : state) :
    getPrompt fuel (item_body (visited v)) st = (Ok (yields v), st1) ->
    blank (body (yields v)) = false ->
    send true (body (yields v)) (attachments (yields v)) st1 = (Ok tt, st2) ->
    visits fuel st2 vs st' ->
    visits fuel st (v :: vs) st'.

End Schedule.

(** [schedule followups everies vs pushed final]: the turns [vs] are those
    of the followup loop that starts with the followup queue [followups]
    and the every queue [everies]. The first followup of the queue has its
    turn; the followups it yields go to the end of the followup queue and
    the every-items it yields to the end of the every queue; if its body is
    not blank, every item of the every queue has a turn, in the order of
    the queue; then the loop goes on with the next followup. [pushed] are
    the followups queued on the way and [final] is the every queue at the
    end. *)
Inductive schedule : list item -> list item -> list visit -> list item -> list item -> Prop :=
| schedule_done (everies : list item) : schedule [] everies [] [] everies
| schedule_skip (i : item) (queue everies : list item) (v : visit) (vs : list visit)
                (pushed final : list item) :
    visited v = i ->
    blank (body (yields v)) = true ->
    schedule (queue ++ followup (yields v)) (everies ++ every (yields v)) vs pushed final ->
    schedule (i :: queue) everies (v :: vs) (followup (yields v) ++ pushed) final
| schedule_round (i : item) (queue everies : list item) (v : visit) (drain vs : list visit)
                 (pushed final : list item) :
    visited v = i ->
    blank (body (yields v)) = false ->
    map visited drain = (everies ++ every (yields v))%list ->
    schedule (queue ++ followup (yields v)) (everies ++ every (yields v)) vs pushed final ->
    schedule (i :: queue) everies (v :: drain ++ vs) (followup (yields v) ++ pushed) final.


(** ** [getFiles], the files named in a message *)

(** The character [ch] does not occur in [s]. *)
Definition free_of (ch : ascii) (s : string) : bool :=
  all_chars (fun c => negb (Ascii.eqb c ch)) s.

(** How often the character [ch] occurs in [s]. *)
Fixpoint count_char (ch : ascii) (s : string) : nat :=
  match s with
  | String c s' => (if Ascii.eqb c ch then 1 else 0) + count_char ch s'
  | EmptyString => 0
  end.

(** The expression of [getFiles]: an opening bracket, the group 1 of one
    or more characters other than a closing bracket, a closing bracket. *)
Definition file_reference : regex :=
  Seq (Chr "[") (Seq (Group "1" (Plus true (Not "]"))) (Chr "]")).

(** [s.indexOf(t)], as the text before the first occurrence of [t] in [s]
    and the text after it. *)
Fixpoint first_occurrence (t s : string) {struct s} : option (string * string) :=
  if String.prefix t s then Some (EmptyString, drop_str (String.length t) s)
  else
    match s with
    | String c s' =>
        match first_occurrence t s' with
        | Some (before, after) => Some (String c before, after)
        | None => None
        end
    | EmptyString => None
    end.

(** The replacement text of [String.prototype.replace] for a pattern that
    is a text: in the template, a dollar sign followed by a dollar sign
    stands for one dollar sign, followed by [&] for the matched text,
    followed by a backquote for the text before the match, followed by an
    apostrophe for the text after it. There are no groups, so a dollar sign
    before anything else stands for itself. *)
Fixpoint substitution (matched before after template : string) : string :=
  match template with
  | String "$" rest =>
      match rest with
      | String "$" rest' => String "$" (substitution matched before after rest')
      | String "&" rest' => matched ++ substitution matched before after rest'
      | String "`" rest' => before ++ substitution matched before after rest'
      | String "'" rest' => after ++ substitution matched before after rest'
      | _ => String "$" (substitution matched before after rest)
      end
  | String c rest => String c (substitution matched before after rest)
  | EmptyString => EmptyString
  end.

(** [s.replace(matched, template)] for a text [matched]: the first
    occurrence is replaced. *)
Definition replace_text (matched template s : string) : string :=
  match first_occurrence matched s with
  | Some (before, after) =>
      before ++ substitution matched before after template ++ after
  | None => s
  end.

Section Files.
Context {H : Host}.

(** [uploadFile(claude, filename)]: the attachment made of the file, or the
    end of the process when the file does not exist. *)
Variable uploadFile : string -> M attachment.

(** The loop of [getFiles]. The expression keeps its [lastIndex] from one
    round to the next while [question] is replaced by a longer text: the
    search goes on from the old position in the new text. [fuel] bounds the
    number of rounds. *)
Fixpoint getFiles_loop (fuel lastIndex : nat) (question : string)
         (attachments : list attachment) : M (list attachment * string) :=
  match exec file_reference (drop_str lastIndex question) with
  | None => ret (attachments, question)
  | Some (pre, g, post) =>
      match fuel with
      | O => out_of_fuel
      | S fuel' =>
          let filename := group_text g "1" in
          let index := lastIndex + String.length pre in
          let matched := consumed (drop_str index question) post in
          bind (uploadFile filename) (fun a =>
            getFiles_loop fuel' (String.length question - String.length post)
                          (replace_text matched ("the uploaded file " ++ filename) question)
                          (attachments ++ [a])%list)
      end
  end.

(** [getFiles(text, claude)], as the pair of [attachments] and [question] *)
Definition getFiles (fuel : nat) (text : string) : M (list attachment * string) :=
  getFiles_loop fuel 0 text [].

End Files.

(** ** The order of the followups *)

Section Worklist.
Context {H : Host}.

(** [drained fuel queue results]: the items of [queue] resolve to
    [results], one after the other, where the items that a result queues
    take their turn after all the items queued before them. No result
    queues every-items. *)
Inductive drained (fuel : nat) : list item -> list evaluation -> Prop :=
| drained_nil : drained fuel [] []
| drained_cons (i : item) (queue : list item) (r : evaluation) (results : list evaluation) :
    resolves_to fuel (item_body i) r ->
    every r = [] ->
    drained fuel (queue ++ followup r) results ->
    drained fuel (i :: queue) (r :: results).

End Worklist.

(** An upload that always succeeds, for running [getFiles] on the demo
    host: the attachment carries the name of the file and no content. *)
Definition demo_upload (filename : string) : M (H := Demo.host) attachment :=
  ret {| file_name := filename; file_type := "text/plain"; file_size := 0;
         extracted_content := "" |}.

(** ** Parts of a template *)

(** The text [t] occurs in [s]. *)
Fixpoint contains (t s : string) {struct s} : bool :=
  String.prefix t s
  || match s with
     | String _ s' => contains t s'
     | EmptyString => false
     end.

(** The text [s] is a part of [template]. *)
Definition part_of (template s : string) : Prop :=
  exists before after, template = before ++ s ++ after.

(** What an element of the parsed template has to do with the template:
    a text is a part of it, the body of a block is a part of it and is
    shorter, and the name of a command follows the two characters that
    open a command somewhere in it. *)
Definition token_within (template : string) (t : token) : Prop :=
  match t with
  | TStr s => part_of template s
  | TNode (NBlock _ _ _ text) =>
      part_of template text /\ String.length text < String.length template
  | TNode (NCommand command _ _) => contains ("{#" ++ command) template = true
  | TNode _ => True
  end.

(** The same, and the name of a block follows the two characters that open
    a command as well. *)
Definition token_inside (template : string) (t : token) : Prop :=
  token_within template t
  /\ match t with
     | TNode (NBlock command _ _ _) => contains ("{#" ++ command) template = true
     | _ => True
     end.

(** A character that stands for itself between the quotes of an inline
    command: no control character, no quote, no backslash, no opening
    brace. *)
Definition is_plain (c : ascii) : bool :=
  (32 <=? code c)%N && negb (Ascii.eqb c "034") && negb (Ascii.eqb c "\")
  && negb (Ascii.eqb c "{").

Section Sheltered.
Context {H : Host}.

(** [sheltered P rec t]: the element [t] evaluates no code and imports no
    file, that is, it is no [js] command and no [import] command, and the
    evaluation [rec] of the body of a block has the property [P]. *)
Definition sheltered (P : M evaluation -> Prop) (rec : string -> M evaluation)
           (t : token) : Prop :=
  match t with
  | TNode (NBlock command _ _ text) => is_js command = false /\ P (rec text)
  | TNode (NCommand command _ _) => is_js command = false /\ command <> "import"
  | _ => True
  end.

End Sheltered.

(** * Properties *)

(** ** The parser *)

Section Parser.

Lemma length_append (s1 s2 : string) :
  String.length (s1 ++ s2) = String.length s1 + String.length s2.
Proof.
  induction s1 as [| c s1 IH]; [reflexivity |].
  change (S (String.length (s1 ++ s2)) = S (String.length s1 + String.length s2)).
  now rewrite IH.
Qed.

Lemma append_assoc (s1 s2 s3 : string) : (s1 ++ s2) ++ s3 = s1 ++ (s2 ++ s3).
Proof.
  induction s1 as [| c s1 IH]; [reflexivity |].
  change (String c ((s1 ++ s2) ++ s3) = String c (s1 ++ (s2 ++ s3))).
  now rewrite IH.
Qed.

Lemma take_append (w s : string) : take_str (String.length w) (w ++ s) = w.
Proof.
  induction w as [| c w IH]; [now destruct s |].
  change (String c (take_str (String.length w) (w ++ s)) = String c w).
  now rewrite IH.
Qed.

Lemma consumed_append (w s : string) : consumed (w ++ s) s = w.
Proof.
  unfold consumed. rewrite length_append.
  replace (String.length w + String.length s - String.length s) with (String.length w) by lia.
  apply take_append.
Qed.

Lemma prefix_append (t s : string) :
  String.prefix t s = true -> s = t ++ drop_str (String.length t) s.
Proof.
  revert s. induction t as [| c t IH]; intros s Hp; [now destruct s |].
  destruct s as [| c' s]; [discriminate |]. cbn [String.prefix] in Hp.
  destruct (ascii_dec c c') as [-> |]; [| discriminate].
  change (String c' s = String c' (t ++ drop_str (String.length t) s)).
  now rewrite <- (IH s Hp).
Qed.

Context {A : Type}.

Lemma plus_greedy_sound (cs : cset) (k : string -> option A) (s : string) (x : A) :
  plus_greedy cs k s = Some x ->
  exists c w s', s = String c w ++ s' /\ all_in cs (String c w) = true /\ k s' = Some x.
Proof.
  induction s as [| c s IH]; [discriminate |]. cbn [plus_greedy].
  destruct (in_cset cs c) eqn:Hc; [| discriminate].
  destruct (plus_greedy cs k s) as [y |] eqn:Hrec.
  - intros [= ->]. destruct (IH eq_refl) as (c' & w & s' & -> & Hall & Hk).
    exists c, (String c' w), s'. split; [reflexivity |]. split; [| assumption].
    change (in_cset cs c && all_in cs (String c' w) = true). now rewrite Hc.
  - intros Hk. exists c, EmptyString, s. split; [reflexivity |]. split; [| assumption].
    cbn [all_in]. now rewrite Hc.
Qed.

Lemma plus_lazy_sound (cs : cset) (k : string -> option A) (s : string) (x : A) :
  plus_lazy cs k s = Some x ->
  exists c w s', s = String c w ++ s' /\ all_in cs (String c w) = true /\ k s' = Some x.
Proof.
  induction s as [| c s IH]; [discriminate |]. cbn [plus_lazy].
  destruct (in_cset cs c) eqn:Hc; [| discriminate].
  destruct (k s) as [y |] eqn:Hk.
  - intros [= ->]. exists c, EmptyString, s. split; [reflexivity |]. split; [| assumption].
    cbn [all_in]. now rewrite Hc.
  - intros Hrec. destruct (IH Hrec) as (c' & w & s' & -> & Hall & Hk').
    exists c, (String c' w), s'. split; [reflexivity |]. split; [| assumption].
    change (in_cset cs c && all_in cs (String c' w) = true). now rewrite Hc.
Qed.

Lemma star_greedy_sound (cs : cset) (k : string -> option A) (s : string) (x : A) :
  star_greedy cs k s = Some x ->
  exists w s', s = w ++ s' /\ all_in cs w = true /\ k s' = Some x.
Proof.
  induction s as [| c s IH]; cbn [star_greedy].
  - intros Hk. exists EmptyString, EmptyString. now split.
  - destruct (in_cset cs c) eqn:Hc.
    + destruct (star_greedy cs k s) as [y |] eqn:Hrec.
      * intros [= ->]. destruct (IH eq_refl) as (w & s' & -> & Hall & Hk).
        exists (String c w), s'. split; [reflexivity |]. split; [| assumption].
        cbn [all_in]. now rewrite Hc.
      * intros Hk. exists EmptyString, (String c s). now split.
    + intros Hk. exists EmptyString, (String c s). now split.
Qed.

(** Whatever [rmatch] hands to its continuation is a match. *)
Lemma rmatch_sound (r : regex) :
  forall (s : string) (g : groups) (k : string -> groups -> option A) (x : A),
    rmatch r s g k = Some x ->
    exists s' g', matches r s g s' g' /\ k s' g' = Some x.
Proof.
  induction r as [c | greedy cs | cs | r IH | r1 IH1 r2 IH2 | name r IH | name];
    intros s g k x; cbn [rmatch].
  - destruct s as [| c' s]; [discriminate |].
    destruct (Ascii.eqb_spec c c') as [<- |]; [| discriminate].
    intros Hk. exists s, g. split; [constructor | assumption].
  - destruct greedy; intros Hm;
      [apply plus_greedy_sound in Hm | apply plus_lazy_sound in Hm];
      destruct Hm as (c & w & s' & -> & Hall & Hk);
      exists s', g; (split; [now constructor | assumption]).
  - intros Hm. apply star_greedy_sound in Hm as (w & s' & -> & Hall & Hk).
    exists s', g. split; [now constructor | assumption].
  - destruct (rmatch r s g k) as [y |] eqn:Hm.
    + intros [= ->]. destruct (IH _ _ _ _ Hm) as (s' & g' & Hr & Hk).
      exists s', g'. split; [now constructor | assumption].
    + intros Hk. exists s, g. split; [apply matches_opt_skip | assumption].
  - intros Hm. destruct (IH1 _ _ _ _ Hm) as (s1 & g1 & Hr1 & Hm2).
    destruct (IH2 _ _ _ _ Hm2) as (s2 & g2 & Hr2 & Hk).
    exists s2, g2. split; [econstructor; eassumption | assumption].
  - intros Hm. destruct (IH _ _ _ _ Hm) as (s' & g' & Hr & Hk).
    exists s', ((name, consumed s s') :: g'). split; [now constructor | assumption].
  - destruct (group g name) as [t |] eqn:Hg.
    + destruct (String.prefix t s) eqn:Hp; [| discriminate].
      intros Hk. exists (drop_str (String.length t) s), g. split; [| assumption].
      rewrite (prefix_append t s Hp) at 1. now apply matches_backref.
    + intros Hk. exists s, g. split; [now apply matches_backref_unset | assumption].
Qed.

End Parser.

(** A match consumes a part of its input, and a part that is not empty
    when the expression is [nonempty]. *)
Lemma matches_length (r : regex) (s : string) (g : groups) (s' : string) (g' : groups) :
  matches r s g s' g' ->
  String.length s' <= String.length s
  /\ (nonempty r = true -> String.length s' < String.length s).
Proof.
  induction 1 as [c s g | greedy cs c w s g Hall | cs w s g Hall
                  | r s g s' g' _ [IHle IHlt] | r s g
                  | r1 r2 s g s1 g1 s2 g2 _ [IH1le IH1lt] _ [IH2le IH2lt]
                  | name r s g s' g' _ [IHle IHlt]
                  | name t s g Hg | name s g Hg];
    cbn [nonempty]; rewrite ?length_append; cbn [String.length];
    try (split; [lia | intros; try discriminate; lia]).
  - split; [lia |]. intros Hne. apply orb_prop in Hne as [Hne | Hne].
    + specialize (IH1lt Hne). lia.
    + specialize (IH2lt Hne). lia.
  - split; [lia | intros Hne; specialize (IHlt Hne); lia].
Qed.

Lemma exec_matches (r : regex) (s pre post : string) (a : groups) :
  exec r s = Some (pre, a, post) ->
  exists s0, matches r s0 [] post a /\ String.length s0 <= String.length s.
Proof.
  revert pre. induction s as [| c s IH]; intros pre; cbn [exec].
  - destruct (rmatch r "" [] (fun s' g => Some (g, s'))) as [[g s'] |] eqn:Hm;
      [| discriminate].
    intros [= <- <- <-]. apply rmatch_sound in Hm as (s1 & g1 & Hr & [= <- <-]).
    now exists EmptyString.
  - destruct (rmatch r (String c s) [] (fun s' g => Some (g, s'))) as [[g s'] |] eqn:Hm.
    + intros [= <- <- <-]. apply rmatch_sound in Hm as (s1 & g1 & Hr & [= <- <-]).
      now exists (String c s).
    + destruct (exec r s) as [[[pre' g] post'] |] eqn:He; [| discriminate].
      intros [= <- <- <-]. destruct (IH pre' eq_refl) as (s0 & Hr & Hle).
      exists s0. split; [assumption |]. cbn [String.length]. lia.
Qed.

(** A match of a [nonempty] expression leaves less input than there was. *)
Lemma exec_progress (r : regex) (s pre post : string) (a : groups) :
  nonempty r = true ->
  exec r s = Some (pre, a, post) ->
  String.length post < String.length s.
Proof.
  intros Hne He. apply exec_matches in He as (s0 & Hr & Hle).
  apply matches_length in Hr as [_ Hlt]. specialize (Hlt Hne). lia.
Qed.

Ltac invert_match :=
  repeat match goal with
         | H : matches (Seq _ _) _ _ _ _ |- _ => inversion H; subst; clear H
         | H : matches (Chr _) _ _ _ _ |- _ => inversion H; subst; clear H
         | H : matches (Group _ _) _ _ _ _ |- _ => inversion H; subst; clear H
         | H : matches (Opt _) _ _ _ _ |- _ => inversion H; subst; clear H
         | H : matches (Plus _ _) _ _ _ _ |- _ => inversion H; subst; clear H
         | H : matches (Star _) _ _ _ _ |- _ => inversion H; subst; clear H
         | H : matches (Backref _) _ _ _ _ |- _ => inversion H; subst; clear H
         end.

(** In every match of the block expression the closing name is the
    opening name: [endcmd] captures what the backreference to [command]
    matched. *)
Lemma block_names_agree (s s' : string) (a : groups) :
  matches RE.block s [] s' a ->
  exists name, group a "command" = Some name /\ group a "endcmd" = Some name.
Proof.
  unfold RE.block. intros Hm. invert_match;
    cbn [group String.eqb Ascii.eqb Bool.eqb] in *;
    try discriminate;
    match goal with
    | Hg : Some _ = Some ?t |- _ =>
        injection Hg as Hg; exists t; rewrite Hg, consumed_append; now split
    end.
Qed.

(** The test [a.groups.command !== a.groups.endcmd] of the block callback
    never holds: the callback does not throw. *)
Lemma block_callback_never_throws (s pre post : string) (a : groups) :
  exec RE.block s = Some (pre, a, post) ->
  exists n, block_callback a = Ok (TNode n).
Proof.
  intros He. apply exec_matches in He as (s0 & Hr & _).
  apply block_names_agree in Hr as (name & Hc & He).
  unfold block_callback. rewrite Hc, He.
  rewrite bool_decide_eq_true_2 by reflexivity. cbn [negb]. eauto.
Qed.

Lemma findReplace_scan_total (re : regex) (callback : groups -> result token) :
  nonempty re = true ->
  (forall s pre a post, exec re s = Some (pre, a, post) -> exists t, callback a = Ok t) ->
  forall (fuel : nat) (str : string),
    String.length str <= fuel ->
    exists out, findReplace_scan fuel re callback str = Ok out.
Proof.
  intros Hne Hcb. induction fuel as [| fuel IH]; intros str Hlen.
  - cbn [findReplace_scan]. destruct (exec re str) as [[[pre a] post] |] eqn:He; [| eauto].
    apply exec_progress in He; [lia | assumption].
  - cbn [findReplace_scan]. destruct (exec re str) as [[[pre a] post] |] eqn:He; [| eauto].
    destruct (Hcb _ _ _ _ He) as [t ->].
    apply exec_progress in He; [| assumption].
    destruct (IH post ltac:(lia)) as [rest ->]. eauto.
Qed.

Lemma findReplace_total (re : regex) (callback : groups -> result token) :
  nonempty re = true ->
  (forall s pre a post, exec re s = Some (pre, a, post) -> exists t, callback a = Ok t) ->
  forall strings, exists out, findReplace re callback strings = Ok out.
Proof.
  intros Hne Hcb. induction strings as [| [str | n] strings [out IH]];
    cbn [findReplace]; [eauto | | rewrite IH; eauto].
  destruct (String.length str =? 0)%nat.
  - rewrite IH. eauto.
  - destruct (findReplace_scan_total re callback Hne Hcb (String.length str) str)
      as [out1 ->]; [lia |].
    rewrite IH. eauto.
Qed.

(** Parsing always yields a sequence: no template makes a callback throw,
    and the fuel of the scans never runs out. *)
Theorem parse_total (template : string) : exists out, parse template = Ok out.
Proof.
  unfold parse.
  assert (Hblock : forall s pre a post,
             exec RE.block s = Some (pre, a, post) -> exists t, block_callback a = Ok t).
  { intros s pre a post He.
    destruct (block_callback_never_throws s pre post a He) as [n ->]. eauto. }
  destruct (findReplace_total RE.block block_callback eq_refl Hblock [TStr template])
    as [out1 ->].
  destruct (findReplace_total RE.inline_command inline_command_callback eq_refl
              ltac:(unfold inline_command_callback; eauto) out1) as [out2 ->].
  destruct (findReplace_total RE.var_write var_write_callback eq_refl
              ltac:(unfold var_write_callback; eauto) out2) as [out3 ->].
  exact (findReplace_total RE.var_read var_read_callback eq_refl
           ltac:(unfold var_read_callback; eauto) out3).
Qed.


Section Properties.
Context {H : Host}.

Abbreviation value := (jsval hostval).

Lemma bind_ok {A B : Type} (m : M A) (k : A -> M B) (st : state) (b : B) (st' : state) :
  bind m k st = (Ok b, st') ->
  exists a st1, m st = (Ok a, st1) /\ k a st1 = (Ok b, st').
Proof.
  unfold bind. destruct (m st) as [[a | e | c | |] st1]; try discriminate. eauto.
Qed.

(** ** The command dispatcher *)

Lemma eqb_no_handler (command name : string) :
  has_handler command = false -> In name handler_names -> String.eqb command name = false.
Proof.
  intros Hnot Hin. destruct (String.eqb command name) eqn:He; [| reflexivity].
  assert (Ht : has_handler command = true)
    by (apply existsb_exists; exists name; split; assumption).
  congruence.
Qed.

(** The dispatcher falls through all its cases for a name outside the
    handler table. *)
Lemma runCommand_no_handler
      (command arg : string) (param : option string) (st : state) :
  has_handler command = false ->
  runCommand command arg param st =
    (Ok {| r_body := Some (JString (command ++ "(" ++ arg ++ ")"));
           r_value := None; r_variables := None; r_attachments := None;
           r_followup := None; r_every := None |}, st).
Proof.
  intros Hnot. unfold runCommand, is_js.
  rewrite !(fun name Hin => eqb_no_handler command name Hnot Hin) by (simpl; tauto).
  reflexivity.
Qed.

(** C9. A command whose name is not in the handler table is dispatched
    without an error and without an effect on the state; the result has
    the body [command(arg)] and no other property. *)
Theorem unknown_command_placeholder
        (command arg : string) (param : option string) (st : state) :
  has_handler command = false ->
  runCommand command arg param st =
    (Ok {| r_body := Some (JString (command ++ "(" ++ arg ++ ")"));
           r_value := None; r_variables := None; r_attachments := None;
           r_followup := None; r_every := None |}, st).
Proof.
  intros Hnot.
  assert (Hne : forall name, In name handler_names -> String.eqb command name = false)
    by (intros name; apply eqb_no_handler; exact Hnot).
  unfold runCommand, is_js.
  rewrite !Hne by (simpl; tauto).
  reflexivity.
Qed.

(** ** The evaluator, node by node *)

Lemma append_empty (s : string) : s ++ "" = s.
Proof.
  induction s as [|c s IH]; [reflexivity |].
  change (String c (s ++ "") = String c s). now rewrite IH.
Qed.

(** The loop body for a node is the computation of [result] followed by
    the tail. *)
Lemma eval_node_tail (getPrompt : string -> M evaluation) (block : node)
      (acc : evaluation) (st : state) :
  eval_node getPrompt block acc st =
    match node_result getPrompt block (read_variable block acc st) (before_result block st) with
    | (Ok (result, acc1), st1) =>
        (Ok (collect result acc1), with_variables (after_node block result (variables st1)) st1)
    | (Throw e, st1) => (Throw e, st1)
    | (Exit c, st1) => (Exit c, st1)
    | (OutOfFuel, st1) => (OutOfFuel, st1)
    | (OutOfModel, st1) => (OutOfModel, st1)
    end.
Proof.
  unfold eval_node, bind at 1 2 3.
  assert (Htail : forall acc0 st0,
    bind (node_result getPrompt block acc0) (fun '(result, acc1) =>
      let result_body := default (JString "") (r_body result) in
      let acc2 := append_body (to_text result_body) acc1 in
      let last := or_else (default JUndefined (r_value result)) result_body in
      bind (set "response" last) (fun _ =>
      bind (set "result" last) (fun _ =>
      bind (Object_assign (default (Fresh ∅) (r_variables result))) (fun _ =>
      bind (if truthy_text (node_var block)
            then bind (get "response") (fun response =>
                       set (default "" (node_var block)) response)
            else ret tt) (fun _ =>
      ret {| body := body acc2;
             attachments := (attachments acc2 ++ default [] (r_attachments result))%list;
             followup := (followup acc2 ++ default [] (r_followup result))%list;
             every := (every acc2 ++ default [] (r_every result))%list |}))))) st0 =
    match node_result getPrompt block acc0 st0 with
    | (Ok (result, acc1), st1) =>
        (Ok (collect result acc1), with_variables (after_node block result (variables st1)) st1)
    | (Throw e, st1) => (Throw e, st1)
    | (Exit c, st1) => (Exit c, st1)
    | (OutOfFuel, st1) => (OutOfFuel, st1)
    | (OutOfModel, st1) => (OutOfModel, st1)
    end).
  { intros acc0 st0. unfold bind at 1.
    destruct (node_result getPrompt block acc0 st0) as [[[result acc1]| | | |] st1];
      try reflexivity.
    unfold after_node, collect.
    destruct (r_variables result) as [[|o]|]; simpl;
      destruct (truthy_text (node_var block)); reflexivity. }
  destruct block; simpl; apply Htail.
Qed.

(** ** Variable reads and writes *)

Lemma set_prop_insert (name : string) (v : value) (o : gmap string value) :
  name <> "__proto__" -> set_prop name v o = <[name := v]> o.
Proof.
  intros Hne. unfold set_prop.
  destruct (String.eqb_spec name "__proto__"); [contradiction | reflexivity].
Qed.

Lemma lookup_set_prop (name : string) (v : value) (o : gmap string value) :
  name <> "__proto__" -> lookup (set_prop name v o) name = v.
Proof.
  intros Hne. rewrite set_prop_insert by assumption.
  unfold lookup. now rewrite lookup_insert_eq.
Qed.

Lemma is_Some_set_prop (k name : string) (v : value) (o : gmap string value) :
  is_Some (o !! k) -> is_Some (set_prop name v o !! k).
Proof.
  intros Hk. unfold set_prop. destruct (String.eqb name "__proto__"); [assumption |].
  destruct (decide (name = k)) as [->|Hne].
  - rewrite lookup_insert_eq. eauto.
  - now rewrite lookup_insert_ne.
Qed.

Lemma after_node_has (block : node) (result : command_result)
      (vars : gmap string value) (k : string) :
  k = "response" \/ k = "result" ->
  is_Some (after_node block result vars !! k).
Proof.
  intros Hk. unfold after_node.
  set (last := or_else _ _).
  assert (H0 : is_Some (set_prop "result" last (set_prop "response" last vars) !! k)).
  { destruct Hk as [-> | ->].
    - apply is_Some_set_prop. rewrite set_prop_insert by discriminate.
      rewrite lookup_insert_eq. eauto.
    - rewrite (set_prop_insert "result") by discriminate.
      rewrite lookup_insert_eq. eauto. }
  assert (H1 : is_Some (match default (Fresh ∅) (r_variables result) with
                        | TheScope => set_prop "result" last (set_prop "response" last vars)
                        | Fresh o => o ∪ set_prop "result" last (set_prop "response" last vars)
                        end !! k)).
  { destruct (default (Fresh ∅) (r_variables result)) as [|o]; [assumption |].
    destruct H0 as [v Hv]. destruct (o !! k) as [w|] eqn:Ho.
    - exists w. now apply lookup_union_Some_l.
    - exists v. rewrite lookup_union_r; assumption. }
  destruct (truthy_text (node_var block)); [now apply is_Some_set_prop | assumption].
Qed.

(** The tail of the loop body after a node without a result. *)
Lemma after_node_no_result (block : node) (vars : gmap string value) :
  node_var block = None ->
  after_node block no_result vars =
    <["result" := JString ""]> (<["response" := JString ""]> vars).
Proof.
  intros Hvar. unfold after_node. rewrite Hvar. simpl.
  now rewrite map_empty_union.
Qed.

(** A read of a name that is neither bound in the scope nor inherited
    appends the text [undefined]. *)
Lemma read_unbound (getPrompt : string -> M evaluation) (name : string)
      (acc : evaluation) (st : state) :
  variables st !! name = None ->
  inherited name = false ->
  eval_node getPrompt (NVariable name) acc st =
    (Ok (collect no_result (append_body "undefined" acc)),
     with_variables (<["result" := JString ""]> (<["response" := JString ""]> (variables st))) st).
Proof.
  intros Hown Hinh. rewrite eval_node_tail. simpl.
  unfold ret, lookup. rewrite Hown, Hinh.
  now rewrite after_node_no_result.
Qed.

(** C10. A [variable] node and a [variable_set] node leave the empty
    string in [response] and in [result], whatever these held before; and
    after any node that is processed without an error the scope is the one
    in which [result] was computed, with [response] and [result] assigned
    the value of the result (else its body) before the variables of the
    result and the bound variable are assigned, so both entries exist. *)
Theorem response_and_result_overwritten :
  (forall (getPrompt : string -> M evaluation) name acc st,
      eval_node getPrompt (NVariable name) acc st =
        (Ok (collect no_result (append_body (to_text (lookup (variables st) name)) acc)),
         with_variables
           (<["result" := JString ""]> (<["response" := JString ""]> (variables st))) st))
  /\ (forall (getPrompt : string -> M evaluation) name value acc st,
      eval_node getPrompt (NVariableSet name value) acc st =
        (Ok (collect no_result acc),
         with_variables
           (<["result" := JString ""]>
              (<["response" := JString ""]> (set_prop name (JString value) (variables st))))
           st))
  /\ (forall (getPrompt : string -> M evaluation) block acc st acc' st',
      eval_node getPrompt block acc st = (Ok acc', st') ->
      exists result acc1 st1,
        node_result getPrompt block (read_variable block acc st) (before_result block st)
          = (Ok (result, acc1), st1)
        /\ variables st' = after_node block result (variables st1)
        /\ is_Some (variables st' !! "response")
        /\ is_Some (variables st' !! "result")).
Proof.
  split; [| split].
  - intros getPrompt name acc st. rewrite eval_node_tail. simpl.
    now rewrite after_node_no_result.
  - intros getPrompt name value acc st. rewrite eval_node_tail. simpl.
    now rewrite after_node_no_result.
  - intros getPrompt block acc st acc' st'. rewrite eval_node_tail.
    destruct (node_result getPrompt block _ _) as [[[result acc1]| | | |] st1];
      try discriminate.
    intros [= <- <-]. exists result, acc1, st1. simpl.
    repeat split; try apply after_node_has; auto.
Qed.

(** C2. The template [{x}] evaluated in an empty scope yields the body
    [undefined] between two line feeds: the read of the unbound [x]
    appends the text [undefined], not the empty string. *)
Theorem unbound_read_appends_undefined (fuel : nat) (w : world) :
  getPrompt (S fuel) "{x}" {| variables := ∅; host_world := w; requests := [] |} =
    (Ok {| body := LF ++ "undefined" ++ LF; attachments := []; followup := [];
           every := [] |},
     {| variables := <["result" := JString ""]> (<["response" := JString ""]> ∅);
        host_world := w; requests := [] |}).
Proof. reflexivity. Qed.

(** The sibling path: [simpleVarReplace] reads the same scope with
    [variables[varname] || ''] and puts nothing in the place of an unbound
    name. *)
Lemma substitute_unbound : substitute ∅ "a{x}b" = "ab".
Proof. reflexivity. Qed.

(** ** Deferred and dispatched commands *)

Lemma runCommand_deferred (command text : string) (param : option string) (st : state) :
  command = "followup" \/ command = "every" ->
  runCommand command text param st = (Ok (queued command text), st).
Proof. intros [-> | ->]; reflexivity. Qed.

(** A [followup] or [every] block queues its body as it stands: the
    recursive call is not made and the scope is only read by the tail. *)
Lemma deferred_block (getPrompt : string -> M evaluation)
      (command : string) (param var : option string) (text : string)
      (acc : evaluation) (st : state) :
  command = "followup" \/ command = "every" ->
  eval_node getPrompt (NBlock command param var text) acc st =
    (Ok (collect (queued command text) acc),
     with_variables
       (after_node (NBlock command param var text) (queued command text) (variables st)) st).
Proof.
  intros Hc. rewrite eval_node_tail. simpl.
  assert (Hb : String.eqb command "followup" || String.eqb command "every" = true)
    by (destruct Hc as [-> | ->]; reflexivity).
  rewrite Hb. unfold bind. now rewrite runCommand_deferred.
Qed.

(** What [parsed_value] makes of an input. *)
Lemma parsed_decodes (value v : string) :
  decodes value v <-> parsed_value (Some value) = Ok (Some v).
Proof.
  unfold decodes, parsed_value. split.
  - intros [Hv | [[e He] ->]]; [now rewrite Hv | now rewrite He].
  - destruct (JSON_parse value) as [s | e | c | |]; try discriminate.
    + intros [= <-]. now left.
    + intros [= <-]. right. eauto.
Qed.

(** The branch of an inline command that is not [import], for an input
    that was decoded. *)
Lemma node_result_inline (getPrompt : string -> M evaluation)
      (command value : string) (var : option string) (v : string)
      (acc : evaluation) (st : state) :
  String.eqb command "import" = false ->
  decodes value v ->
  node_result getPrompt (NCommand command (Some value) var) acc st =
    bind (runCommand command (substitute (variables st) v) None)
         (fun result =>
            ret (if truthy_text var then with_body (JString "") result else result, acc)) st.
Proof.
  intros Hi Hd. apply parsed_decodes in Hd. cbn [node_result].
  unfold bind at 1. unfold lift. rewrite Hd, Hi. reflexivity.
Qed.

(** An inline [followup] or [every] command queues its input after
    [JSON.parse] and after the substitution of the variables it reads. *)
Lemma deferred_inline (getPrompt : string -> M evaluation)
      (command value : string) (var : option string) (decoded : string)
      (acc : evaluation) (st : state) :
  command = "followup" \/ command = "every" ->
  decodes value decoded ->
  let text := substitute (variables st) decoded in
  let result := if truthy_text var then with_body (JString "") (queued command text)
                else queued command text in
  eval_node getPrompt (NCommand command (Some value) var) acc st =
    (Ok (collect result acc),
     with_variables (after_node (NCommand command (Some value) var) result (variables st)) st).
Proof.
  intros Hc Hd. rewrite eval_node_tail. cbn [read_variable before_result].
  assert (Hi : String.eqb command "import" = false)
    by (destruct Hc as [-> | ->]; reflexivity).
  rewrite (node_result_inline _ _ _ _ decoded) by assumption.
  unfold bind. now rewrite runCommand_deferred.
Qed.

(** ** Requests made by a computation *)

Lemma emits_ret {A : Type} (a : A) (st : state) (post : A -> Prop) :
  post a -> emits (ret a) st [] post.
Proof.
  intros Hp. exists []. simpl. rewrite app_nil_r.
  split; [| split; [| split]]; auto. now intros a' [= <-].
Qed.

Lemma emits_bind {A B : Type} (m : M A) (k : A -> M B) (st : state)
      (e1 e2 : list request) (P : A -> Prop) (Q : B -> Prop) :
  emits m st e1 P ->
  (forall a st1, m st = (Ok a, st1) -> P a -> emits (k a) st1 e2 Q) ->
  emits (bind m k) st (e1 ++ e2) Q.
Proof.
  intros (sent1 & Hreq1 & Hpre1 & Hok1 & Hres1) Hk. unfold emits, bind.
  destruct (m st) as [r st1] eqn:Hm. simpl in *.
  destruct r as [a| e | c | |].
  - destruct (Hok1 a eq_refl) as [-> HP].
    destruct (Hk a st1 eq_refl HP) as (sent2 & Hreq2 & Hpre2 & Hok2 & Hres2).
    exists (e1 ++ sent2)%list. split; [| split; [| split]].
    + rewrite Hreq2, Hreq1. now rewrite app_assoc.
    + now apply prefix_app.
    + intros b Hb. destruct (Hok2 b Hb) as [-> HQ]. now split.
    + assumption.
  - exists sent1. simpl. split; [| split; [| split]]; try discriminate; auto.
    now apply prefix_app_r.
  - exists sent1. simpl. split; [| split; [| split]]; try discriminate; auto.
    now apply prefix_app_r.
  - exists sent1. simpl. split; [| split; [| split]]; try discriminate; auto.
    now apply prefix_app_r.
  - exists sent1. simpl. split; [| split; [| split]]; try discriminate; auto.
    now apply prefix_app_r.
Qed.

Lemma emits_bind_silent {A B : Type} (m : M A) (k : A -> M B) (st : state)
      (e : list request) (P : A -> Prop) (Q : B -> Prop) :
  emits m st [] P ->
  (forall a st1, m st = (Ok a, st1) -> P a -> emits (k a) st1 e Q) ->
  emits (bind m k) st e Q.
Proof. intros Hm Hk. exact (emits_bind m k st [] e P Q Hm Hk). Qed.

Lemma emits_set (name : string) (v : value) (st : state) :
  emits (set name v) st [] (fun _ => True).
Proof.
  exists []. simpl. rewrite app_nil_r. split; [| split; [| split]]; auto.
Qed.

Lemma emits_get (name : string) (st : state) :
  emits (get name) st [] (fun v => v = lookup (variables st) name).
Proof.
  exists []. simpl. rewrite app_nil_r. split; [| split; [| split]]; auto.
  now intros a [= <-].
Qed.

(** A request is recorded whether or not its answer carries a completion. *)
Lemma emits_call (rq : request) (st : state) :
  emits (call rq) st [rq] (fun _ => True).
Proof.
  unfold emits, call.
  destruct (respond (host_world st) rq) as [a w] eqn:Hr.
  exists [rq]. split; [| split; [reflexivity | split]].
  - destruct a as [| s | h]; simpl; try reflexivity.
    now destruct (truthy (host_get h "completion")).
  - intros a' _. now split.
  - intros Hres. destruct (Hres (host_world st) rq) as (h & w' & Hr' & Hc).
    rewrite Hr in Hr'. injection Hr' as -> ->. now rewrite Hc.
Qed.

Lemma emits_send (text : string) (files : list attachment) (st : state) :
  emits (send true text files) st [ConvoSendMessage text files] (fun _ => True).
Proof.
  unfold send.
  change [ConvoSendMessage text files] with ([ConvoSendMessage text files] ++ [])%list.
  eapply emits_bind; [apply emits_call |].
  intros a st1 _ _. apply emits_set.
Qed.

(** ** The schedule of the orchestrator *)

Lemma emits_resolved (fuel : nat) (t : string) (r : evaluation) (st : state) :
  resolves_to fuel t r -> emits (getPrompt fuel t) st [] (fun x => x = r).
Proof.
  intros Hr. destruct (Hr st) as (st' & Hev & Hreq).
  exists []. rewrite Hev. cbn [fst snd is_ok]. rewrite app_nil_r.
  split; [| split; [| split]]; auto.
  intros a [= <-]. now split.
Qed.

Lemma runEveries_emits (fuel : nat) (queue : list item) (results : list evaluation) :
  resolve_all fuel queue results ->
  forall st, emits (runEveries fuel true queue) st (round results) (fun _ => True).
Proof.
  induction 1 as [| j r queue results Hj _ IH]; intros st.
  - now apply emits_ret.
  - cbn [runEveries round flat_map].
    eapply emits_bind_silent; [apply emits_resolved, Hj |].
    intros thing st1 _ ->. unfold message.
    destruct (blank (body r)); [apply IH |].
    apply (emits_bind _ _ _ [ConvoSendMessage (body r) (attachments r)] (round results)
                      (fun _ => True));
      [apply emits_send |].
    intros _ st2 _ _. apply IH.
Qed.

Lemma run_followups_emits (fuel : nat) (everies : list item) (eresults : list evaluation) :
  resolve_all fuel everies eresults ->
  forall (n : nat) (queue : list item) (results : list evaluation),
    resolve_all fuel queue results ->
    Forall (fun r => followup r = [] /\ every r = []) results ->
    length queue <= n ->
    forall st,
      emits (run_followups fuel n true queue everies) st
            (followup_rounds results eresults)
            (fun out => out = ([], everies)).
Proof.
  intros He n. induction n as [| n IH]; intros queue results Hq Hnone Hlen st.
  - destruct Hq as [| i r queue results]; [| simpl in Hlen; lia].
    now apply emits_ret.
  - destruct Hq as [| i r queue results Hi Hq]; [now apply emits_ret |].
    inversion Hnone as [| ? ? [Hf He'] Hnone']; subst.
    simpl in Hlen. cbn [run_followups followup_rounds flat_map].
    eapply emits_bind_silent; [apply emits_resolved, Hi |].
    intros followup_i st1 _ ->. rewrite Hf, He', !app_nil_r.
    rewrite <- (app_nil_r (_ ++ flat_map _ results)).
    eapply emits_bind.
    + unfold message. destruct (blank (body r)) eqn:Hb.
      * apply IH; auto. lia.
      * apply (emits_bind _ _ _ [ConvoSendMessage (body r) (attachments r)]
                          (round eresults ++ followup_rounds results eresults)
                          (fun _ => True));
          [apply emits_send |].
        intros _ st2 _ _.
        eapply emits_bind; [apply runEveries_emits, He |]. intros _ st3 _ _.
        apply IH; auto. lia.
    + intros [pushed final] st2 _ [= -> ->]. now apply emits_ret.
Qed.

Lemma emits_ensure_ready (st : state) :
  emits ensure_ready st
        (if claude_ready (host_world st) then [] else [ClaudeInit])
        (fun _ => True).
Proof.
  unfold emits, ensure_ready.
  destruct (claude_ready (host_world st)).
  - exists []. simpl. rewrite app_nil_r. split; [| split; [| split]]; auto.
  - exists [ClaudeInit]. simpl. split; [| split; [| split]]; auto.
Qed.

(** The requests of a run whose body is not blank and whose queued items
    resolve: the conversation is started, the every queue is drained, and
    each followup that is sent is followed by a drain. *)
Lemma runPrompt_emits (fuel : nat) (prompt : evaluation)
      (eresults fresults : list evaluation) (st : state) :
  blank (body prompt) = false ->
  resolve_all fuel (every prompt) eresults ->
  resolve_all fuel (followup prompt) fresults ->
  Forall (fun r => followup r = [] /\ every r = []) fresults ->
  length (followup prompt) <= fuel ->
  emits (runPrompt fuel prompt false) st
        ((if claude_ready (host_world st) then [] else [ClaudeInit])
           ++ StartConversation (body prompt) (attachments prompt)
           :: round eresults ++ followup_rounds fresults eresults)
        (fun out => out = Some {| prompt_after := prompt; conversation := true |}).
Proof.
  intros Hb He Hf Hnone Hlen. unfold runPrompt. rewrite Hb.
  cbn [negb orb truthy_array].
  eapply emits_bind; [apply emits_ensure_ready |]. intros _ st1 _ _.
  apply (emits_bind _ _ _ [StartConversation (body prompt) (attachments prompt)]
                    (round eresults ++ followup_rounds fresults eresults)
                    (fun convo => convo = true)).
  - rewrite <- (app_nil_r [StartConversation _ _]).
    eapply emits_bind; [apply emits_call |]. intros a st2 _ _.
    eapply emits_bind_silent; [apply emits_set |]. intros _ st3 _ _.
    eapply emits_bind_silent; [apply emits_get |]. intros response st4 _ _.
    eapply emits_bind_silent; [apply emits_set |]. intros _ st5 _ _.
    now apply emits_ret.
  - intros convo st2 _ ->.
    eapply emits_bind; [apply runEveries_emits, He |]. intros _ st3 _ _.
    rewrite <- (app_nil_r (followup_rounds _ _)).
    eapply emits_bind; [now apply run_followups_emits |].
    intros [pushed final] st4 _ [= -> ->]. apply emits_ret.
    rewrite app_nil_r. now destruct prompt.
Qed.

(** ** Text without directives *)

(** Every expression of [RE] starts with an opening brace, so none of them
    matches in a text without one. *)
Lemma exec_without_brace (r : regex) (s : string) :
  has_brace s = false -> exec (Chr "{" · r) s = None.
Proof.
  induction s as [| c s IH]; intros Hs; [reflexivity |].
  simpl in Hs. apply orb_false_elim in Hs as [Hc Hs].
  cbn [exec rmatch]. rewrite Ascii.eqb_sym, Hc. now rewrite (IH Hs).
Qed.

Lemma findReplace_without_brace (r : regex) (callback : groups -> result token)
      (s : string) :
  has_brace s = false ->
  findReplace (Chr "{" · r) callback [TStr s] = Ok [TStr s].
Proof.
  intros Hs. cbn [findReplace]. destruct (String.length s =? 0)%nat; [reflexivity |].
  destruct (String.length s); cbn [findReplace_scan];
    now rewrite exec_without_brace.
Qed.

Lemma parse_without_brace (s : string) :
  has_brace s = false -> parse s = Ok [TStr s].
Proof.
  intros Hs. unfold parse, RE.block, RE.inline_command, RE.var_write, RE.var_read.
  now rewrite !findReplace_without_brace.
Qed.

Lemma getPrompt_plain (fuel : nat) (s : string) :
  has_brace s = false -> resolves_to (S fuel) s (plain s).
Proof.
  intros Hs st. exists st. split; [| reflexivity].
  cbn [getPrompt]. unfold bind, lift. rewrite parse_without_brace by assumption.
  cbn [eval_all eval_element]. unfold bind, plain.
  destruct (blank s); reflexivity.
Qed.

Lemma blank_collapse (c : ascii) (s : string) : blank (collapse c s) = blank s.
Proof.
  induction s as [| a s IH]; [reflexivity |].
  cbn [collapse]. destruct (Ascii.eqb_spec a c) as [-> | Hne].
  - destruct s as [| b s]; [reflexivity |].
    destruct (Ascii.eqb_spec b c) as [-> | Hne].
    + rewrite IH. cbn [blank]. now destruct (is_space c).
    + cbn [blank] in *. now rewrite IH.
  - cbn [blank]. now rewrite IH.
Qed.

Lemma blank_normalise (s : string) : blank (normalise s) = blank s.
Proof. unfold normalise. now rewrite !blank_collapse. Qed.

Lemma blank_plain (s : string) : blank (body (plain s)) = blank s.
Proof.
  unfold plain. cbn [body]. rewrite blank_normalise.
  destruct (blank s) eqn:Hs; [reflexivity | assumption].
Qed.

Lemma resolve_all_plain (fuel : nat) (queue : list item) :
  Forall (fun i => has_brace (item_body i) = false) queue ->
  resolve_all (S fuel) queue (map (fun i => plain (item_body i)) queue).
Proof.
  induction 1 as [| i queue Hi _ IH]; constructor; [| exact IH].
  now apply getPrompt_plain.
Qed.

(** ** Block tags *)

(** C1. The template [{#foo y}x{/bar}], whose block is opened as [foo] and
    closed as [bar], is evaluated without any error: no expression of
    [RE] matches in it and the whole text becomes the body. *)
Theorem mismatched_block_not_rejected (fuel : nat) (st : state) :
  getPrompt (S fuel) "{#foo y}x{/bar}" st =
    (Ok {| body := "{#foo y}x{/bar}"; attachments := []; followup := [];
           every := [] |}, st).
Proof. reflexivity. Qed.

(** ** Nested blocks *)

(** C4. A block that is neither [followup] nor [every] hands on the
    followups queued inside its body and loses the every-items queued
    there: [{#foo}{#followup}f{/followup}{#every}e{/every}{/foo}] evaluates
    to the followup queue [f] and to an empty every queue. *)
Theorem nested_every_dropped (fuel : nat) (st : state) :
  fst (getPrompt (S (S fuel)) "{#foo}{#followup}f{/followup}{#every}e{/every}{/foo}" st) =
    Ok {| body := LF ++ "foo(" ++ LF ++ ")" ++ LF; attachments := [];
          followup := [ {| item_body := "f" |} ]; every := [] |}.
Proof. reflexivity. Qed.

(** X25. The sibling path: what an [import] command evaluates is handed on
    whole. The file it names is the input as [JSON.parse] decodes it (or as
    it is written where [JSON.parse] throws), beside the template. The
    every-items, the followups and the attachments of the imported
    template follow, in this order, those collected before. *)
Lemma imported_every_kept (getPrompt : string -> M evaluation)
      (value : string) (var : option string) (acc : evaluation) (st st1 : state)
      (path file text : string) (ran : evaluation) :
  lookup (variables st) "templatePath" = JString path ->
  decodes value file ->
  readFileSync (host_world st) (import_path path file) = Some text ->
  getPrompt text st = (Ok ran, st1) ->
  exists acc' st',
    eval_node getPrompt (NCommand "import" (Some value) var) acc st = (Ok acc', st')
    /\ every acc' = (every acc ++ every ran)%list
    /\ followup acc' = (followup acc ++ followup ran)%list
    /\ attachments acc' = (attachments acc ++ attachments ran)%list.
Proof.
  intros Hpath Hd Hread Hran. apply parsed_decodes in Hd. rewrite eval_node_tail.
  cbn [node_result read_variable before_result String.eqb Ascii.eqb Bool.eqb].
  unfold bind at 1. unfold lift. rewrite Hd.
  unfold bind at 1. unfold get. rewrite Hpath.
  unfold bind, read_file. rewrite Hread, Hran.
  eexists _, _. split; [reflexivity |]. now cbn.
Qed.

(** ** The empty prompt *)


(** ** Followups of a prompt without a body *)

(** A prompt with a blank body and the followups [a] and [b]: the first
    followup is evaluated and cannot be sent. *)
Lemma runPrompt_followups_only (fuel : nat) (st : state) :
  let prompt := {| body := LF; attachments := [];
                   followup := [ {| item_body := "a" |}; {| item_body := "b" |} ];
                   every := [] |} in
  fst (runPrompt (S fuel) prompt false st) =
    Throw (TypeError "Cannot read properties of undefined (reading 'sendMessage')")
  /\ requests (snd (runPrompt (S fuel) prompt false st)) =
       (requests st ++ if claude_ready (host_world st) then [] else [ClaudeInit])%list.
Proof.
  cbn zeta.
  set (prompt := {| body := LF; attachments := []; followup := _; every := [] |}).
  assert (Hrun : runPrompt (S fuel) prompt false st =
                 (Throw (TypeError "Cannot read properties of undefined (reading 'sendMessage')"),
                  snd (ensure_ready st))).
  { unfold runPrompt.
    match goal with
    | |- context [if negb ?g then _ else _] => replace (negb g) with false by reflexivity
    end.
    unfold bind at 1. unfold ensure_ready.
    destruct (claude_ready (host_world st)); reflexivity. }
  rewrite Hrun. split; [reflexivity |]. unfold ensure_ready.
  destruct (claude_ready (host_world st)); [| reflexivity].
  symmetry. apply app_nil_r.
Qed.

(** C6. The template [{#followup}a{/followup}{#followup}b{/followup}]
    evaluates to a blank body and to the followup queue [a], [b], in the
    order of the document; run as a prompt, it throws a [TypeError] at the
    first followup, because no conversation was started for the blank
    body, and neither [a] nor [b] is sent. *)
Theorem followups_without_body_throw (fuel : nat) (st : state) :
  let template := "{#followup}a{/followup}{#followup}b{/followup}" in
  fst (getPrompt (S fuel) template st) =
    Ok {| body := LF; attachments := [];
          followup := [ {| item_body := "a" |}; {| item_body := "b" |} ];
          every := [] |}
  /\ fst (run_template (S fuel) template [] st) =
       Throw (TypeError "Cannot read properties of undefined (reading 'sendMessage')")
  /\ requests (snd (run_template (S fuel) template [] st)) =
       (requests st ++ if claude_ready (host_world st) then [] else [ClaudeInit])%list.
Proof.
  cbn zeta. split; [reflexivity |].
  assert (Hev : exists vars,
    getPrompt (S fuel) "{#followup}a{/followup}{#followup}b{/followup}" st =
      (Ok {| body := LF; attachments := [];
             followup := [ {| item_body := "a" |}; {| item_body := "b" |} ];
             every := [] |}, with_variables vars st))
    by (eexists; reflexivity).
  destruct Hev as [vars Hev]. unfold run_template, bind. rewrite Hev.
  exact (runPrompt_followups_only fuel (with_variables vars st)).
Qed.

(** ** Bound variables *)

Lemma truthy_text_Some (x : string) : x <> "" -> truthy_text (Some x) = true.
Proof.
  intros Hx. unfold truthy_text. now destruct (String.eqb_spec x "").
Qed.

Lemma lookup_insert_response (x : string) (vars : gmap string value) :
  lookup (<[x := lookup vars "response"]> vars) "response" = lookup vars "response".
Proof.
  unfold lookup at 1. destruct (decide (x = "response")) as [-> | Hne].
  - now rewrite lookup_insert_eq.
  - rewrite lookup_insert_ne by assumption. reflexivity.
Qed.

(** C5. After a node that binds a variable (other than [__proto__]) the
    variable holds what [response] holds. An inline command that binds a
    variable adds nothing to the body (a [js] command apart, whose code
    can reach the body). A block that binds a variable still adds the body
    of its result, whatever its command: the result is the one that
    [runCommand] returns for the body of the block, as it stands for
    [followup] and [every] and evaluated for the others. For a command
    without a handler this body is the placeholder, which is also the value
    bound. *)
Theorem bound_variable_binding :
  (forall (getPrompt : string -> M evaluation) block x acc st acc' st',
      node_var block = Some x -> x <> "" -> x <> "__proto__" ->
      eval_node getPrompt block acc st = (Ok acc', st') ->
      variables st' !! x = Some (lookup (variables st') "response"))
  /\ (forall (getPrompt : string -> M evaluation) command value x acc st acc' st',
      command <> "import" -> is_js command = false -> x <> "" ->
      eval_node getPrompt (NCommand command value (Some x)) acc st = (Ok acc', st') ->
      body acc' = body acc)
  /\ (forall (getPrompt : string -> M evaluation) command param x text acc st acc' st',
      is_js command = false -> x <> "" ->
      eval_node getPrompt (NBlock command param (Some x) text) acc st = (Ok acc', st') ->
      exists arg st1 result st2,
        (if String.eqb command "followup" || String.eqb command "every"
         then arg = text /\ st1 = st
         else exists ran, getPrompt text st = (Ok ran, st1) /\ arg = body ran)
        /\ runCommand command arg param st1 = (Ok result, st2)
        /\ body acc' = body acc ++ to_text (default (JString "") (r_body result)))
  /\ (forall (getPrompt : string -> M evaluation) command param x text acc st ran st1,
      has_handler command = false -> x <> "" -> x <> "__proto__" ->
      getPrompt text st = (Ok ran, st1) ->
      exists acc' st',
        eval_node getPrompt (NBlock command param (Some x) text) acc st = (Ok acc', st')
        /\ body acc' = body acc ++ command ++ "(" ++ body ran ++ ")"
        /\ variables st' !! x = Some (JString (command ++ "(" ++ body ran ++ ")"))).
Proof.
  split; [| split; [| split]].
  - intros getPrompt block x acc st acc' st' Hvar Hx Hproto. rewrite eval_node_tail.
    destruct (node_result getPrompt block _ _) as [[[result acc1]| | | |] st1];
      try discriminate.
    intros [= <- <-]. cbn [variables with_variables]. unfold after_node.
    rewrite Hvar, truthy_text_Some by assumption. cbn [default].
    rewrite set_prop_insert by assumption.
    rewrite lookup_insert_eq. now rewrite lookup_insert_response.
  - intros getPrompt command value x acc st acc' st' Himport _ Hx. rewrite eval_node_tail.
    cbn [node_result read_variable before_result].
    apply String.eqb_neq in Himport.
    rewrite truthy_text_Some by assumption. unfold bind at 1. unfold lift.
    destruct (parsed_value value) as [v | | | |]; try discriminate.
    rewrite Himport. unfold bind.
    destruct (simpleVarReplace v st) as [[arg| | | |] st1]; try discriminate.
    destruct (runCommand command arg None st1) as [[result| | | |] st2];
      try discriminate.
    intros [= <- <-]. cbn. apply append_empty.
  - intros getPrompt command param x text acc st acc' st' _ Hx. rewrite eval_node_tail.
    cbn [node_result read_variable before_result].
    destruct (String.eqb command "followup" || String.eqb command "every").
    + unfold bind.
      destruct (runCommand command text param st) as [[result| | | |] st2] eqn:Hrun;
        try discriminate.
      intros [= <- <-]. exists text, st, result, st2. now repeat split.
    + unfold bind at 1.
      destruct (getPrompt text st) as [[ran| | | |] st1] eqn:Hran; try discriminate.
      unfold bind at 1. cbn [Object_assign ret]. unfold bind.
      destruct (runCommand command (body ran) param st1) as [[result| | | |] st2] eqn:Hrun;
        try discriminate.
      intros [= <- <-]. exists (body ran), st1, result, st2.
      split; [now exists ran |]. now split.
  - intros getPrompt command param x text acc st ran st1 Hnot Hx Hproto Hran.
    assert (Hne : forall name, In name handler_names -> String.eqb command name = false)
      by (intros name; apply eqb_no_handler; exact Hnot).
    rewrite eval_node_tail. cbn [node_result read_variable before_result].
    rewrite !Hne by (simpl; tauto). cbn [orb]. unfold bind at 1. rewrite Hran.
    unfold bind at 1. cbn [Object_assign ret]. unfold bind.
    rewrite runCommand_no_handler by assumption.
    eexists _, _. split; [reflexivity |]. split; [reflexivity |].
    cbn [variables with_variables]. unfold after_node.
    cbn [node_var r_value r_body r_variables default].
    rewrite truthy_text_Some by assumption.
    rewrite set_prop_insert by assumption. rewrite lookup_insert_eq.
    f_equal. rewrite map_empty_union.
    rewrite (set_prop_insert "result"), (set_prop_insert "response") by discriminate.
    unfold lookup. rewrite lookup_insert_ne by discriminate.
    rewrite lookup_insert_eq. unfold or_else. cbn [truthy].
    reflexivity.
Qed.

(** ** Deferred commands at drain time *)

Lemma runPrompt_after_answer (fuel : nat) (prompt : evaluation) (st : state)
      (a : hostval) (w : world) :
  blank (body prompt) = false ->
  claude_ready (host_world st) = true ->
  respond (host_world st) (StartConversation (body prompt) (attachments prompt))
    = (JHost a, w) ->
  truthy (host_get a "completion") = true ->
  runPrompt fuel prompt false st =
    bind (runEveries fuel true (every prompt)) (fun _ =>
    bind (run_followups fuel fuel true (followup prompt) (every prompt))
         (fun '(pushed, final) =>
            ret (Some {| prompt_after :=
                           {| body := body prompt; attachments := attachments prompt;
                              followup := (followup prompt ++ pushed)%list;
                              every := final |};
                         conversation := true |})))
         (drain_state prompt a w st).
Proof.
  intros Hb Hready Hanswer Hc. unfold runPrompt. rewrite Hb.
  cbn [negb orb truthy_array].
  unfold bind at 1. unfold ensure_ready. rewrite Hready.
  unfold bind at 1. unfold bind at 1. unfold call. rewrite Hanswer, Hc.
  unfold ret at 1. unfold bind at 1. unfold set at 1. unfold bind at 1. unfold get at 1.
  cbn [variables with_variables]. rewrite lookup_set_prop by discriminate.
  reflexivity.
Qed.

Lemma run_followups_nil (fuel n : nat) (convo : bool) (everies : list item) :
  run_followups fuel n convo [] everies = ret ([], everies).
Proof. now destruct n. Qed.

Lemma requests_send (convo : bool) (text : string) (files : list attachment) (st : state) :
  convo = true ->
  requests (snd (send convo text files st)) =
    (requests st ++ [ConvoSendMessage text files])%list.
Proof.
  intros ->. unfold send, bind, call.
  destruct (respond (host_world st) (ConvoSendMessage text files)) as [[| s | h] w];
    try reflexivity.
  now destruct (truthy (host_get h "completion")).
Qed.

(** ** The turns of the queued items *)

Lemma ensure_ready_ok (st : state) :
  ensure_ready st = (Ok tt, snd (ensure_ready st))
  /\ variables (snd (ensure_ready st)) = variables st
  /\ requests (snd (ensure_ready st)) =
       (requests st ++ if claude_ready (host_world st) then [] else [ClaudeInit])%list.
Proof.
  unfold ensure_ready. destruct (claude_ready (host_world st)); cbn [snd variables requests];
    rewrite ?app_nil_r; auto.
Qed.

(** A run with a body that is not blank and an answer with a completion:
    what is left to do once the answer is bound. *)
Lemma runPrompt_after_start (fuel : nat) (prompt : evaluation) (st : state)
      (a : hostval) (w : world) :
  blank (body prompt) = false ->
  respond (host_world (snd (ensure_ready st)))
          (StartConversation (body prompt) (attachments prompt)) = (JHost a, w) ->
  truthy (host_get a "completion") = true ->
  runPrompt fuel prompt false st =
    bind (runEveries fuel true (every prompt)) (fun _ =>
    bind (run_followups fuel fuel true (followup prompt) (every prompt))
         (fun '(pushed, final) =>
            ret (Some {| prompt_after :=
                           {| body := body prompt; attachments := attachments prompt;
                              followup := (followup prompt ++ pushed)%list;
                              every := final |};
                         conversation := true |})))
         (drain_state prompt a w (snd (ensure_ready st))).
Proof.
  intros Hb Hanswer Hc. destruct (ensure_ready_ok st) as (Hready & _ & _).
  unfold runPrompt. rewrite Hb. cbn [negb orb truthy_array].
  unfold bind at 1. rewrite Hready.
  unfold bind at 1. unfold bind at 1. unfold call. rewrite Hanswer, Hc.
  unfold ret at 1. unfold bind at 1. unfold set at 1. unfold bind at 1. unfold get at 1.
  cbn [variables with_variables]. rewrite lookup_set_prop by discriminate.
  reflexivity.
Qed.

(** A run with a body that is not blank ends normally only after an
    answer with a completion. *)
Lemma runPrompt_answered (fuel : nat) (prompt : evaluation) (st : state)
      (out : option outcome) (st' : state) :
  blank (body prompt) = false ->
  runPrompt fuel prompt false st = (Ok out, st') ->
  exists a w,
    respond (host_world (snd (ensure_ready st)))
            (StartConversation (body prompt) (attachments prompt)) = (JHost a, w)
    /\ truthy (host_get a "completion") = true.
Proof.
  intros Hb Hrun. destruct (ensure_ready_ok st) as (Hready & _ & _).
  unfold runPrompt in Hrun. rewrite Hb in Hrun. cbn [negb orb truthy_array] in Hrun.
  unfold bind at 1 in Hrun. rewrite Hready in Hrun.
  unfold bind at 1 in Hrun. unfold bind at 1 in Hrun. unfold call in Hrun.
  destruct (respond (host_world (snd (ensure_ready st))) _) as [[| s | a] w] eqn:Hanswer;
    [cbn in Hrun; discriminate | cbn in Hrun; discriminate |].
  destruct (truthy (host_get a "completion")) eqn:Hc; [eauto | cbn in Hrun; discriminate].
Qed.

Lemma visits_app (fuel : nat) (vs1 vs2 : list visit) (st st' : state) :
  visits fuel st (vs1 ++ vs2) st' <->
  exists mid, visits fuel st vs1 mid /\ visits fuel mid vs2 st'.
Proof.
  revert st. induction vs1 as [| v vs1 IH]; intros st; cbn [app].
  - split.
    + intros Hvs. exists st. split; [constructor | exact Hvs].
    + intros (mid & Hnil & Hvs). now inversion Hnil; subst.
  - split.
    + intros Hvs.
      inversion Hvs as [| ? ? st1 ? ? Hev Hbl Hrest | ? ? st1 st2 ? ? Hev Hbl Hsend Hrest];
        subst; apply IH in Hrest as (mid & H1 & H2); exists mid; split; try assumption.
      * now apply (visits_skip _ _ _ st1).
      * now apply (visits_send _ _ _ st1 st2).
    + intros (mid & H1 & H2).
      inversion H1 as [| ? ? st1 ? ? Hev Hbl Hrest | ? ? st1 st2 ? ? Hev Hbl Hsend Hrest];
        subst.
      * apply (visits_skip _ _ _ st1); [assumption | assumption |]. apply IH. eauto.
      * apply (visits_send _ _ _ st1 st2); [assumption | assumption | assumption |].
        apply IH. eauto.
Qed.

(** A drain of the every queue gives each of its items one turn, in the
    order of the queue. *)
Lemma runEveries_visits (fuel : nat) (queue : list item) (st st' : state) :
  runEveries fuel true queue st = (Ok tt, st') <->
  exists vs, map visited vs = queue /\ visits fuel st vs st'.
Proof.
  revert st. induction queue as [| j queue IH]; intros st; cbn [runEveries].
  - split.
    + intros [= <-]. exists []. split; [reflexivity | constructor].
    + intros (vs & Hmap & Hvs). destruct vs; [| discriminate].
      now inversion Hvs; subst.
  - split.
    + unfold bind at 1.
      destruct (getPrompt fuel (item_body j) st) as [[thing | e | c | |] st1] eqn:Hev;
        try discriminate.
      destruct (blank (body thing)) eqn:Hbl.
      * intros Hrest. apply IH in Hrest as (vs & Hmap & Hvs).
        exists ({| visited := j; yields := thing |} :: vs).
        split; [cbn; now rewrite Hmap |].
        now apply (visits_skip _ _ _ st1).
      * unfold bind at 1.
        destruct (send true (body thing) (attachments thing) st1)
          as [[[] | e | c | |] st2] eqn:Hsend; try discriminate.
        intros Hrest. apply IH in Hrest as (vs & Hmap & Hvs).
        exists ({| visited := j; yields := thing |} :: vs).
        split; [cbn; now rewrite Hmap |].
        now apply (visits_send _ _ _ st1 st2).
    + intros (vs & Hmap & Hvs). destruct vs as [| v vs]; [discriminate |].
      cbn [map] in Hmap. injection Hmap as <- Hmap.
      inversion Hvs as [| ? ? st1 ? ? Hev Hbl Hrest | ? ? st1 st2 ? ? Hev Hbl Hsend Hrest];
        subst; unfold bind at 1; rewrite Hev, Hbl.
      * apply IH. eauto.
      * unfold bind at 1. rewrite Hsend. apply IH. eauto.
Qed.

(** The followup loop gives the turns that [schedule] describes. *)
Lemma run_followups_schedule (fuel n : nat) :
  forall (queue everies : list item) (st : state) (pushed final : list item) (st' : state),
    run_followups fuel n true queue everies st = (Ok (pushed, final), st') ->
    exists vs,
      schedule queue everies vs pushed final
      /\ visits fuel st vs st'
      /\ length queue + length pushed <= n.
Proof.
  induction n as [| n IH]; intros queue everies st pushed final st'.
  - destruct queue as [| i queue]; [| discriminate].
    intros [= <- <- <-]. exists []. repeat split; [constructor | constructor | cbn; lia].
  - destruct queue as [| i queue].
    + intros [= <- <- <-]. exists []. repeat split; [constructor | constructor | cbn; lia].
    + cbn [run_followups]. intros Hrun.
      apply bind_ok in Hrun as (r & st1 & Hev & Hrun).
      apply bind_ok in Hrun as ([pushed' final'] & st4 & Hrun & Hret).
      injection Hret as <- <- <-.
      destruct (blank (body r)) eqn:Hbl.
      * apply IH in Hrun as (vs & Hs & Hvs & Hlen).
        exists ({| visited := i; yields := r |} :: vs). split; [| split].
        -- now apply schedule_skip.
        -- now apply (visits_skip _ _ _ st1).
        -- rewrite length_app in *. cbn [length]. lia.
      * apply bind_ok in Hrun as ([] & st2 & Hsend & Hrun).
        apply bind_ok in Hrun as ([] & st3 & Hdrain & Hrun).
        apply runEveries_visits in Hdrain as (drain & Hmap & Hdrain).
        apply IH in Hrun as (vs & Hs & Hvs & Hlen).
        exists ({| visited := i; yields := r |} :: drain ++ vs). split; [| split].
        -- now apply schedule_round.
        -- apply (visits_send _ _ _ st1 st2); try assumption.
           apply visits_app. eauto.
        -- rewrite length_app in *. cbn [length]. lia.
Qed.

(** Turns that follow a schedule are the run of the followup loop. *)
Lemma schedule_run_followups (fuel : nat) (queue everies : list item) (vs : list visit)
      (pushed final : list item) :
  schedule queue everies vs pushed final ->
  forall (n : nat) (st st' : state),
    length queue + length pushed <= n ->
    visits fuel st vs st' ->
    run_followups fuel n true queue everies st = (Ok (pushed, final), st').
Proof.
  induction 1 as [everies
                 | i queue everies v vs pushed final Hv Hb _ IH
                 | i queue everies v drain vs pushed final Hv Hb Hmap _ IH];
    intros n st st' Hlen Hvs.
  - rewrite run_followups_nil. now inversion Hvs; subst.
  - destruct n as [| n]; [cbn in Hlen; lia |]. subst i.
    inversion Hvs as [| ? ? st1 ? ? Hev Hbl Hrest | ? ? st1 st2 ? ? Hev Hbl Hsend Hrest];
      subst; [| congruence].
    cbn [run_followups]. unfold bind at 1. rewrite Hev. unfold bind at 1. rewrite Hb.
    rewrite (IH n st1 st'); [reflexivity | | assumption].
    rewrite length_app in *. cbn [length] in Hlen. lia.
  - destruct n as [| n]; [cbn in Hlen; lia |]. subst i.
    inversion Hvs as [| ? ? st1 ? ? Hev Hbl Hrest | ? ? st1 st2 ? ? Hev Hbl Hsend Hrest];
      subst; [congruence |].
    apply visits_app in Hrest as (st3 & Hdrain & Hrest).
    cbn [run_followups]. unfold bind at 1. rewrite Hev. unfold bind at 1. rewrite Hb.
    unfold bind at 1. rewrite Hsend. unfold bind at 1.
    rewrite (proj2 (runEveries_visits fuel _ st2 st3)) by eauto.
    rewrite (IH n st3 st'); [reflexivity | | assumption].
    rewrite length_app in *. cbn [length] in Hlen. lia.
Qed.

(** Every followup has a turn in the schedule, those of the queue and
    those queued on the way. *)
Lemma schedule_visits_queue (queue everies : list item) (vs : list visit)
      (pushed final : list item) :
  schedule queue everies vs pushed final ->
  forall i, In i (queue ++ pushed) -> In i (map visited vs).
Proof.
  induction 1 as [everies
                 | i0 queue everies v vs pushed final Hv Hb _ IH
                 | i0 queue everies v drain vs pushed final Hv Hb Hmap _ IH];
    intros i Hin; [contradiction | |].
  - cbn [app] in Hin. destruct Hin as [<- | Hin]; [now left |]. right. apply IH.
    now rewrite <- app_assoc.
  - cbn [app] in Hin. destruct Hin as [<- | Hin]; [now left |]. right.
    rewrite map_app. apply in_or_app. right. apply IH.
    now rewrite <- app_assoc.
Qed.

(** A run of a prompt with a body that ends normally, in turns: the first
    drain, then the schedule of the followup loop. *)
Lemma run_in_turns (fuel : nat) (prompt : evaluation) (st : state)
      (out : option outcome) (st' : state) :
  blank (body prompt) = false ->
  runPrompt fuel prompt false st = (Ok out, st') ->
  exists a w first rest pushed final,
    respond (host_world (snd (ensure_ready st)))
            (StartConversation (body prompt) (attachments prompt)) = (JHost a, w)
    /\ truthy (host_get a "completion") = true
    /\ map visited first = every prompt
    /\ schedule (followup prompt) (every prompt) rest pushed final
    /\ visits fuel (drain_state prompt a w (snd (ensure_ready st))) (first ++ rest) st'
    /\ length (followup prompt) + length pushed <= fuel
    /\ out = Some {| prompt_after :=
                       {| body := body prompt; attachments := attachments prompt;
                          followup := (followup prompt ++ pushed)%list; every := final |};
                     conversation := true |}.
Proof.
  intros Hb Hrun.
  destruct (runPrompt_answered _ _ _ _ _ Hb Hrun) as (a & w & Hanswer & Hc).
  rewrite (runPrompt_after_start _ _ _ a w) in Hrun by assumption.
  apply bind_ok in Hrun as ([] & st1 & Hdrain & Hrun).
  apply bind_ok in Hrun as ([pushed final] & st2 & Hloop & Hret).
  injection Hret as <- <-.
  apply runEveries_visits in Hdrain as (first & Hmap & Hfirst).
  apply run_followups_schedule in Hloop as (rest & Hs & Hrest & Hlen).
  exists a, w, first, rest, pushed, final.
  repeat split; try assumption. apply visits_app. eauto.
Qed.

(** Turns of this form are a run that ends normally. *)
Lemma turns_make_a_run (fuel : nat) (prompt : evaluation) (st : state)
      (a : hostval) (w : world) (first rest : list visit) (pushed final : list item)
      (st' : state) :
  blank (body prompt) = false ->
  respond (host_world (snd (ensure_ready st)))
          (StartConversation (body prompt) (attachments prompt)) = (JHost a, w) ->
  truthy (host_get a "completion") = true ->
  map visited first = every prompt ->
  schedule (followup prompt) (every prompt) rest pushed final ->
  visits fuel (drain_state prompt a w (snd (ensure_ready st))) (first ++ rest) st' ->
  length (followup prompt) + length pushed <= fuel ->
  runPrompt fuel prompt false st =
    (Ok (Some {| prompt_after :=
                   {| body := body prompt; attachments := attachments prompt;
                      followup := (followup prompt ++ pushed)%list; every := final |};
                 conversation := true |}), st').
Proof.
  intros Hb Hanswer Hc Hmap Hs Hvs Hlen.
  rewrite (runPrompt_after_start _ _ _ a w) by assumption.
  apply visits_app in Hvs as (st1 & Hfirst & Hrest).
  unfold bind at 1. rewrite (proj2 (runEveries_visits fuel _ _ st1)) by eauto.
  unfold bind at 1.
  now rewrite (schedule_run_followups _ _ _ _ _ _ Hs fuel st1 st' Hlen Hrest).
Qed.

(** C3. A [followup] or [every] block queues its body unchanged, without
    the recursive evaluation and whatever the scope holds; an inline
    [followup] or [every] command queues its input decoded by
    [JSON.parse] (or as it is written, where [JSON.parse] throws) and
    with the variables it reads substituted from the scope of that moment.
    A queued text is evaluated when its queue is drained, in the state
    that holds the answer to the initial message, and the body it then
    yields is the message sent: so for a queue of one item, and so in
    every run that ends normally, where each every-item of the prompt and
    each followup, queued by the template or by a followup, has its turns,
    at which it is evaluated in the state of that moment and sent unless
    its body is blank. *)
Theorem deferred_commands_queue :
  (forall (getPrompt : string -> M evaluation) command param var text acc st,
      command = "followup" \/ command = "every" ->
      eval_node getPrompt (NBlock command param var text) acc st =
        (Ok (collect (queued command text) acc),
         with_variables
           (after_node (NBlock command param var text) (queued command text) (variables st))
           st))
  /\ (forall (getPrompt : string -> M evaluation) command value var decoded acc st,
      command = "followup" \/ command = "every" ->
      decodes value decoded ->
      let text := substitute (variables st) decoded in
      let result := if truthy_text var then with_body (JString "") (queued command text)
                    else queued command text in
      eval_node getPrompt (NCommand command (Some value) var) acc st =
        (Ok (collect result acc),
         with_variables
           (after_node (NCommand command (Some value) var) result (variables st)) st))
  /\ (forall fuel prompt text st a w r st2,
      blank (body prompt) = false ->
      claude_ready (host_world st) = true ->
      respond (host_world st) (StartConversation (body prompt) (attachments prompt))
        = (JHost a, w) ->
      truthy (host_get a "completion") = true ->
      getPrompt (S fuel) text (drain_state prompt a w st) = (Ok r, st2) ->
      blank (body r) = false ->
      (followup prompt = [ {| item_body := text |} ] -> every prompt = [] ->
       followup r = [] -> every r = [] ->
       requests (snd (runPrompt (S fuel) prompt false st)) =
         (requests st2 ++ [ConvoSendMessage (body r) (attachments r)])%list)
      /\ (every prompt = [ {| item_body := text |} ] -> followup prompt = [] ->
          requests (snd (runPrompt (S fuel) prompt false st)) =
            (requests st2 ++ [ConvoSendMessage (body r) (attachments r)])%list))
  /\ (forall fuel prompt st out st',
      blank (body prompt) = false ->
      runPrompt fuel prompt false st = (Ok out, st') ->
      exists a w vs after,
        respond (host_world (snd (ensure_ready st)))
                (StartConversation (body prompt) (attachments prompt)) = (JHost a, w)
        /\ visits fuel (drain_state prompt a w (snd (ensure_ready st))) vs st'
        /\ out = Some after
        /\ (forall i, In i (every prompt) \/ In i (followup (prompt_after after)) ->
                      In i (map visited vs))).
Proof.
  split; [| split; [| split]].
  - intros. now apply deferred_block.
  - intros. now apply deferred_inline.
  - intros fuel prompt text st a w r st2 Hb Hready Hanswer Hc Hr Hnb. split.
    + intros Hf He Hrf Hre.
      rewrite (runPrompt_after_answer _ _ _ a w) by assumption.
      rewrite Hf, He. cbn [runEveries run_followups item_body].
      unfold bind at 1. cbn [ret]. unfold bind at 1. unfold bind at 1.
      rewrite Hr, Hnb, Hrf, Hre. cbn [app runEveries]. rewrite run_followups_nil.
      unfold bind at 1. unfold bind at 1.
      pose proof (requests_send true (body r) (attachments r) st2 eq_refl) as Hsend.
      destruct (send true (body r) (attachments r) st2) as [[[]| | | |] st3];
        cbn [snd] in Hsend; cbn; assumption.
    + intros He Hf.
      rewrite (runPrompt_after_answer _ _ _ a w) by assumption.
      rewrite Hf, He. cbn [runEveries item_body]. rewrite run_followups_nil.
      unfold bind at 1. unfold bind at 1.
      rewrite Hr, Hnb. unfold bind at 1.
      pose proof (requests_send true (body r) (attachments r) st2 eq_refl) as Hsend.
      destruct (send true (body r) (attachments r) st2) as [[[]| | | |] st3];
        cbn [snd] in Hsend; cbn; assumption.
  - intros fuel prompt st out st' Hb Hrun.
    apply run_in_turns in Hrun
      as (a & w & first & rest & pushed & final & Hanswer & _ & Hmap & Hs & Hvs & _ & ->);
      [| assumption].
    exists a, w, (first ++ rest)%list. eexists.
    split; [assumption |]. split; [assumption |]. split; [reflexivity |].
    cbn [prompt_after followup].
    intros i [Hin | Hin]; rewrite map_app; apply in_or_app.
    + left. now rewrite Hmap.
    + right. exact (schedule_visits_queue _ _ _ _ _ Hs i Hin).
Qed.

(** ** The every queue *)

(** A drain works through its queue in order, whatever the items are:
    the drain of [queue1 ++ queue2] is the drain of [queue1] followed by
    the drain of [queue2]. *)
Lemma runEveries_app (fuel : nat) (convo : bool) (queue1 queue2 : list item) (st : state) :
  runEveries fuel convo (queue1 ++ queue2) st =
    bind (runEveries fuel convo queue1) (fun _ => runEveries fuel convo queue2) st.
Proof.
  revert st. induction queue1 as [| j queue1 IH]; intros st; [reflexivity |].
  cbn [app runEveries]. unfold bind.
  destruct (getPrompt fuel (item_body j) st) as [[thing | e | c | |] st1]; try reflexivity.
  destruct (blank (body thing)); [apply IH |].
  destruct (send convo (body thing) (attachments thing) st1) as [[[] | e | c | |] st2];
    try reflexivity.
  apply IH.
Qed.

Lemma followup_rounds_alone (followups : list evaluation) :
  followup_rounds followups [] = flat_map message followups.
Proof.
  induction followups as [| f followups IH]; [reflexivity |].
  change (followup_rounds (f :: followups) [])
    with ((if blank (body f) then [] else (message f ++ round [])%list)
            ++ followup_rounds followups [])%list.
  rewrite IH. cbn [flat_map]. unfold message, round.
  destruct (blank (body f)); reflexivity.
Qed.

(** With a conversation open and no every-items, the followups that resolve
    are sent in the order of the queue, each after the answer to the one
    before. *)
Lemma followups_sent_in_queue_order (fuel : nat) (prompt : evaluation)
      (results : list evaluation) (st : state) :
  blank (body prompt) = false ->
  every prompt = [] ->
  resolve_all fuel (followup prompt) results ->
  Forall (fun r => followup r = [] /\ every r = []) results ->
  length (followup prompt) <= fuel ->
  emits (runPrompt fuel prompt false) st
        ((if claude_ready (host_world st) then [] else [ClaudeInit])
           ++ StartConversation (body prompt) (attachments prompt)
           :: flat_map message results)
        (fun out => out = Some {| prompt_after := prompt; conversation := true |}).
Proof.
  intros Hb He Hf Hnone Hlen. rewrite <- followup_rounds_alone.
  apply (runPrompt_emits fuel prompt [] results); auto.
  rewrite He. constructor.
Qed.

(** The requests of a run whose queued items evaluate to the same result
    in every state and queue nothing: the start of the conversation, one
    drain of the every queue, then for each followup that is not blank its
    message and one more drain. The run stops early only when the backend
    sends no completion. *)
Lemma resolved_queue_requests (fuel : nat) (prompt : evaluation)
      (eresults fresults : list evaluation) (st : state) :
  blank (body prompt) = false ->
  resolve_all fuel (every prompt) eresults ->
  resolve_all fuel (followup prompt) fresults ->
  Forall (fun r => followup r = [] /\ every r = []) fresults ->
  length (followup prompt) <= fuel ->
  let expected :=
    ((if claude_ready (host_world st) then [] else [ClaudeInit])
       ++ StartConversation (body prompt) (attachments prompt)
       :: round eresults ++ followup_rounds fresults eresults)%list in
  exists sent,
    requests (snd (runPrompt fuel prompt false st)) = (requests st ++ sent)%list
    /\ sent `prefix_of` expected
    /\ (responsive ->
        sent = expected
        /\ fst (runPrompt fuel prompt false st)
           = Ok (Some {| prompt_after := prompt; conversation := true |})).
Proof.
  intros Hb He Hf Hnone Hlen expected.
  destruct (runPrompt_emits fuel prompt eresults fresults st Hb He Hf Hnone Hlen)
    as (sent & Hreq & Hpre & Hok & Hres).
  exists sent. split; [exact Hreq |]. split; [exact Hpre |].
  intros Hresp. specialize (Hres Hresp).
  destruct (fst (runPrompt fuel prompt false st)) as [out| | | |] eqn:Hout;
    try contradiction.
  destruct (Hok out eq_refl) as [-> ->]. now split.
Qed.

(** C7. A run with a body that is not blank ends normally exactly when it
    goes as follows. The conversation is started and its answer carries a
    completion. Then the every queue is drained: each item of the queue
    has a turn, in the order of the queue. Then the followup loop runs
    its schedule: each followup has its turn, in the order of the queue,
    the followups it yields behind those queued before; a followup whose
    body is not blank is followed by another drain of the every queue,
    which holds the items of the prompt followed by those that the
    followups have yielded so far; a followup whose body is blank is
    followed by no drain. At its turn an item is evaluated in the state of
    that moment, and the body it yields is sent unless it is blank. *)
Theorem every_queue_schedule (fuel : nat) (prompt : evaluation) (st : state)
        (out : option outcome) (st' : state) :
  blank (body prompt) = false ->
  runPrompt fuel prompt false st = (Ok out, st') <->
  exists a w first rest pushed final,
    respond (host_world (snd (ensure_ready st)))
            (StartConversation (body prompt) (attachments prompt)) = (JHost a, w)
    /\ truthy (host_get a "completion") = true
    /\ map visited first = every prompt
    /\ schedule (followup prompt) (every prompt) rest pushed final
    /\ visits fuel (drain_state prompt a w (snd (ensure_ready st))) (first ++ rest) st'
    /\ length (followup prompt) + length pushed <= fuel
    /\ out = Some {| prompt_after :=
                       {| body := body prompt; attachments := attachments prompt;
                          followup := (followup prompt ++ pushed)%list; every := final |};
                     conversation := true |}.
Proof.
  intros Hb. split; [now apply run_in_turns |].
  intros (a & w & first & rest & pushed & final
          & Hanswer & Hc & Hmap & Hs & Hvs & Hlen & ->).
  now apply (turns_make_a_run _ _ _ a w first rest).
Qed.

End Properties.

(** * The engine at work on the demo host *)

(** C9 at the command [foo]. *)
Lemma unknown_command_placeholder_witness :
  runCommand (H := Demo.host) "foo" "x" None Demo.start =
    (Ok {| r_body := Some (JString "foo(x)"); r_value := None;
           r_variables := None; r_attachments := None;
           r_followup := None; r_every := None |}, Demo.start).
Proof.
  apply (unknown_command_placeholder (H := Demo.host) "foo" "x" None Demo.start).
  reflexivity.
Defined.

(** C10 at the inline command [{#foo "y"/}]. *)
Lemma response_and_result_overwritten_witness :
  let block := NCommand "foo" (Some (quoted "y")) None in
  let run := eval_node (H := Demo.host) (getPrompt 1) block empty_evaluation Demo.start in
  fst run = Ok {| body := "foo(y)"; attachments := []; followup := []; every := [] |}
  /\ variables (snd run) !! "response" = Some (JString "foo(y)")
  /\ variables (snd run) !! "result" = Some (JString "foo(y)")
  /\ is_Some (variables (snd run) !! "response")
  /\ is_Some (variables (snd run) !! "result").
Proof.
  cbn zeta. split; [reflexivity |]. split; [reflexivity |]. split; [reflexivity |].
  destruct (proj2 (proj2 (response_and_result_overwritten (H := Demo.host)))
              (getPrompt 1) (NCommand "foo" (Some (quoted "y")) None) empty_evaluation
              Demo.start _ _ eq_refl)
    as (result & acc1 & st1 & _ & _ & Hresponse & Hresult).
  split; assumption.
Defined.


Lemma demo_responsive : responsive (H := Demo.host).
Proof. intros w rq. now exists (Demo.Response ("re:" ++ Demo.message_of rq)), w. Qed.

(** C5 at the inline command [{#foo v="y"/}] and at the blocks
    [{#foo v=p}x{/foo}] and [{#claude v=p}q{/claude}]. *)
Lemma bound_variable_binding_witness :
  let inline := NCommand "foo" (Some (quoted "y")) (Some "v") in
  let block := NBlock "foo" (Some "p") (Some "v") "x" in
  let asked := NBlock "claude" (Some "p") (Some "v") "q" in
  (exists acc' st',
      eval_node (H := Demo.host) (getPrompt 1) inline empty_evaluation Demo.start
        = (Ok acc', st')
      /\ variables st' !! "v" = Some (lookup (variables st') "response")
      /\ body acc' = body empty_evaluation)
  /\ (exists acc' st',
      eval_node (H := Demo.host) (getPrompt 1) block empty_evaluation Demo.start
        = (Ok acc', st')
      /\ body acc' = "foo(x)"
      /\ variables st' !! "v" = Some (JString "foo(x)"))
  /\ (exists acc' st',
      eval_node (H := Demo.host) (getPrompt 1) asked empty_evaluation Demo.start
        = (Ok acc', st')
      /\ body acc' = "re:q"
      /\ exists arg st1 result st2,
          (exists ran,
              getPrompt (H := Demo.host) 1 "q" Demo.start = (Ok ran, st1) /\ arg = body ran)
          /\ runCommand (H := Demo.host) "claude" arg (Some "p") st1 = (Ok result, st2)
          /\ body acc' =
               body empty_evaluation ++ to_text (default (JString "") (r_body result))).
Proof.
  cbn zeta. split; [| split].
  - match eval vm_compute in
          (eval_node (H := Demo.host) (getPrompt 1)
                     (NCommand "foo" (Some (quoted "y")) (Some "v")) empty_evaluation Demo.start)
    with
    | (Ok ?acc', ?st') =>
        exists acc', st'; split; [reflexivity |]; split;
        [ apply (proj1 (bound_variable_binding (H := Demo.host)) (getPrompt 1)
                   (NCommand "foo" (Some (quoted "y")) (Some "v")) "v"
                   empty_evaluation Demo.start acc' st');
          [reflexivity | discriminate | discriminate | reflexivity]
        | apply (proj1 (proj2 (bound_variable_binding (H := Demo.host))) (getPrompt 1)
                   "foo" (Some (quoted "y")) "v" empty_evaluation Demo.start acc' st');
          [discriminate | reflexivity | discriminate | reflexivity] ]
    end.
  - exact (proj2 (proj2 (proj2 (bound_variable_binding (H := Demo.host))))
             (getPrompt 1) "foo" (Some "p") "v" "x" empty_evaluation Demo.start
             (plain "x") Demo.start eq_refl
             ltac:(discriminate) ltac:(discriminate) eq_refl).
  - match eval vm_compute in
          (eval_node (H := Demo.host) (getPrompt 1)
                     (NBlock "claude" (Some "p") (Some "v") "q") empty_evaluation Demo.start)
    with
    | (Ok ?acc', ?st') =>
        exists acc', st'; split; [reflexivity |]; split; [reflexivity |];
        exact (proj1 (proj2 (proj2 (bound_variable_binding (H := Demo.host))))
                 (getPrompt 1) "claude" (Some "p") "v" "q" empty_evaluation Demo.start
                 acc' st' eq_refl ltac:(discriminate) eq_refl)
    end.
Defined.

(** C5, counterexample to the claim as stated: the block
    [{#foo v=p}x{/foo}] binds [v] and still adds the text [foo(x)] to the
    body. *)
Lemma bound_block_echoes_body :
  let run := getPrompt (H := Demo.host) 2 "{#foo v=p}x{/foo}" Demo.start in
  fst run = Ok {| body := LF ++ "foo(x)" ++ LF; attachments := [];
                  followup := []; every := [] |}
  /\ variables (snd run) !! "v" = Some (JString "foo(x)")
  /\ (exists acc' st',
         eval_node (H := Demo.host) (getPrompt 1) (NBlock "foo" (Some "p") (Some "v") "x")
                   empty_evaluation Demo.start = (Ok acc', st')
         /\ body acc' <> body empty_evaluation).
Proof.
  cbn zeta. split; [reflexivity |]. split; [reflexivity |].
  match eval vm_compute in
        (eval_node (H := Demo.host) (getPrompt 1)
                   (NBlock "foo" (Some "p") (Some "v") "x") empty_evaluation Demo.start)
  with
  | (Ok ?acc', ?st') => exists acc', st'
  end.
  split; [reflexivity | discriminate].
Qed.

(** C3 at the block [{#followup}a{n}{/followup}], at the inline command
    [{#followup "a{n}"/}] in a scope where [n] is [1], and at the prompt
    [hi] with the queued followup [You said {response}]. *)
Lemma deferred_commands_queue_witness :
  let scope := with_variables (H := Demo.host) {[ "n" := JString "1" ]} Demo.start in
  let prompt := {| body := "hi"; attachments := [];
                   followup := [ {| item_body := "You said {response}" |} ];
                   every := [] |} in
  (exists st',
      eval_node (H := Demo.host) (getPrompt 0) (NBlock "followup" None None "a{n}")
                empty_evaluation scope
        = (Ok {| body := ""; attachments := [];
                 followup := [ {| item_body := "a{n}" |} ]; every := [] |}, st'))
  /\ (exists st',
      eval_node (H := Demo.host) (getPrompt 0) (NCommand "followup" (Some (quoted "a{n}")) None)
                empty_evaluation scope
        = (Ok {| body := ""; attachments := [];
                 followup := [ {| item_body := "a1" |} ]; every := [] |}, st'))
  /\ requests (snd (runPrompt (H := Demo.host) 1 prompt false Demo.start))
     = [ StartConversation "hi" []; ConvoSendMessage ("You said re:hi" ++ LF) [] ]
  /\ (exists out st' a w vs after,
      runPrompt (H := Demo.host) 1 prompt false Demo.start = (Ok out, st')
      /\ respond (host_world (snd (ensure_ready (H := Demo.host) Demo.start)))
                 (StartConversation (body prompt) (attachments prompt)) = (JHost a, w)
      /\ visits 1 (drain_state prompt a w (snd (ensure_ready Demo.start))) vs st'
      /\ out = Some after
      /\ (forall i, In i (every prompt) \/ In i (followup (prompt_after after)) ->
                    In i (map visited vs))).
Proof.
  cbn zeta. split; [| split; [| split]].
  - eexists.
    rewrite (proj1 (deferred_commands_queue (H := Demo.host)) (getPrompt 0) "followup")
      by (left; reflexivity).
    reflexivity.
  - eexists.
    rewrite (proj1 (proj2 (deferred_commands_queue (H := Demo.host))) (getPrompt 0)
               "followup" (quoted "a{n}") None "a{n}")
      by (left; reflexivity).
    reflexivity.
  - set (prompt := {| body := "hi"; attachments := []; followup := _; every := [] |}).
    match eval vm_compute in
          (getPrompt (H := Demo.host) 1 "You said {response}"
             (drain_state (H := Demo.host) prompt (Demo.Response "re:hi")
                          {| Demo.files := [] |} Demo.start))
    with
    | (Ok ?r, ?st2) =>
        exact (proj1 (proj1 (proj2 (proj2 (deferred_commands_queue (H := Demo.host))))
                        0 prompt "You said {response}" Demo.start (Demo.Response "re:hi")
                        {| Demo.files := [] |} r st2
                        eq_refl eq_refl eq_refl eq_refl eq_refl eq_refl)
                     eq_refl eq_refl eq_refl eq_refl)
    end.
  - set (prompt := {| body := "hi"; attachments := []; followup := _; every := [] |}).
    match eval vm_compute in (runPrompt (H := Demo.host) 1 prompt false Demo.start) with
    | (Ok ?out, ?st') =>
        assert (Hrun : runPrompt (H := Demo.host) 1 prompt false Demo.start = (Ok out, st'))
          by (vm_compute; reflexivity);
        destruct (proj2 (proj2 (proj2 (deferred_commands_queue (H := Demo.host))))
                    1 prompt Demo.start out st' eq_refl Hrun)
          as (a & w & vs & after & Hanswer & Hvs & Hout & Hall);
        exists out, st', a, w, vs, after; repeat split; assumption
    end.
Defined.

(** C3, counterexample to the claim as stated: the inline command
    [{#followup "a{n}"/}], reached while [n] is [1], queues [a1], and [a1]
    is what the orchestrator sends although [n] is [2] when the queue is
    drained; the block [{#followup}a{n}{/followup}] in its place sends
    [a2] and a line feed. *)
Lemma inline_followup_resolved_at_definition :
  fst (getPrompt (H := Demo.host) 1 ("hi{n=1}{#followup " ++ quoted "a{n}" ++ "/}{n=2}") Demo.start)
    = Ok {| body := "hi" ++ LF; attachments := [];
            followup := [ {| item_body := "a1" |} ]; every := [] |}
  /\ requests (snd (run_template (H := Demo.host) 1
                      ("hi{n=1}{#followup " ++ quoted "a{n}" ++ "/}{n=2}") [] Demo.start))
     = [ StartConversation ("hi" ++ LF) []; ConvoSendMessage "a1" [] ]
  /\ requests (snd (run_template (H := Demo.host) 1
                      "hi{n=1}{#followup}a{n}{/followup}{n=2}" [] Demo.start))
     = [ StartConversation ("hi" ++ LF) []; ConvoSendMessage ("a2" ++ LF) [] ].
Proof. repeat split; reflexivity. Qed.

(** C7 at the prompt [hi] with the every-item [Again: {response}] and the
    followups [a] and [{x=1}]: the every-item is sent in the first drain
    with the completion of the initial answer, and in the drain after [a]
    with nothing in the place of the read; the followup [{x=1}] is blank
    and is followed by no drain. *)
Lemma every_queue_schedule_witness :
  let prompt := {| body := "hi"; attachments := [];
                   followup := [ {| item_body := "a" |}; {| item_body := "{x=1}" |} ];
                   every := [ {| item_body := "Again: {response}" |} ] |} in
  let run := runPrompt (H := Demo.host) 2 prompt false Demo.start in
  requests (snd run)
  = [ StartConversation "hi" []; ConvoSendMessage ("Again: re:hi" ++ LF) [];
      ConvoSendMessage "a" []; ConvoSendMessage ("Again: " ++ LF) [] ]
  /\ exists out st',
      run = (Ok out, st')
      /\ exists a w first rest pushed final,
        respond (host_world (snd (ensure_ready (H := Demo.host) Demo.start)))
                (StartConversation (body prompt) (attachments prompt)) = (JHost a, w)
        /\ truthy (host_get a "completion") = true
        /\ map visited first = every prompt
        /\ schedule (followup prompt) (every prompt) rest pushed final
        /\ visits 2 (drain_state prompt a w (snd (ensure_ready Demo.start)))
                  (first ++ rest) st'
        /\ length (followup prompt) + length pushed <= 2
        /\ out = Some {| prompt_after :=
                           {| body := body prompt; attachments := attachments prompt;
                              followup := (followup prompt ++ pushed)%list;
                              every := final |};
                         conversation := true |}.
Proof.
  cbn zeta. split; [vm_compute; reflexivity |].
  set (prompt := {| body := "hi"; attachments := []; followup := _; every := _ |}).
  match eval vm_compute in (runPrompt (H := Demo.host) 2 prompt false Demo.start) with
  | (Ok ?out, ?st') =>
      assert (Hrun : runPrompt (H := Demo.host) 2 prompt false Demo.start = (Ok out, st'))
        by (vm_compute; reflexivity);
      exists out, st'; split; [exact Hrun |];
      exact (proj1 (every_queue_schedule (H := Demo.host) 2 prompt Demo.start out st' eq_refl)
                   Hrun)
  end.
Defined.

(** C7, counterexample to the claim as stated: the every-item [{x=1}],
    queued before the first response, resolves to a blank body and is not
    sent after the initial response; the run ends with the start of the
    conversation as its only request. *)
Lemma blank_every_item_not_sent :
  let run := run_template (H := Demo.host) 1 "hi{#every}{x=1}{/every}" [] Demo.start in
  fst run = Ok (Some {| prompt_after :=
                          {| body := "hi" ++ LF; attachments := []; followup := [];
                             every := [ {| item_body := "{x=1}" |} ] |};
                        conversation := true |})
  /\ requests (snd run) = [ StartConversation ("hi" ++ LF) [] ].
Proof. split; reflexivity. Qed.

(** * Further properties *)

(** ** Which match the matcher finds *)

Section Priorities.
Context {A : Type}.

(** A literal text is matched character by character. *)
Lemma rmatch_lit (text : string) (r : regex) (s : string) (g : groups)
      (k : string -> groups -> option A) :
  rmatch (lit text r) (text ++ s) g k = rmatch r s g k.
Proof.
  induction text as [| c text IH]; [reflexivity |].
  change (rmatch (Seq (Chr c) (lit text r)) (String c (text ++ s)) g k = rmatch r s g k).
  cbn [rmatch]. now rewrite Ascii.eqb_refl.
Qed.

Lemma plus_greedy_outside (cs : cset) (k : string -> option A) (s : string) :
  starts_outside cs s = true -> plus_greedy cs k s = None.
Proof.
  destruct s as [| c s]; [reflexivity |]. cbn [starts_outside plus_greedy].
  now destruct (in_cset cs c).
Qed.

(** A greedy repetition takes all of a run that ends where the class
    ends, when the rest of the expression accepts what follows. *)
Lemma plus_greedy_longest (cs : cset) (k : string -> option A)
      (c : ascii) (w s : string) (x : A) :
  all_in cs (String c w) = true ->
  starts_outside cs s = true ->
  k s = Some x ->
  plus_greedy cs k (String c w ++ s) = Some x.
Proof.
  revert c. induction w as [| d w IH]; intros c Hall Hout Hk.
  - change (plus_greedy cs k (String c s) = Some x). cbn [plus_greedy].
    cbn [all_in] in Hall. apply andb_prop in Hall as [-> _].
    now rewrite plus_greedy_outside.
  - change (plus_greedy cs k (String c (String d w ++ s)) = Some x).
    cbn [plus_greedy]. cbn [all_in] in Hall. apply andb_prop in Hall as [Hc Hall].
    rewrite Hc. now rewrite (IH d Hall Hout Hk).
Qed.

Lemma star_greedy_outside (cs : cset) (k : string -> option A) (s : string) :
  starts_outside cs s = true -> star_greedy cs k s = k s.
Proof.
  destruct s as [| c s]; [reflexivity |]. cbn [starts_outside star_greedy].
  now destruct (in_cset cs c).
Qed.

Lemma star_greedy_longest (cs : cset) (k : string -> option A) (w s : string) (x : A) :
  all_in cs w = true ->
  starts_outside cs s = true ->
  k s = Some x ->
  star_greedy cs k (w ++ s) = Some x.
Proof.
  intros Hall Hout Hk. induction w as [| c w IH].
  - change (star_greedy cs k s = Some x). now rewrite star_greedy_outside.
  - change (star_greedy cs k (String c (w ++ s)) = Some x). cbn [star_greedy].
    cbn [all_in] in Hall. apply andb_prop in Hall as [Hc Hall].
    rewrite Hc. now rewrite (IH Hall).
Qed.

(** A greedy repetition fails when the rest of the expression refuses
    every position the repetition can stop at. *)
Lemma plus_greedy_refused (cs : cset) (k : string -> option A) (s : string) :
  (forall w s', s = w ++ s' -> w <> EmptyString -> all_in cs w = true -> k s' = None) ->
  plus_greedy cs k s = None.
Proof.
  induction s as [| c s IH]; intros Hk; [reflexivity |]. cbn [plus_greedy].
  destruct (in_cset cs c) eqn:Hc; [| reflexivity].
  rewrite IH.
  - apply (Hk (String c EmptyString) s); [reflexivity | discriminate |].
    cbn [all_in]. now rewrite Hc.
  - intros w s' -> Hw Hall. apply (Hk (String c w) s'); [reflexivity | discriminate |].
    cbn [all_in]. now rewrite Hc, Hall.
Qed.

End Priorities.

(** Where a run of a class can be cut: inside the run. *)
Lemma cut_in_run (cs : cset) (w s' n t : string) :
  all_in cs w = true ->
  starts_outside cs t = true ->
  w ++ s' = n ++ t ->
  exists n2, n = w ++ n2 /\ s' = n2 ++ t.
Proof.
  revert n. induction w as [| a w IH]; intros n Hw Ht Heq.
  - now exists n.
  - cbn [all_in] in Hw. apply andb_prop in Hw as [Ha Hw].
    destruct n as [| b n].
    + change (String a (w ++ s') = t) in Heq. subst t.
      cbn [starts_outside] in Ht. rewrite Ha in Ht. discriminate.
    + change (String a (w ++ s') = String b (n ++ t)) in Heq.
      injection Heq as -> Heq. destruct (IH n Hw Ht Heq) as (n2 & -> & ->).
      now exists n2.
Qed.

(** What a match of a literal text has consumed. *)
Lemma matches_lit (text : string) (r : regex) (s : string) (g : groups)
      (s' : string) (g' : groups) :
  matches (lit text r) s g s' g' ->
  exists s1, s = text ++ s1 /\ matches r s1 g s' g'.
Proof.
  revert s g. induction text as [| c text IH]; intros s g Hm.
  - now exists s.
  - cbn [lit] in Hm. inversion Hm as [| | | | | ? ? ? ? s1 g1 ? ? Hc Hrest | | |]; subst.
    inversion Hc; subst. destruct (IH _ _ Hrest) as (s2 & -> & Hr).
    now exists s2.
Qed.

(** ** The file name of an exported conversation *)

Lemma dash_runs_units (s : units) : forallb name_unit (dash_runs s) = true.
Proof.
  induction s as [| u s IH]; [reflexivity |]. cbn [dash_runs].
  destruct (alnum_unit u) eqn:Hu.
  - cbn [forallb]. unfold name_unit at 1. now rewrite Hu, IH.
  - destruct s as [| v s]; [reflexivity |].
    destruct (alnum_unit v); [| exact IH].
    cbn [forallb]. now rewrite IH.
Qed.

Lemma alnum_no_dash (u : N) : alnum_unit u = true -> (u =? dash)%N = false.
Proof.
  destruct (N.eqb_spec u dash) as [-> |]; [discriminate | reflexivity].
Qed.

Lemma no_double_cons (d u v : N) (s : units) :
  no_double d (u :: v :: s) = negb ((u =? d)%N && (v =? d)%N) && no_double d (v :: s).
Proof. reflexivity. Qed.

Lemma dash_runs_no_double (s : units) : no_double dash (dash_runs s) = true.
Proof.
  induction s as [| u s IH]; [reflexivity |]. cbn [dash_runs].
  destruct (alnum_unit u) eqn:Hu.
  - destruct (dash_runs s) as [| v t]; [reflexivity |].
    rewrite no_double_cons, IH, (alnum_no_dash u Hu). reflexivity.
  - destruct s as [| v s]; [reflexivity |].
    destruct (alnum_unit v) eqn:Hv; [| exact IH].
    assert (Hhead : dash_runs (v :: s) = v :: dash_runs s)
      by (cbn [dash_runs]; now rewrite Hv).
    rewrite Hhead in *.
    rewrite no_double_cons, IH, (alnum_no_dash v Hv). now rewrite andb_false_r.
Qed.

Lemma length_take_str (n : nat) (s : string) : String.length (take_str n s) <= n.
Proof.
  revert s. induction n as [| n IH]; intros [| c s]; cbn [take_str String.length]; try lia.
  specialize (IH s). lia.
Qed.

Lemma take_str_all (n : nat) (s : string) : String.length s <= n -> take_str n s = s.
Proof.
  revert s. induction n as [| n IH]; intros [| c s]; cbn [take_str String.length];
    intros Hn; try reflexivity; [lia |].
  rewrite IH; [reflexivity | lia].
Qed.

Lemma no_double_tail (d u : N) (s : units) :
  no_double d (u :: s) = true -> no_double d s = true.
Proof.
  cbn [no_double]. destruct s as [| v s]; [reflexivity |].
  intros Hs. now apply andb_prop in Hs as [_ Hs].
Qed.

(** A text of the code units of a formatted name, without two dashes in a
    row, has no run to replace. *)
Lemma dash_runs_fixed (s : units) :
  forallb name_unit s = true -> no_double dash s = true -> dash_runs s = s.
Proof.
  induction s as [| u s IH]; [reflexivity |]. intros Hall Hrun.
  pose proof (no_double_tail _ _ _ Hrun) as Htail.
  cbn [forallb] in Hall. apply andb_prop in Hall as [Hu Hall].
  specialize (IH Hall Htail). cbn [dash_runs].
  destruct (alnum_unit u) eqn:Hal; [now rewrite IH |].
  unfold name_unit in Hu. rewrite Hal in Hu. cbn [orb] in Hu.
  apply N.eqb_eq in Hu as ->.
  destruct s as [| v s]; [reflexivity |].
  cbn [no_double] in Hrun. apply andb_prop in Hrun as [Hv _].
  rewrite N.eqb_refl in Hv. cbn [andb] in Hv.
  cbn [forallb] in Hall. apply andb_prop in Hall as [Hname _].
  unfold name_unit in Hname.
  destruct (alnum_unit v); [now rewrite IH |].
  cbn [orb] in Hname. rewrite Hname in Hv. discriminate.
Qed.

(** On the code units of a formatted name, [lower_ascii] changes nothing. *)
Lemma lower_ascii_fixed (s : units) : forallb name_unit s = true -> lower_ascii s = s.
Proof.
  unfold lower_ascii. induction s as [| u s IH]; [reflexivity |].
  cbn [forallb map]. intros Hs. apply andb_prop in Hs as [Hu Hs].
  rewrite (IH Hs). f_equal.
  destruct ((65 <=? u) && (u <=? 90))%N eqn:Hcap; [| reflexivity].
  unfold name_unit, alnum_unit, dash in Hu.
  rewrite !orb_true_iff, !andb_true_iff, !N.leb_le, N.eqb_eq in Hu.
  rewrite andb_true_iff, !N.leb_le in Hcap. lia.
Qed.

(** X1. Whatever the name of the conversation, and whatever the runtime
    makes of it in lower case, every code unit of the file name made from
    it is a lower-case letter, a digit or a dash, and no two dashes stand
    in a row. *)
Theorem formatName_file_name_safe (toLowerCase : units -> units) (name : units) :
  forallb name_unit (formatName toLowerCase name) = true
  /\ no_double dash (formatName toLowerCase name) = true.
Proof.
  unfold formatName. split; [apply dash_runs_units | apply dash_runs_no_double].
Qed.

(** X2. A formatted name of at most 25 code units is formatted into
    itself, given that the runtime leaves a text of lower-case letters,
    digits and dashes alone when it makes it lower case. *)
Theorem formatName_idempotent (toLowerCase : units -> units) (name : units) :
  (forall s, forallb name_unit s = true -> toLowerCase s = s) ->
  length (formatName toLowerCase name) <= 25 ->
  formatName toLowerCase (formatName toLowerCase name) = formatName toLowerCase name.
Proof.
  intros Hlower Hlen. unfold formatName at 1.
  rewrite firstn_all2 by exact Hlen.
  assert (Hunits : forallb name_unit (formatName toLowerCase name) = true)
    by apply dash_runs_units.
  rewrite (Hlower _ Hunits).
  apply dash_runs_fixed; [exact Hunits | apply dash_runs_no_double].
Qed.

(** ** The session key *)

Lemma matches_cookie_pair (name s : string) (g : groups) (s' : string) (g' : groups) :
  matches (cookie_pair name) s g s' g' ->
  exists v, s = name ++ String "=" (v ++ s')
            /\ all_in (Not ";") v = true
            /\ g' = ("1", v) :: g.
Proof.
  unfold cookie_pair. intros Hm.
  apply matches_lit in Hm as (s1 & -> & Hm).
  invert_match. eexists. split; [reflexivity |]. split; [eassumption |].
  now rewrite consumed_append.
Qed.

Lemma no_cookie_in_short_text (r : regex) (name cookie : string) :
  String.length cookie <= String.length name ->
  (forall s g s' g', matches r s g s' g' ->
     exists s1, String.length s1 <= String.length s /\ matches (cookie_pair name) s1 g s' g') ->
  forall pre a post, exec r cookie <> Some (pre, a, post).
Proof.
  intros Hlen Hr pre a post He.
  apply exec_matches in He as (s0 & Hm & Hle).
  apply Hr in Hm as (s1 & Hle1 & Hm).
  apply matches_cookie_pair in Hm as (v & -> & _ & _).
  rewrite length_append in Hle1. cbn [String.length] in Hle1. lia.
Qed.

(** A text holds no cookie whose name is as long as the text or longer:
    a match needs the name and the character [=]. *)
Lemma getCookie_short_text (name cookie : string) :
  String.length cookie <= String.length name -> getCookie name cookie = None.
Proof.
  intros Hlen. unfold getCookie.
  destruct (rmatch (cookie_pair name) cookie [] (fun _ g => Some g)) as [g |] eqn:Hm.
  { apply rmatch_sound in Hm as (s' & g' & Hm & _).
    apply matches_cookie_pair in Hm as (v & He & _ & _).
    apply (f_equal String.length) in He. rewrite length_append in He.
    cbn [String.length] in He. lia. }
  destruct (exec _ cookie) as [[[pre a] post] |] eqn:He; [| reflexivity].
  exfalso. revert He.
  apply (no_cookie_in_short_text _ name cookie); [assumption |].
  intros s g s' g' Hs. invert_match.
  eexists. split; [| eassumption].
  cbn [String.length]. rewrite length_append. lia.
Qed.

(** X3. A text never holds a cookie whose name is the whole text: the
    lookup [getCookie(key, key)], the one [getKey] falls back on, finds
    nothing for any [key]. *)
Theorem getCookie_of_itself (key : string) : getCookie key key = None.
Proof. apply getCookie_short_text. lia. Qed.

(** X4. A cookie text that starts with [name=value], with the value
    running to the end of the text or to the first semicolon, yields the
    value. *)
Theorem getCookie_first_pair (name value rest : string) :
  all_in (Not ";") value = true ->
  starts_outside (Not ";") rest = true ->
  getCookie name (name ++ String "=" (value ++ rest)) = Some value.
Proof.
  intros Hvalue Hrest. unfold getCookie, cookie_pair.
  rewrite rmatch_lit. cbn [rmatch]. rewrite Ascii.eqb_refl.
  rewrite (star_greedy_longest _ _ value rest (("1", consumed (value ++ rest) rest) :: []))
    by auto.
  cbn [group_text group String.eqb Ascii.eqb Bool.eqb default].
  now rewrite consumed_append.
Qed.

Lemma group_text_first (name v : string) (g : groups) :
  group_text ((name, v) :: g) name = v.
Proof. unfold group_text. cbn [group]. now rewrite String.eqb_refl. Qed.

(** X5. The value that [getCookie] returns holds no semicolon. *)
Theorem getCookie_value_has_no_semicolon (name cookie value : string) :
  getCookie name cookie = Some value -> all_in (Not ";") value = true.
Proof.
  unfold getCookie.
  destruct (rmatch (cookie_pair name) cookie [] (fun _ g => Some g)) as [g |] eqn:Hm.
  - apply rmatch_sound in Hm as (s' & g' & Hm & [= <-]).
    apply matches_cookie_pair in Hm as (v & _ & Hv & ->).
    rewrite group_text_first. now intros [= <-].
  - destruct (exec _ cookie) as [[[pre a] post] |] eqn:He; [| discriminate].
    apply exec_matches in He as (s0 & Hs & _). invert_match.
    match goal with
    | Hp : matches (cookie_pair name) _ _ _ _ |- _ =>
        apply matches_cookie_pair in Hp as (v & _ & Hv & ->)
    end.
    rewrite group_text_first. now intros [= <-].
Qed.

Lemma trimEnd_prefix (p s : string) :
  all_chars (fun c => negb (is_space c)) p = true ->
  String.prefix p s = true -> String.prefix p (trimEnd s) = true.
Proof.
  revert s. induction p as [| c p IH]; intros s Hp Hs.
  - now destruct (trimEnd s).
  - destruct s as [| c' s]; [discriminate |]. cbn [String.prefix] in Hs.
    destruct (ascii_dec c c') as [<- |]; [| discriminate].
    cbn [all_chars] in Hp. apply andb_prop in Hp as [Hc Hp].
    specialize (IH s Hp Hs). cbn [trimEnd].
    destruct (trimEnd s) as [| d t] eqn:Ht.
    + destruct p; [| discriminate]. apply negb_true_iff in Hc. rewrite Hc.
      cbn [String.prefix]. now destruct (ascii_dec c c).
    + cbn [String.prefix]. now destruct (ascii_dec c c).
Qed.

Lemma trim_session_key (key : string) :
  String.prefix START_SEQ key = true -> String.prefix START_SEQ (trim key) = true.
Proof.
  intros Hk. unfold trim.
  assert (Hs : trimStart key = key).
  { rewrite (prefix_append _ _ Hk). reflexivity. }
  rewrite Hs. now apply trimEnd_prefix.
Qed.

Lemma no_session_key_None : no_session_key None = true.
Proof. reflexivity. Qed.

(** The key that [getKey] settles on before the cookie lookup: the trimmed
    text of the key file when it can be read, else [CLAUDE_KEY]. *)
Lemma getKey_candidate (flag : string) (env file : option string) :
  String.prefix START_SEQ flag = false ->
  getKey flag env file =
    let key := match file with
               | Some text => Some (trim text)
               | None => if truthy_text env then env else None
               end in
    if no_session_key key then Exit 1 else Ok (trim (default "" key)).
Proof.
  intros Hflag. unfold getKey. rewrite Hflag. cbn zeta.
  set (key := match file with Some text => Some (trim text) | None => _ end).
  destruct (no_session_key key) eqn:Hno; [| now rewrite Hno].
  destruct (truthy_text key); [| reflexivity]. cbn [negb].
  now rewrite getCookie_short_text by lia.
Qed.

(** X6. Every key that [getKey] returns starts with [sk-ant-sid01]. *)
Theorem getKey_returns_session_key (flag : string) (env file : option string) (key : string) :
  getKey flag env file = Ok key -> String.prefix START_SEQ key = true.
Proof.
  destruct (String.prefix START_SEQ flag) eqn:Hflag.
  - unfold getKey. rewrite Hflag. now intros [= <-].
  - rewrite getKey_candidate by assumption. cbn zeta.
    set (k := match file with Some text => Some (trim text) | None => _ end).
    destruct (no_session_key k) eqn:Hno; [discriminate |]. intros [= <-].
    unfold no_session_key in Hno. apply orb_false_elim in Hno as [_ Hp].
    apply negb_false_iff in Hp. now apply trim_session_key.
Qed.

(** X7. When the flag holds no session key and the key file can be read,
    the file decides alone: a file without a session key ends the process
    with status 1 whatever [CLAUDE_KEY] holds, the cookie lookup never
    rescues it; a file with a session key yields that key. *)
Theorem getKey_file_decides (flag : string) (env : option string) (text : string) :
  String.prefix START_SEQ flag = false ->
  getKey flag env (Some text) =
    if String.prefix START_SEQ (trim text) then Ok (trim (trim text)) else Exit 1.
Proof.
  intros Hflag. rewrite getKey_candidate by assumption. cbn zeta.
  unfold no_session_key, truthy_text. cbn [from_option id].
  destruct (String.prefix START_SEQ (trim text)) eqn:Hp.
  - destruct (String.eqb_spec (trim text) "") as [He |]; [| reflexivity].
    rewrite He in Hp. discriminate.
  - now rewrite orb_true_r.
Qed.

(** ** The final normalisation *)

Lemma no_run_cons (c a b : ascii) (s : string) :
  no_run c (String a (String b s)) =
    negb (Ascii.eqb a c && Ascii.eqb b c) && no_run c (String b s).
Proof. reflexivity. Qed.

Lemma no_run_tail (c a : ascii) (s : string) :
  no_run c (String a s) = true -> no_run c s = true.
Proof.
  cbn [no_run]. destruct s as [| b s]; [reflexivity |].
  intros Hs. now apply andb_prop in Hs as [_ Hs].
Qed.

Lemma collapse_cons (c a : ascii) (s : string) :
  collapse c (String a s) =
    if Ascii.eqb a c then
      match s with
      | String b _ => if Ascii.eqb b c then collapse c s else String a (collapse c s)
      | EmptyString => String a EmptyString
      end
    else String a (collapse c s).
Proof. reflexivity. Qed.

Lemma collapse_head (c a : ascii) (s : string) :
  exists t, collapse c (String a s) = String a t.
Proof.
  revert a. induction s as [| b s IH]; intros a; rewrite collapse_cons.
  - destruct (Ascii.eqb a c); eauto.
  - destruct (Ascii.eqb_spec a c) as [-> | Hne]; [| eauto].
    destruct (Ascii.eqb_spec b c) as [-> |]; [apply IH | eauto].
Qed.

Lemma collapse_no_run (c : ascii) (s : string) : no_run c (collapse c s) = true.
Proof.
  induction s as [| a s IH]; [reflexivity |]. rewrite collapse_cons.
  destruct (Ascii.eqb_spec a c) as [-> | Hne].
  - destruct s as [| b s]; [reflexivity |].
    destruct (Ascii.eqb_spec b c) as [-> | Hb]; [exact IH |].
    destruct (collapse_head c b s) as [t Ht]. rewrite Ht in *.
    rewrite no_run_cons, IH. apply Ascii.eqb_neq in Hb. rewrite Hb.
    now rewrite andb_false_r.
  - destruct (collapse c s) as [| b t]; [reflexivity |].
    rewrite no_run_cons, IH. apply Ascii.eqb_neq in Hne. now rewrite Hne.
Qed.

Lemma collapse_keeps_no_run (d c : ascii) (s : string) :
  no_run d s = true -> no_run d (collapse c s) = true.
Proof.
  induction s as [| a s IH]; [reflexivity |]. intros Hs.
  pose proof (no_run_tail _ _ _ Hs) as Ht. specialize (IH Ht).
  rewrite collapse_cons.
  destruct s as [| b s]; [now destruct (Ascii.eqb a c) |].
  rewrite no_run_cons in Hs. apply andb_prop in Hs as [Hab _].
  destruct (collapse_head c b s) as [t Hc].
  destruct (Ascii.eqb a c).
  - destruct (Ascii.eqb b c); [exact IH |].
    rewrite Hc in *. now rewrite no_run_cons, Hab, IH.
  - rewrite Hc in *. now rewrite no_run_cons, Hab, IH.
Qed.

Section Evaluation.
Context {H : Host}.

(** X8. The body of every prompt that [getPrompt] returns is normalised:
    it holds no two line feeds in a row and no two spaces in a row. *)
Theorem getPrompt_body_normalised (fuel : nat) (template : string)
        (st : state) (r : evaluation) (st' : state) :
  getPrompt fuel template st = (Ok r, st') ->
  no_run "010" (body r) = true /\ no_run " " (body r) = true.
Proof.
  destruct fuel as [| fuel]; [discriminate |]. cbn [getPrompt]. intros Hrun.
  apply bind_ok in Hrun as (out & st1 & _ & Hrun).
  apply bind_ok in Hrun as (acc & st2 & _ & Hrun).
  injection Hrun as <- _. cbn [body]. unfold normalise. split.
  - apply collapse_keeps_no_run, collapse_no_run.
  - apply collapse_no_run.
Qed.

(** ** The accumulators of an evaluation *)

Lemma grows_refl (acc : evaluation) : grows acc acc.
Proof.
  split; [| now repeat split]. exists EmptyString. now rewrite append_empty.
Qed.

Lemma grows_trans (acc1 acc2 acc3 : evaluation) :
  grows acc1 acc2 -> grows acc2 acc3 -> grows acc1 acc3.
Proof.
  intros ([t1 Hb1] & Ha1 & Hf1 & He1) ([t2 Hb2] & Ha2 & Hf2 & He2).
  split; [| repeat split; etrans; eassumption].
  exists (t1 ++ t2). now rewrite Hb2, Hb1, append_assoc.
Qed.

Lemma grows_append_body (text : string) (acc : evaluation) : grows acc (append_body text acc).
Proof. split; [now exists text | now repeat split]. Qed.

Lemma grows_collect (result : command_result) (acc : evaluation) :
  grows acc (collect result acc).
Proof.
  split; [eexists; reflexivity |]. cbn [collect attachments followup every].
  repeat split; apply prefix_app_r; reflexivity.
Qed.

Lemma node_result_grows (rec : string -> M evaluation) (block : node)
      (acc : evaluation) (st : state) (result : command_result)
      (acc1 : evaluation) (st1 : state) :
  node_result rec block acc st = (Ok (result, acc1), st1) -> grows acc acc1.
Proof.
  destruct block as [command param var text | command value var | |];
    cbn [node_result].
  - destruct (String.eqb command "followup" || String.eqb command "every").
    + intros Hrun. apply bind_ok in Hrun as (r & st2 & _ & Hrun).
      injection Hrun as _ <- _. apply grows_refl.
    + intros Hrun. apply bind_ok in Hrun as (ran & st2 & _ & Hrun).
      apply bind_ok in Hrun as (u & st3 & _ & Hrun).
      apply bind_ok in Hrun as (r & st4 & _ & Hrun).
      injection Hrun as _ <- _.
      split; [exists EmptyString; cbn [body]; now rewrite append_empty |].
      cbn [attachments followup every].
      repeat split; try reflexivity; apply prefix_app_r; reflexivity.
  - intros Hrun. apply bind_ok in Hrun as (v & st0 & _ & Hrun).
    destruct (String.eqb command "import").
    + apply bind_ok in Hrun as (templatePath & st2 & _ & Hrun).
      destruct templatePath as [| path | h]; [now destruct v | | now destruct v].
      destruct v as [v |]; [| discriminate].
      apply bind_ok in Hrun as (text & st3 & _ & Hrun).
      apply bind_ok in Hrun as (ran & st4 & _ & Hrun).
      injection Hrun as _ <- _. apply grows_refl.
    + apply bind_ok in Hrun as (arg & st2 & _ & Hrun).
      apply bind_ok in Hrun as (r & st3 & _ & Hrun).
      injection Hrun as _ <- _. apply grows_refl.
  - intros [= _ <- _]. apply grows_refl.
  - intros [= _ <- _]. apply grows_refl.
Qed.

Lemma eval_element_grows (rec : string -> M evaluation) (block : token)
      (acc : evaluation) (st : state) (acc' : evaluation) (st' : state) :
  eval_element rec block acc st = (Ok acc', st') -> grows acc acc'.
Proof.
  destruct block as [s | n]; cbn [eval_element].
  - destruct (blank s); intros [= <- _]; apply grows_append_body.
  - rewrite eval_node_tail.
    destruct (node_result rec n _ _) as [[[result acc1] | | | |] st1] eqn:Hres;
      try discriminate.
    intros [= <- _]. apply node_result_grows in Hres.
    eapply grows_trans; [| apply grows_collect].
    eapply grows_trans; [| exact Hres].
    destruct n; try apply grows_refl. apply grows_append_body.
Qed.

(** X10. The accumulators of [getPrompt] only grow at their ends while the
    elements of a template are processed: as long as none of the elements
    is a [js] command, whose code can reach the accumulators, the body,
    the attachments, the followup queue and the every queue after the
    elements start with what they held before. *)
Theorem eval_all_appends_only (rec : string -> M evaluation) (out : list token)
        (acc : evaluation) (st : state) (acc' : evaluation) (st' : state) :
  forallb runs_no_code out = true ->
  eval_all rec out acc st = (Ok acc', st') ->
  (exists text, body acc' = body acc ++ text)
  /\ attachments acc `prefix_of` attachments acc'
  /\ followup acc `prefix_of` followup acc'
  /\ every acc `prefix_of` every acc'.
Proof.
  intros _.
  change (eval_all rec out acc st = (Ok acc', st') -> grows acc acc').
  revert acc st. induction out as [| block out IH]; intros acc st; cbn [eval_all].
  - intros [= <- _]. apply grows_refl.
  - intros Hrun. apply bind_ok in Hrun as (acc1 & st1 & Hfirst & Hrest).
    eapply grows_trans; [exact (eval_element_grows _ _ _ _ _ _ Hfirst) |].
    exact (IH _ _ Hrest).
Qed.

(** ** Runs that end early *)

(** X11. An answer without a completion to the initial message ends the
    process with status 1: the scope is as it was, the start of the
    conversation is the last request, and no queued item is sent. *)
Theorem no_completion_ends_the_run (fuel : nat) (prompt : evaluation) (st : state)
        (a : hostval) (w : world) :
  blank (body prompt) = false ->
  respond (host_world (snd (ensure_ready st)))
          (StartConversation (body prompt) (attachments prompt)) = (JHost a, w) ->
  truthy (host_get a "completion") = false ->
  fst (runPrompt fuel prompt false st) = Exit 1
  /\ variables (snd (runPrompt fuel prompt false st)) = variables st
  /\ requests (snd (runPrompt fuel prompt false st)) =
       (requests st ++ (if claude_ready (host_world st) then [] else [ClaudeInit])
          ++ [StartConversation (body prompt) (attachments prompt)])%list.
Proof.
  intros Hb Hanswer Hc. destruct (ensure_ready_ok st) as (Hready & Hvars & Hreq).
  assert (Hrun : runPrompt fuel prompt false st =
                 (Exit 1,
                  {| variables := variables (snd (ensure_ready st));
                     host_world := w;
                     requests := requests (snd (ensure_ready st))
                                   ++ [StartConversation (body prompt) (attachments prompt)] |})).
  { unfold runPrompt. rewrite Hb. cbn [negb orb truthy_array].
    unfold bind at 1. rewrite Hready. unfold bind at 1. unfold bind at 1.
    unfold call. now rewrite Hanswer, Hc. }
  rewrite Hrun. cbn [fst snd variables requests].
  rewrite Hvars, Hreq, app_assoc. auto.
Qed.

(** X12. A prompt with a blank body whose first every-item resolves to a
    body that is not blank cannot be run: no conversation was started for
    the blank body, the drain of the every queue throws a [TypeError], and
    nothing is sent. *)
Theorem every_item_without_body_throws (fuel : nat) (prompt : evaluation)
        (j : item) (rest : list item) (r : evaluation) (st : state) :
  blank (body prompt) = true ->
  every prompt = j :: rest ->
  resolves_to fuel (item_body j) r ->
  blank (body r) = false ->
  fst (runPrompt fuel prompt false st) =
    Throw (TypeError "Cannot read properties of undefined (reading 'sendMessage')")
  /\ requests (snd (runPrompt fuel prompt false st)) =
       (requests st ++ if claude_ready (host_world st) then [] else [ClaudeInit])%list.
Proof.
  intros Hb He Hr Hnb. destruct (ensure_ready_ok st) as (Hready & _ & Hreq).
  destruct (Hr (snd (ensure_ready st))) as (st2 & Hev & Hsame).
  assert (Hrun : runPrompt fuel prompt false st =
                 (Throw (TypeError "Cannot read properties of undefined (reading 'sendMessage')"),
                  st2)).
  { unfold runPrompt. rewrite Hb, He. cbn [negb orb truthy_array].
    unfold bind at 1. rewrite Hready. unfold bind at 1. cbn [ret].
    unfold bind at 1. cbn [runEveries]. unfold bind at 1.
    rewrite Hev, Hnb. reflexivity. }
  rewrite Hrun. cbn [fst snd]. now rewrite Hsame, Hreq.
Qed.

(** X13. [runPrompt] never takes its bare [return]: the two queues of a
    prompt are arrays, and arrays are truthy, so a run that ends normally
    hands back the prompt object that [template] reads. *)
Theorem runPrompt_returns_the_prompt (fuel : nat) (prompt : evaluation)
        (dontRespond : bool) (st : state) (out : option outcome) (st' : state) :
  runPrompt fuel prompt dontRespond st = (Ok out, st') ->
  exists pushed final,
    out = Some {| prompt_after :=
                    {| body := body prompt; attachments := attachments prompt;
                       followup := (followup prompt ++ pushed)%list; every := final |};
                  conversation := dontRespond || negb (blank (body prompt)) |}.
Proof.
  unfold runPrompt. cbn [truthy_array]. rewrite orb_true_r. cbn [negb].
  intros Hrun. apply bind_ok in Hrun as (u & st1 & _ & Hrun).
  apply bind_ok in Hrun as (convo & st2 & _ & Hrun).
  apply bind_ok in Hrun as (u' & st3 & _ & Hrun).
  apply bind_ok in Hrun as ([pushed final] & st4 & _ & Hrun).
  injection Hrun as <- _. eauto.
Qed.

(** ** An inline command that binds a variable *)

(** X14. An inline [claude] command that binds a variable binds the empty
    string: the command sends its input (as [JSON.parse] decodes it, with
    the variables it reads substituted), the answer is stored in
    [claude_response] alone, and neither the body nor the bound variable
    receives the completion. *)
Theorem inline_claude_binds_nothing (rec : string -> M evaluation)
        (value decoded x : string) (acc : evaluation) (st : state)
        (a : hostval) (w : world) :
  x <> "" -> x <> "__proto__" -> x <> "claude_response" ->
  decodes value decoded ->
  let arg := substitute (variables st) decoded in
  respond (host_world st) (ClaudeSendMessage arg) = (JHost a, w) ->
  truthy (host_get a "completion") = true ->
  exists acc' st',
    eval_node rec (NCommand "claude" (Some value) (Some x)) acc st = (Ok acc', st')
    /\ body acc' = body acc
    /\ variables st' !! x = Some (JString "")
    /\ variables st' !! "claude_response" = Some (JHost a)
    /\ requests st' = (requests st ++ [ClaudeSendMessage arg])%list.
Proof.
  intros Hx Hproto Hcr Hd arg Hanswer Hc. rewrite eval_node_tail.
  cbn [read_variable before_result].
  rewrite (node_result_inline _ _ _ _ decoded) by (reflexivity || assumption).
  unfold bind at 1. unfold runCommand.
  cbn [String.eqb Ascii.eqb Bool.eqb is_js orb].
  unfold bind at 1. unfold call. fold arg. rewrite Hanswer, Hc.
  cbn [ret]. rewrite truthy_text_Some by assumption.
  eexists _, _. split; [reflexivity |].
  cbn [collect body with_body r_body from_option id to_text variables with_variables requests].
  split; [apply append_empty |].
  unfold after_node.
  cbn [node_var with_body r_body r_value r_variables from_option id].
  unfold or_else. cbn [truthy].
  rewrite truthy_text_Some by assumption.
  rewrite !set_prop_insert by (assumption || discriminate).
  split; [| split; [| reflexivity]].
  - rewrite lookup_insert_eq. f_equal. unfold lookup.
    rewrite lookup_union_r by (now apply lookup_singleton_ne).
    rewrite lookup_insert_ne by discriminate. now rewrite lookup_insert_eq.
  - rewrite lookup_insert_ne by congruence.
    apply lookup_union_Some_l. apply lookup_singleton_eq.
Qed.

End Evaluation.

(** ** Templates of one directive *)

Lemma exec_here (r : regex) (s : string) (g : groups) (s' : string) :
  rmatch r s [] (fun s' g => Some (g, s')) = Some (g, s') ->
  exec r s = Some (EmptyString, g, s').
Proof. intros Hm. destruct s; cbn [exec]; now rewrite Hm. Qed.

Lemma exec_later (r : regex) (c : ascii) (s : string) :
  rmatch r (String c s) [] (fun s' g => Some (g, s')) = None ->
  exec r s = None ->
  exec r (String c s) = None.
Proof. intros Hm He. cbn [exec]. now rewrite Hm, He. Qed.

Lemma exec_after_text (r : regex) (pre s : string) :
  has_brace pre = false ->
  exec (Seq (Chr "{") r) (pre ++ s) =
    match exec (Seq (Chr "{") r) s with
    | Some (p, g, post) => Some (pre ++ p, g, post)
    | None => None
    end.
Proof.
  induction pre as [| c pre IH]; intros Hpre.
  - change (EmptyString ++ s) with s. now destruct (exec _ s) as [[[p g] post] |].
  - cbn [has_brace] in Hpre. apply orb_false_elim in Hpre as [Hc Hpre].
    change (String c pre ++ s) with (String c (pre ++ s)).
    cbn [exec rmatch]. rewrite Ascii.eqb_sym, Hc. rewrite (IH Hpre).
    now destruct (exec _ s) as [[[p g] post] |].
Qed.

Lemma exec_without_command (r : regex) (s : string) :
  has_command s = false -> exec (Seq (Chr "{") (Seq (Chr "#") r)) s = None.
Proof.
  induction s as [| a s IH]; intros Hs; [reflexivity |].
  cbn [has_command] in Hs. cbn [exec rmatch].
  destruct s as [| b s].
  - destruct (Ascii.eqb "{" a); reflexivity.
  - apply orb_false_elim in Hs as [Hab Hs]. rewrite (IH Hs).
    rewrite (Ascii.eqb_sym "{" a), (Ascii.eqb_sym "#" b).
    destruct (Ascii.eqb a "{"); [| reflexivity].
    cbn [andb] in Hab. now rewrite Hab.
Qed.

Lemma findReplace_no_match (re : regex) (callback : groups -> result token) (s : string) :
  exec re s = None -> findReplace re callback [TStr s] = Ok [TStr s].
Proof.
  intros He. cbn [findReplace]. destruct (String.length s =? 0)%nat; [reflexivity |].
  destruct (String.length s); cbn [findReplace_scan]; now rewrite He.
Qed.

Lemma has_brace_app (s1 s2 : string) :
  has_brace (s1 ++ s2) = has_brace s1 || has_brace s2.
Proof.
  induction s1 as [| c s1 IH]; [reflexivity |].
  change (has_brace (String c (s1 ++ s2)) = has_brace (String c s1) || has_brace s2).
  cbn [has_brace]. now rewrite IH, orb_assoc.
Qed.

Lemma has_command_after_text (w s : string) :
  has_brace w = false -> has_command (w ++ s) = has_command s.
Proof.
  induction w as [| a w IH]; intros Hw; [reflexivity |].
  cbn [has_brace] in Hw. apply orb_false_elim in Hw as [Ha Hw].
  change (has_command (String a (w ++ s)) = has_command s).
  cbn [has_command]. rewrite Ha. cbn [andb orb]. rewrite (IH Hw).
  destruct (w ++ s) eqn:Hws; [| reflexivity].
  destruct w; [| discriminate]. change (s = EmptyString) in Hws. now subst s.
Qed.

Lemma has_command_open (c : ascii) (s : string) :
  Ascii.eqb c "#" = false ->
  has_command (String "{" (String c s)) = has_command (String c s).
Proof. intros Hc. cbn [has_command Ascii.eqb Bool.eqb andb]. now rewrite Hc. Qed.

Lemma word_letter (c : ascii) :
  is_word c = true ->
  Ascii.eqb c "{" = false /\ Ascii.eqb c "}" = false
  /\ Ascii.eqb c "=" = false /\ Ascii.eqb c "#" = false.
Proof.
  destruct c as [[|] [|] [|] [|] [|] [|] [|] [|]]; vm_compute; intros Hc;
    first [discriminate Hc | repeat split].
Qed.

Lemma lower_letter (c : ascii) :
  is_lower c = true ->
  Ascii.eqb c "{" = false /\ Ascii.eqb c "}" = false
  /\ Ascii.eqb c " " = false /\ Ascii.eqb c "/" = false /\ is_space c = false.
Proof.
  destruct c as [[|] [|] [|] [|] [|] [|] [|] [|]]; vm_compute; intros Hc;
    first [discriminate Hc | repeat split].
Qed.

Lemma word_has_no_brace (w : string) : all_in Word w = true -> has_brace w = false.
Proof.
  induction w as [| c w IH]; [reflexivity |]. cbn [all_in in_cset has_brace].
  intros Hw. apply andb_prop in Hw as [Hc Hw].
  destruct (word_letter c Hc) as (-> & _). now rewrite IH.
Qed.

Lemma lower_has_no_brace (w : string) : all_in Lower w = true -> has_brace w = false.
Proof.
  induction w as [| c w IH]; [reflexivity |]. cbn [all_in in_cset has_brace].
  intros Hw. apply andb_prop in Hw as [Hc Hw].
  destruct (lower_letter c Hc) as (-> & _). now rewrite IH.
Qed.

Lemma rmatch_var_read (c : ascii) (n post : string) :
  all_in Word (String c n) = true ->
  rmatch RE.var_read (String "{" (String c n ++ String "}" post)) []
         (fun s' g => Some (g, s'))
    = Some ([("name", String c n)], post).
Proof.
  intros Hn. unfold RE.var_read. cbn [rmatch Ascii.eqb Bool.eqb].
  rewrite (plus_greedy_longest Word _ c n (String "}" post)
             ([("name", String c n)], post)); auto.
  cbn [Ascii.eqb Bool.eqb]. now rewrite consumed_append.
Qed.

Lemma exec_var_read (pre : string) (c : ascii) (n post : string) :
  has_brace pre = false ->
  all_in Word (String c n) = true ->
  exec RE.var_read (pre ++ String "{" (String c n ++ String "}" post))
    = Some (pre, [("name", String c n)], post).
Proof.
  intros Hpre Hn. unfold RE.var_read. rewrite exec_after_text by assumption.
  fold RE.var_read. rewrite (exec_here _ _ _ _ (rmatch_var_read c n post Hn)).
  now rewrite append_empty.
Qed.

(** The fuel of a scan plays no part once it covers the length of the
    text. *)
Lemma replace_scan_fuel (re : regex) (callback : groups -> string) :
  nonempty re = true ->
  forall (fuel1 fuel2 : nat) (s : string),
    String.length s <= fuel1 -> String.length s <= fuel2 ->
    replace_scan fuel1 re callback s = replace_scan fuel2 re callback s.
Proof.
  intros Hne. induction fuel1 as [| fuel1 IH]; intros fuel2 s H1 H2.
  - destruct fuel2; cbn [replace_scan];
      destruct (exec re s) as [[[pre a] post] |] eqn:He; try reflexivity.
    apply exec_progress in He; [lia | assumption].
  - cbn [replace_scan]. destruct (exec re s) as [[[pre a] post] |] eqn:He.
    + pose proof (exec_progress re s pre post a Hne He) as Hlt.
      destruct fuel2 as [| fuel2]; [lia |]. cbn [replace_scan]. rewrite He.
      rewrite (IH fuel2 post); [reflexivity | lia | lia].
    + destruct fuel2; cbn [replace_scan]; now rewrite He.
Qed.

Section Substitution.
Context {H : Host}.

(** X15. [simpleVarReplace] puts the value of a variable in the place of
    its first read [{name}], or nothing when the value is falsy, keeps the
    text before it, and goes on in the same way with the text after it. *)
Theorem simpleVarReplace_substitutes (vars : gmap string (jsval hostval))
        (pre name post : string) :
  has_brace pre = false ->
  name <> "" ->
  all_in Word name = true ->
  substitute vars (pre ++ "{" ++ name ++ "}" ++ post) =
    pre ++ to_text (or_else (lookup vars name) (JString "")) ++ substitute vars post.
Proof.
  intros Hpre Hname Hword. destruct name as [| c n]; [contradiction |].
  change (pre ++ "{" ++ String c n ++ "}" ++ post)
    with (pre ++ String "{" (String c n ++ String "}" post)).
  unfold substitute.
  set (s := pre ++ String "{" (String c n ++ String "}" post)).
  assert (Hlen : String.length s = S (String.length pre + String.length n + S (S (String.length post)))).
  { unfold s. rewrite length_append. cbn [String.length].
    rewrite length_append. cbn [String.length]. lia. }
  rewrite Hlen. cbn [replace_scan]. unfold s.
  rewrite exec_var_read by assumption.
  rewrite group_text_first. do 2 f_equal.
  apply replace_scan_fuel; [reflexivity | lia | lia].
Qed.

End Substitution.

Lemma all_in_app (cs : cset) (w1 w2 : string) :
  all_in cs (w1 ++ w2) = all_in cs w1 && all_in cs w2.
Proof.
  induction w1 as [| c w1 IH]; [reflexivity |].
  change (all_in cs (String c (w1 ++ w2)) = all_in cs (String c w1) && all_in cs w2).
  cbn [all_in]. now rewrite IH, andb_assoc.
Qed.

(** A command that is closed at once is no block. *)
Lemma block_refuses_closed_command (command close : string)
      (k : string -> groups -> option (groups * string)) :
  all_in Lower command = true ->
  close = "/}" \/ close = "}" ->
  rmatch RE.block (String "{" (String "#" (command ++ close))) [] k = None.
Proof.
  intros Hcommand Hclose. unfold RE.block. cbn [rmatch]. rewrite !Ascii.eqb_refl.
  apply plus_greedy_refused. intros w s' Heq Hw Hall.
  assert (Hout : starts_outside Lower close = true)
    by (destruct Hclose as [-> | ->]; reflexivity).
  destruct (cut_in_run Lower w s' command close Hall Hout (eq_sym Heq)) as (n2 & -> & ->).
  rewrite all_in_app in Hcommand. apply andb_prop in Hcommand as [_ Hn2].
  destruct n2 as [| a n2].
  - destruct Hclose as [-> | ->]; reflexivity.
  - cbn [all_in in_cset] in Hn2. apply andb_prop in Hn2 as [Ha _].
    destruct (lower_letter a Ha) as (_ & Hb & Hs & _).
    change (String a n2 ++ close) with (String a (n2 ++ close)). cbv beta iota.
    rewrite (Ascii.eqb_sym " " a), (Ascii.eqb_sym "}" a), Hs, Hb. reflexivity.
Qed.

Lemma exec_block_closed_command (command close : string) :
  all_in Lower command = true ->
  close = "/}" \/ close = "}" ->
  exec RE.block (String "{" (String "#" (command ++ close))) = None.
Proof.
  intros Hcommand Hclose. apply exec_later.
  - now apply block_refuses_closed_command.
  - apply exec_without_brace. cbn [has_brace Ascii.eqb Bool.eqb orb].
    rewrite has_brace_app, (lower_has_no_brace _ Hcommand).
    destruct Hclose as [-> | ->]; reflexivity.
Qed.

Lemma exec_inline_closed_command (c : ascii) (n close : string) :
  all_in Lower (String c n) = true ->
  close = "/}" \/ close = "}" ->
  exec RE.inline_command (String "{" (String "#" (String c n ++ close)))
    = Some (EmptyString, [("command", String c n)], EmptyString).
Proof.
  intros Hcommand Hclose. apply exec_here.
  unfold RE.inline_command. cbn [rmatch Ascii.eqb Bool.eqb].
  rewrite (plus_greedy_longest Lower _ c n close
             ([("command", consumed (String c n ++ close) close)], EmptyString)).
  - now rewrite consumed_append.
  - assumption.
  - destruct Hclose as [-> | ->]; reflexivity.
  - destruct Hclose as [-> | ->]; reflexivity.
Qed.

Lemma parse_closed_command (command close : string) :
  command <> "" ->
  all_in Lower command = true ->
  close = "/}" \/ close = "}" ->
  parse ("{#" ++ command ++ close) =
    Ok [TStr ""; TNode (NCommand command None None); TStr ""].
Proof.
  intros Hne Hcommand Hclose. destruct command as [| c n]; [contradiction |].
  change ("{#" ++ String c n ++ close) with (String "{" (String "#" (String c n ++ close))).
  unfold parse.
  rewrite findReplace_no_match by now apply exec_block_closed_command.
  cbn [findReplace String.length Nat.eqb findReplace_scan].
  rewrite exec_inline_closed_command by assumption.
  reflexivity.
Qed.

Section Directives.
Context {H : Host}.

(** X16. A template that is one command closed at once, [{#name/}] or
    [{#name}], with any name of lower-case letters but [import], cannot be
    evaluated: the command has no input, and the substitution of the
    variables in the missing input throws a [TypeError]. The state is as it
    was. *)
Theorem command_without_input_throws (fuel : nat) (command close : string) (st : state) :
  command <> "" ->
  all_in Lower command = true ->
  command <> "import" ->
  close = "/}" \/ close = "}" ->
  getPrompt (S fuel) ("{#" ++ command ++ close) st =
    (Throw (TypeError "Cannot read properties of undefined (reading 'replace')"), st).
Proof.
  intros Hne Hcommand Himport Hclose. cbn [getPrompt]. unfold bind at 1, lift.
  rewrite parse_closed_command by assumption.
  cbn [eval_all eval_element blank]. unfold bind, ret. rewrite eval_node_tail.
  cbn [node_result read_variable before_result parsed_value].
  apply String.eqb_neq in Himport. rewrite Himport.
  reflexivity.
Qed.

End Directives.

(** ** A variable written and read *)

Lemma findReplace_scan_none (fuel : nat) (re : regex) (callback : groups -> result token)
      (s : string) :
  exec re s = None -> findReplace_scan fuel re callback s = Ok [TStr s].
Proof. intros He. destruct fuel; cbn [findReplace_scan]; now rewrite He. Qed.

Lemma rmatch_var_write (c : ascii) (n : string) (d : ascii) (v rest : string) :
  all_in Word (String c n) = true ->
  all_in (Not "}") (String d v) = true ->
  rmatch RE.var_write
         (String "{" (String c n ++ String "=" (String d v ++ String "}" rest))) []
         (fun s' g => Some (g, s'))
    = Some ([("value", String d v); ("var", String c n)], rest).
Proof.
  intros Hn Hv. unfold RE.var_write. cbn [rmatch]. rewrite Ascii.eqb_refl.
  rewrite (plus_greedy_longest Word _ c n (String "=" (String d v ++ String "}" rest))
             ([("value", consumed (String d v ++ String "}" rest) (String "}" rest));
               ("var", consumed (String c n ++ String "=" (String d v ++ String "}" rest))
                                (String "=" (String d v ++ String "}" rest)))], rest)).
  - now rewrite !consumed_append.
  - assumption.
  - reflexivity.
  - cbv beta iota. rewrite Ascii.eqb_refl.
    rewrite (plus_greedy_longest (Not "}") _ d v (String "}" rest)
               ([("value", consumed (String d v ++ String "}" rest) (String "}" rest));
                 ("var", consumed (String c n ++ String "=" (String d v ++ String "}" rest))
                                  (String "=" (String d v ++ String "}" rest)))], rest));
      [reflexivity | assumption | reflexivity | reflexivity].
Qed.

Lemma var_write_refuses_read (c : ascii) (n : string)
      (k : string -> groups -> option (groups * string)) :
  all_in Word (String c n) = true ->
  rmatch RE.var_write (String "{" (String c n ++ String "}" "")) [] k = None.
Proof.
  intros Hn. unfold RE.var_write. cbn [rmatch]. rewrite Ascii.eqb_refl.
  apply plus_greedy_refused. intros w s' Heq Hw Hall.
  destruct (cut_in_run Word w s' (String c n) (String "}" "") Hall eq_refl (eq_sym Heq))
    as (n2 & Hcut & ->).
  rewrite Hcut, all_in_app in Hn. apply andb_prop in Hn as [_ Hn2].
  destruct n2 as [| a n2]; [reflexivity |].
  cbn [all_in in_cset] in Hn2. apply andb_prop in Hn2 as [Ha _].
  destruct (word_letter a Ha) as (_ & _ & Heq' & _).
  change (String a n2 ++ String "}" "") with (String a (n2 ++ String "}" "")).
  cbv beta iota. now rewrite (Ascii.eqb_sym "=" a), Heq'.
Qed.

Lemma parse_write_then_read (c : ascii) (n : string) (d : ascii) (v : string) :
  all_in Word (String c n) = true ->
  all_in (Not "}") (String d v) = true ->
  has_brace (String d v) = false ->
  parse ("{" ++ String c n ++ "=" ++ String d v ++ "}{" ++ String c n ++ "}") =
    Ok [TStr ""; TNode (NVariableSet (String c n) (String d v)); TStr "";
        TNode (NVariable (String c n)); TStr ""].
Proof.
  intros Hn Hv Hb.
  pose proof (word_has_no_brace _ Hn) as Hnb.
  assert (Hhash : Ascii.eqb c "#" = false).
  { cbn [all_in in_cset] in Hn. apply andb_prop in Hn as [Hc _].
    now destruct (word_letter c Hc) as (_ & _ & _ & ->). }
  set (read := String "{" (String c n ++ String "}" "")).
  change ("{" ++ String c n ++ "=" ++ String d v ++ "}{" ++ String c n ++ "}")
    with (String "{" (String c n ++ String "=" (String d v ++ String "}" read))).
  set (t := String "{" (String c n ++ String "=" (String d v ++ String "}" read))).
  assert (Hread : has_command read = false).
  { unfold read. change (String c n ++ String "}" "") with (String c (n ++ String "}" "")).
    rewrite has_command_open by assumption.
    change (String c (n ++ String "}" "")) with (String c n ++ String "}" "").
    now rewrite has_command_after_text. }
  assert (Hcommand : has_command t = false).
  { unfold t. change (String c n ++ String "=" (String d v ++ String "}" read))
      with (String c (n ++ String "=" (String d v ++ String "}" read))).
    rewrite has_command_open by assumption.
    change (String c (n ++ String "=" (String d v ++ String "}" read)))
      with (String c n ++ String "=" (String d v ++ String "}" read)).
    rewrite has_command_after_text by assumption.
    change (String "=" (String d v ++ String "}" read))
      with (String "=" (String d v) ++ String "}" read).
    rewrite has_command_after_text by exact Hb.
    change (String "}" read) with (String "}" "" ++ read).
    now rewrite has_command_after_text. }
  unfold parse.
  rewrite (findReplace_no_match RE.block) by (now apply exec_without_command).
  rewrite (findReplace_no_match RE.inline_command) by (now apply exec_without_command).
  assert (Hpass3 : findReplace RE.var_write var_write_callback [TStr t]
                   = Ok [TStr ""; TNode (NVariableSet (String c n) (String d v)); TStr read]).
  { unfold t at 1. cbn [findReplace String.length Nat.eqb findReplace_scan]. fold t.
    unfold t at 1.
    rewrite (exec_here _ _ _ _ (rmatch_var_write c n d v read Hn Hv)).
    cbn [var_write_callback group_text group String.eqb Ascii.eqb Bool.eqb from_option id].
    rewrite findReplace_scan_none; [reflexivity |].
    apply exec_later; [now apply var_write_refuses_read |].
    apply exec_without_brace. rewrite has_brace_app, Hnb. reflexivity. }
  rewrite Hpass3.
  unfold read at 1. cbn [findReplace String.length Nat.eqb findReplace_scan].
  rewrite (exec_here _ _ _ _ (rmatch_var_read c n "" Hn)).
  cbn [var_read_callback group_text group String.eqb Ascii.eqb Bool.eqb from_option id].
  rewrite findReplace_scan_none by reflexivity. reflexivity.
Qed.

Section WriteRead.
Context {H : Host}.

Lemma eval_variable_set (rec : string -> M evaluation) (name value : string)
      (acc : evaluation) (st : state) :
  eval_node rec (NVariableSet name value) acc st =
    (Ok (collect no_result acc),
     with_variables
       (<["result" := JString ""]>
          (<["response" := JString ""]> (set_prop name (JString value) (variables st))))
       st).
Proof. rewrite eval_node_tail. simpl. now rewrite after_node_no_result. Qed.

Lemma eval_variable (rec : string -> M evaluation) (name : string)
      (acc : evaluation) (st : state) :
  eval_node rec (NVariable name) acc st =
    (Ok (collect no_result (append_body (to_text (lookup (variables st) name)) acc)),
     with_variables
       (<["result" := JString ""]> (<["response" := JString ""]> (variables st))) st).
Proof. rewrite eval_node_tail. simpl. now rewrite after_node_no_result. Qed.

Lemma lookup_after_write (name value : string) (vars : gmap string (jsval hostval)) :
  name <> "__proto__" ->
  lookup (<["result" := JString ""]>
            (<["response" := JString ""]> (set_prop name (JString value) vars))) name =
    JString (if String.eqb name "response" || String.eqb name "result" then "" else value).
Proof.
  intros Hproto. unfold lookup.
  destruct (String.eqb_spec name "result") as [-> | Hresult].
  { now rewrite lookup_insert_eq. }
  rewrite lookup_insert_ne by congruence.
  destruct (String.eqb_spec name "response") as [-> | Hresponse].
  { now rewrite lookup_insert_eq. }
  rewrite lookup_insert_ne by congruence.
  rewrite set_prop_insert by assumption. now rewrite lookup_insert_eq.
Qed.

(** X17. A variable written by [{name=value}] is read back by [{name}]
    next to it: the body is the value between two line feeds, normalised.
    The names [response] and [result] are the exception: what is written
    to them is overwritten before the read, and the body holds no value.
    No request is made. *)
Theorem variable_written_is_read_back (fuel : nat) (name value : string) (st : state) :
  name <> "" -> all_in Word name = true -> name <> "__proto__" ->
  value <> "" -> all_in (Not "}") value = true -> has_brace value = false ->
  exists st',
    getPrompt (S fuel) ("{" ++ name ++ "=" ++ value ++ "}{" ++ name ++ "}") st =
      (Ok {| body := normalise
                       (LF ++ (if String.eqb name "response" || String.eqb name "result"
                               then "" else value) ++ LF);
             attachments := []; followup := []; every := [] |}, st')
    /\ requests st' = requests st
    /\ host_world st' = host_world st.
Proof.
  intros Hname Hword Hproto Hvalue Hchars Hbrace.
  destruct name as [| c n]; [contradiction |].
  destruct value as [| d v]; [contradiction |].
  cbn [getPrompt]. unfold bind at 1, lift.
  rewrite parse_write_then_read by assumption.
  cbn [eval_all eval_element blank]. unfold bind, ret.
  rewrite eval_variable_set, eval_variable.
  cbn [variables with_variables]. rewrite lookup_after_write by assumption.
  set (text := if String.eqb (String c n) "response" || String.eqb (String c n) "result"
               then "" else String d v).
  cbn [collect append_body body empty_evaluation no_result r_body from_option id to_text].
  rewrite !append_empty, !append_assoc.
  eexists. split; [reflexivity |]. split; reflexivity.
Qed.

End WriteRead.

(** ** Followups that queue followups *)

Section Order.
Context {H : Host}.

Lemma run_followups_drained (fuel : nat) (queue : list item) (results : list evaluation) :
  drained fuel queue results ->
  forall (n : nat) (st : state),
    length results <= n ->
    emits (run_followups fuel n true queue []) st
          (flat_map message results)
          (fun out => out = (flat_map followup results, [])).
Proof.
  induction 1 as [| i queue r results Hi He _ IH]; intros n st Hlen.
  - rewrite run_followups_nil. now apply emits_ret.
  - destruct n as [| n]; [simpl in Hlen; lia |]. simpl in Hlen.
    cbn [run_followups flat_map].
    eapply emits_bind_silent; [apply emits_resolved, Hi |].
    intros followup_i st1 _ ->. rewrite He. cbn [app].
    rewrite <- (app_nil_r (message r ++ flat_map message results)).
    eapply emits_bind.
    + unfold message. destruct (blank (body r)) eqn:Hb.
      * apply IH. lia.
      * apply (emits_bind _ _ _ [ConvoSendMessage (body r) (attachments r)]
                          (flat_map message results) (fun _ => True));
          [apply emits_send |].
        intros _ st2 _ _. cbn [runEveries].
        apply (emits_bind_silent _ _ _ _ (fun _ => True)); [now apply emits_ret |].
        intros _ st3 _ _. apply IH. lia.
    + intros [pushed final] st2 _ [= -> ->]. now apply emits_ret.
Qed.

(** X18. Followups are sent first come, first served, also when a followup
    queues further followups: in a run with a body that is not blank and
    without every-items, where each item resolves, the messages follow the
    start of the conversation in the order in which the items were queued,
    the items queued by a followup after all the items queued before
    them; blank ones are skipped. In the end the followup queue of the
    prompt holds every item that was processed. *)
Theorem followups_first_come_first_served (fuel : nat) (prompt : evaluation)
        (results : list evaluation) (st : state) :
  blank (body prompt) = false ->
  every prompt = [] ->
  drained fuel (followup prompt) results ->
  length results <= fuel ->
  let expected :=
    ((if claude_ready (host_world st) then [] else [ClaudeInit])
       ++ StartConversation (body prompt) (attachments prompt)
       :: flat_map message results)%list in
  exists sent,
    requests (snd (runPrompt fuel prompt false st)) = (requests st ++ sent)%list
    /\ sent `prefix_of` expected
    /\ (responsive ->
        sent = expected
        /\ fst (runPrompt fuel prompt false st) =
             Ok (Some {| prompt_after :=
                           {| body := body prompt; attachments := attachments prompt;
                              followup := (followup prompt ++ flat_map followup results)%list;
                              every := [] |};
                         conversation := true |})).
Proof.
  intros Hb He Hq Hlen expected.
  assert (Hemits :
    emits (runPrompt fuel prompt false) st expected
          (fun out => out =
             Some {| prompt_after :=
                       {| body := body prompt; attachments := attachments prompt;
                          followup := (followup prompt ++ flat_map followup results)%list;
                          every := [] |};
                     conversation := true |})).
  { unfold expected, runPrompt. rewrite Hb, He. cbn [negb orb truthy_array].
    eapply emits_bind; [apply emits_ensure_ready |]. intros _ st1 _ _.
    apply (emits_bind _ _ _ [StartConversation (body prompt) (attachments prompt)]
                      (flat_map message results) (fun convo => convo = true)).
    - rewrite <- (app_nil_r [StartConversation _ _]).
      eapply emits_bind; [apply emits_call |]. intros a st2 _ _.
      eapply emits_bind_silent; [apply emits_set |]. intros _ st3 _ _.
      eapply emits_bind_silent; [apply emits_get |]. intros response st4 _ _.
      eapply emits_bind_silent; [apply emits_set |]. intros _ st5 _ _.
      now apply emits_ret.
    - intros convo st2 _ ->. cbn [runEveries].
      apply (emits_bind_silent _ _ _ _ (fun _ => True)); [now apply emits_ret |].
      intros _ st3 _ _.
      rewrite <- (app_nil_r (flat_map message results)).
      eapply emits_bind; [now apply run_followups_drained |].
      intros [pushed final] st4 _ [= -> ->]. now apply emits_ret. }
  destruct Hemits as (sent & Hreq & Hpre & Hok & Hres).
  exists sent. split; [exact Hreq |]. split; [exact Hpre |].
  intros Hresp. specialize (Hres Hresp).
  destruct (fst (runPrompt fuel prompt false st)) as [out| | | |] eqn:Hout;
    try contradiction.
  destruct (Hok out eq_refl) as [-> ->]. now split.
Qed.

End Order.

(** ** The files named in a message *)

Lemma all_chars_app (p : ascii -> bool) (s1 s2 : string) :
  all_chars p (s1 ++ s2) = all_chars p s1 && all_chars p s2.
Proof.
  induction s1 as [| c s1 IH]; [reflexivity |].
  change (all_chars p (String c (s1 ++ s2)) = all_chars p (String c s1) && all_chars p s2).
  cbn [all_chars]. now rewrite IH, andb_assoc.
Qed.

Lemma all_chars_drop (p : ascii -> bool) (n : nat) (s : string) :
  all_chars p s = true -> all_chars p (drop_str n s) = true.
Proof.
  revert s. induction n as [| n IH]; intros [| c s] Hs; try assumption.
  cbn [all_chars] in Hs. apply andb_prop in Hs as [_ Hs]. now apply IH.
Qed.

Lemma all_in_Not (ch : ascii) (s : string) : all_in (Not ch) s = free_of ch s.
Proof.
  unfold free_of. induction s as [| c s IH]; [reflexivity |].
  cbn [all_in all_chars in_cset]. now rewrite IH.
Qed.

Lemma exec_without_char (ch : ascii) (r : regex) (s : string) :
  free_of ch s = true -> exec (Seq (Chr ch) r) s = None.
Proof.
  unfold free_of. induction s as [| c s IH]; intros Hs; [reflexivity |].
  cbn [all_chars] in Hs. apply andb_prop in Hs as [Hc Hs].
  apply negb_true_iff in Hc.
  cbn [exec rmatch]. rewrite Ascii.eqb_sym, Hc. now rewrite (IH Hs).
Qed.

Lemma exec_after_chars (ch : ascii) (r : regex) (pre s : string) :
  free_of ch pre = true ->
  exec (Seq (Chr ch) r) (pre ++ s) =
    match exec (Seq (Chr ch) r) s with
    | Some (p, g, post) => Some (pre ++ p, g, post)
    | None => None
    end.
Proof.
  unfold free_of. induction pre as [| c pre IH]; intros Hpre.
  - change (EmptyString ++ s) with s. now destruct (exec _ s) as [[[p g] post] |].
  - cbn [all_chars] in Hpre. apply andb_prop in Hpre as [Hc Hpre].
    apply negb_true_iff in Hc.
    change (String c pre ++ s) with (String c (pre ++ s)).
    cbn [exec rmatch]. rewrite Ascii.eqb_sym, Hc. rewrite (IH Hpre).
    now destruct (exec _ s) as [[[p g] post] |].
Qed.

Lemma drop_append (pre s : string) : drop_str (String.length pre) (pre ++ s) = s.
Proof. induction pre as [| c pre IH]; [now destruct s | exact IH]. Qed.

Lemma drop_within (n : nat) (p s : string) :
  n <= String.length p -> drop_str n (p ++ s) = drop_str n p ++ s.
Proof.
  revert p. induction n as [| n IH]; intros p Hn.
  - now destruct p, s.
  - destruct p as [| c p]; [simpl in Hn; lia |].
    cbn [String.length] in Hn. apply (IH p). lia.
Qed.

Lemma length_drop (n : nat) (s : string) :
  String.length (drop_str n s) = String.length s - n.
Proof.
  revert s. induction n as [| n IH]; intros [| c s]; cbn [drop_str String.length];
    try lia. apply IH.
Qed.

Lemma prefix_of_append (m s : string) : String.prefix m (m ++ s) = true.
Proof.
  induction m as [| c m IH]; [now destruct s |].
  change (String.prefix (String c m) (String c (m ++ s)) = true).
  cbn [String.prefix]. now destruct (ascii_dec c c).
Qed.

(** The first occurrence of a text that starts with [ch], after a text
    without [ch]. *)
Lemma first_occurrence_after (ch : ascii) (m pre post : string) :
  free_of ch pre = true ->
  first_occurrence (String ch m) (pre ++ String ch m ++ post) = Some (pre, post).
Proof.
  unfold free_of. induction pre as [| c pre IH]; intros Hpre.
  - change (EmptyString ++ String ch m ++ post) with (String ch m ++ post).
    assert (Hp : String.prefix (String ch m) (String ch m ++ post) = true)
      by apply prefix_of_append.
    change (String ch m ++ post) with (String ch (m ++ post)) in *.
    cbn [first_occurrence]. rewrite Hp.
    change (String ch (m ++ post)) with (String ch m ++ post).
    now rewrite drop_append.
  - cbn [all_chars] in Hpre. apply andb_prop in Hpre as [Hc Hpre].
    apply negb_true_iff, Ascii.eqb_neq in Hc.
    change (String c pre ++ String ch m ++ post)
      with (String c (pre ++ String ch m ++ post)).
    cbn [first_occurrence String.prefix].
    destruct (ascii_dec ch c) as [Heq |]; [now subst |].
    now rewrite (IH Hpre).
Qed.

Lemma substitution_plain (matched before after template : string) :
  free_of "$" template = true ->
  substitution matched before after template = template.
Proof.
  unfold free_of. induction template as [| c t IH]; [reflexivity |].
  cbn [all_chars]. intros Ht. apply andb_prop in Ht as [Hc Ht].
  apply negb_true_iff, Ascii.eqb_neq in Hc.
  assert (Hstep : substitution matched before after (String c t)
                  = String c (substitution matched before after t)).
  { destruct c as [[|] [|] [|] [|] [|] [|] [|] [|]]; try reflexivity.
    now contradiction Hc. }
  now rewrite Hstep, (IH Ht).
Qed.

Lemma rmatch_file_reference (c : ascii) (n post : string) :
  free_of "]" (String c n) = true ->
  rmatch file_reference (String "[" (String c n ++ String "]" post)) []
         (fun s' g => Some (g, s'))
    = Some ([("1", String c n)], post).
Proof.
  intros Hn. rewrite <- all_in_Not in Hn. unfold file_reference.
  cbn [rmatch]. rewrite Ascii.eqb_refl.
  rewrite (plus_greedy_longest (Not "]") _ c n (String "]" post)
             ([("1", consumed (String c n ++ String "]" post) (String "]" post))], post));
    [| assumption | reflexivity | reflexivity].
  now rewrite consumed_append.
Qed.

Section FilesOfAMessage.
Context {H : Host}.
Variable uploadFile : string -> M attachment.

Lemma getFiles_loop_done (fuel lastIndex : nat) (question : string)
      (attachments : list attachment) (st : state) :
  free_of "[" question = true ->
  getFiles_loop uploadFile fuel lastIndex question attachments st
    = (Ok (attachments, question), st).
Proof.
  intros Hq.
  assert (He : exec file_reference (drop_str lastIndex question) = None)
    by (apply exec_without_char; now apply all_chars_drop).
  destruct fuel; cbn [getFiles_loop]; now rewrite He.
Qed.

(** X19. A message that names no file is left as it is and nothing is
    uploaded. A message that names one file, between brackets, has the
    file uploaded once and the reference replaced by the words
    [the uploaded file] and the name; when the upload ends the process, so
    does [getFiles]. The name holds no bracket and no dollar sign. *)
Theorem getFiles_replaces_the_reference (fuel : nat) (pre name post : string) (st : state) :
  free_of "[" pre = true ->
  free_of "[" post = true ->
  name <> "" ->
  free_of "[" name = true -> free_of "]" name = true -> free_of "$" name = true ->
  getFiles uploadFile fuel (pre ++ post) st = (Ok ([], pre ++ post), st)
  /\ (forall a st1,
        uploadFile name st = (Ok a, st1) ->
        getFiles uploadFile (S fuel) (pre ++ "[" ++ name ++ "]" ++ post) st =
          (Ok ([a], pre ++ "the uploaded file " ++ name ++ post), st1))
  /\ (forall code st1,
        uploadFile name st = (Exit code, st1) ->
        getFiles uploadFile (S fuel) (pre ++ "[" ++ name ++ "]" ++ post) st =
          (Exit code, st1)).
Proof.
  intros Hpre Hpost Hname Hopen Hclose Hdollar.
  split.
  { apply getFiles_loop_done. unfold free_of in *. now rewrite all_chars_app, Hpre, Hpost. }
  destruct name as [| c n]; [contradiction |].
  set (m := String "[" (String c n ++ String "]" "")).
  assert (Htext : pre ++ "[" ++ String c n ++ "]" ++ post = pre ++ m ++ post).
  { unfold m. change ("[" ++ String c n ++ "]" ++ post)
      with (String "[" (String c n ++ String "]" "" ++ post)).
    change (String "[" (String c n ++ String "]" "") ++ post)
      with (String "[" ((String c n ++ String "]" "") ++ post)).
    now rewrite append_assoc. }
  assert (Hexec : exec file_reference (drop_str 0 (pre ++ m ++ post))
                  = Some (pre, [("1", String c n)], post)).
  { change (drop_str 0 (pre ++ m ++ post)) with (pre ++ m ++ post).
    unfold file_reference. rewrite exec_after_chars by assumption.
    fold file_reference.
    assert (Hm : m ++ post = String "[" (String c n ++ String "]" post)).
    { unfold m. change (String "[" (String c n ++ String "]" "") ++ post)
        with (String "[" ((String c n ++ String "]" "") ++ post)).
      now rewrite append_assoc. }
    rewrite Hm, (exec_here _ _ _ _ (rmatch_file_reference c n post Hclose)).
    now rewrite append_empty. }
  assert (Hreplaced :
    replace_text m ("the uploaded file " ++ String c n) (pre ++ m ++ post)
      = pre ++ "the uploaded file " ++ String c n ++ post).
  { unfold replace_text, m. rewrite (first_occurrence_after "[") by assumption.
    rewrite substitution_plain.
    - now rewrite append_assoc.
    - unfold free_of in *. now rewrite all_chars_app, Hdollar. }
  assert (Hstep :
    getFiles uploadFile (S fuel) (pre ++ m ++ post) st =
      bind (uploadFile (String c n))
           (fun a => getFiles_loop uploadFile fuel
                       (String.length (pre ++ m ++ post) - String.length post)
                       (pre ++ "the uploaded file " ++ String c n ++ post) [a]) st).
  { unfold getFiles. cbn [getFiles_loop]. rewrite Hexec.
    cbn zeta. rewrite group_text_first. cbn [Nat.add].
    rewrite drop_append, consumed_append, Hreplaced. reflexivity. }
  rewrite Htext, Hstep. unfold bind. split.
  - intros a st1 ->. apply getFiles_loop_done.
    unfold free_of in *. rewrite !all_chars_app, Hpre, Hopen, Hpost. reflexivity.
  - now intros code st1 ->.
Qed.

(** X20. The loop of [getFiles] need not end. The name [$&] stands, in the
    replacement text, for the reference that was matched: the reference is
    written back behind the words [the uploaded file], is found again, and
    the file is uploaded over and over. Whatever the fuel, the loop runs
    out of it, as long as the uploads succeed. *)
Theorem getFiles_can_loop_forever (fuel : nat) (pre : string) (st : state) :
  free_of "[" pre = true ->
  (forall name st0, exists a st1, uploadFile name st0 = (Ok a, st1)) ->
  fst (getFiles uploadFile fuel (pre ++ "[$&]") st) = OutOfFuel.
Proof.
  intros Hpre Hupload. unfold getFiles.
  assert (Hloop : forall fuel p lastIndex attachments st0,
    free_of "[" p = true ->
    lastIndex <= String.length p ->
    fst (getFiles_loop uploadFile fuel lastIndex (p ++ "[$&]") attachments st0) = OutOfFuel).
  { clear fuel pre st Hpre.
    induction fuel as [| fuel IH]; intros p lastIndex attachments st0 Hp Hlast.
    all: assert (Hexec : exec file_reference (drop_str lastIndex (p ++ "[$&]"))
                         = Some (drop_str lastIndex p, [("1", "$&")], ""))
      by (rewrite drop_within by assumption;
          unfold file_reference;
          rewrite exec_after_chars by (now apply all_chars_drop);
          fold file_reference;
          rewrite (exec_here file_reference "[$&]" [("1", "$&")] "" eq_refl);
          now rewrite append_empty).
    - cbn [getFiles_loop]. now rewrite Hexec.
    - cbn [getFiles_loop]. rewrite Hexec. cbn zeta.
      replace (lastIndex + String.length (drop_str lastIndex p)) with (String.length p)
        by (rewrite length_drop; lia).
      rewrite drop_append.
      change (consumed "[$&]" "") with "[$&]".
      change (group_text [("1", "$&")] "1") with "$&".
      unfold bind. destruct (Hupload "$&" st0) as (a & st1 & ->).
      assert (Hreplaced :
        replace_text "[$&]" ("the uploaded file " ++ "$&") (p ++ "[$&]")
          = (p ++ "the uploaded file ") ++ "[$&]").
      { unfold replace_text.
        change (p ++ "[$&]") with (p ++ String "[" "$&]" ++ "").
        rewrite (first_occurrence_after "[" "$&]" p "") by assumption.
        change (substitution "[$&]" p "" ("the uploaded file " ++ "$&") ++ "")
          with ("the uploaded file " ++ "[$&]").
        now rewrite append_assoc. }
      rewrite Hreplaced. apply IH.
      + unfold free_of in *. now rewrite all_chars_app, Hp.
      + rewrite !length_append. cbn [String.length]. lia. }
  apply Hloop; [assumption | lia].
Qed.

End FilesOfAMessage.

(** ** Text without directives, once more *)

Section PlainText.
Context {H : Host}.

(** X21. A text without an opening brace is its own prompt: the body is
    the text with its runs of line feeds and of spaces collapsed (one line
    feed for a blank text), the queues are empty, and the state is
    untouched. *)
Theorem text_without_directives_is_its_own_prompt (fuel : nat) (s : string) (st : state) :
  has_brace s = false ->
  getPrompt (S fuel) s st =
    (Ok {| body := normalise (if blank s then LF else s);
           attachments := []; followup := []; every := [] |}, st).
Proof.
  intros Hs. cbn [getPrompt]. unfold bind, lift.
  rewrite parse_without_brace by assumption.
  cbn [eval_all eval_element]. unfold bind.
  destruct (blank s); reflexivity.
Qed.

End PlainText.

(** ** What a followup reads as the response *)

Lemma findReplace_one_match (re : regex) (callback : groups -> result token)
      (s pre post : string) (a : groups) (t : token) :
  nonempty re = true ->
  exec re s = Some (pre, a, post) ->
  callback a = Ok t ->
  exec re post = None ->
  findReplace re callback [TStr s] = Ok [TStr pre; t; TStr post].
Proof.
  intros Hne He Hcb Hpost. pose proof (exec_progress re s pre post a Hne He) as Hlt.
  cbn [findReplace]. destruct (String.length s) as [| k] eqn:Hlen; [lia |].
  cbn [Nat.eqb findReplace_scan]. rewrite He, Hcb.
  now rewrite findReplace_scan_none.
Qed.

Lemma has_command_read (c : ascii) (n : string) :
  all_in Word (String c n) = true ->
  has_command (String "{" (String c n ++ String "}" "")) = false.
Proof.
  intros Hn. pose proof (word_has_no_brace _ Hn) as Hnb.
  cbn [all_in in_cset] in Hn. apply andb_prop in Hn as [Hc _].
  destruct (word_letter c Hc) as (_ & _ & _ & Hhash).
  change (String c n ++ String "}" "") with (String c (n ++ String "}" "")).
  rewrite has_command_open by assumption.
  change (String c (n ++ String "}" "")) with (String c n ++ String "}" "").
  now rewrite has_command_after_text.
Qed.

Lemma exec_var_write_read (c : ascii) (n : string) :
  all_in Word (String c n) = true ->
  exec RE.var_write (String "{" (String c n ++ String "}" "")) = None.
Proof.
  intros Hn. apply exec_later; [now apply var_write_refuses_read |].
  apply exec_without_brace. now rewrite has_brace_app, (word_has_no_brace _ Hn).
Qed.

Lemma parse_text_then_read (p : string) (c : ascii) (n : string) :
  has_brace p = false ->
  all_in Word (String c n) = true ->
  parse (p ++ "{" ++ String c n ++ "}") =
    Ok [TStr p; TNode (NVariable (String c n)); TStr ""].
Proof.
  intros Hp Hn.
  change (p ++ "{" ++ String c n ++ "}") with (p ++ String "{" (String c n ++ String "}" "")).
  set (read := String "{" (String c n ++ String "}" "")).
  assert (Hcommand : has_command (p ++ read) = false)
    by (rewrite has_command_after_text by assumption; now apply has_command_read).
  unfold parse.
  rewrite (findReplace_no_match RE.block) by (now apply exec_without_command).
  rewrite (findReplace_no_match RE.inline_command) by (now apply exec_without_command).
  rewrite (findReplace_no_match RE.var_write).
  - apply (findReplace_one_match _ _ _ _ _ [("name", String c n)]);
      [reflexivity | now apply exec_var_read | reflexivity | reflexivity].
  - unfold RE.var_write. rewrite exec_after_text by assumption. fold RE.var_write.
    unfold read. now rewrite exec_var_write_read.
Qed.

Lemma blank_app (s1 s2 : string) : blank (s1 ++ s2) = blank s1 && blank s2.
Proof.
  induction s1 as [| c s1 IH]; [reflexivity |].
  change (blank (String c (s1 ++ s2)) = blank (String c s1) && blank s2).
  cbn [blank]. now rewrite IH, andb_assoc.
Qed.

Section ResponseOfAFollowup.
Context {H : Host}.

(** A text without directives followed by the read of a variable. *)
Lemma getPrompt_text_then_read (fuel : nat) (p name : string) (st : state) :
  has_brace p = false -> blank p = false ->
  name <> "" -> all_in Word name = true ->
  getPrompt (S fuel) (p ++ "{" ++ name ++ "}") st =
    (Ok {| body := normalise (p ++ to_text (lookup (variables st) name) ++ LF);
           attachments := []; followup := []; every := [] |},
     with_variables
       (<["result" := JString ""]> (<["response" := JString ""]> (variables st))) st).
Proof.
  intros Hp Hblank Hname Hword. destruct name as [| c n]; [contradiction |].
  cbn [getPrompt]. unfold bind at 1, lift.
  rewrite parse_text_then_read by assumption.
  cbn [eval_all eval_element blank]. rewrite Hblank. unfold bind, ret.
  rewrite eval_variable.
  cbn [collect append_body body empty_evaluation no_result r_body from_option id to_text
       attachments followup every app].
  now rewrite !append_empty, !append_assoc.
Qed.

(** A text without directives, and the state it leaves as it is. *)
Lemma getPrompt_plain_text (fuel : nat) (s : string) (st : state) :
  has_brace s = false -> getPrompt (S fuel) s st = (Ok (plain s), st).
Proof.
  intros Hs. cbn [getPrompt]. unfold bind, lift.
  rewrite parse_without_brace by assumption.
  cbn [eval_all eval_element]. unfold bind, plain.
  destruct (blank s); reflexivity.
Qed.

(** A message on the conversation whose answer carries a completion. *)
Lemma send_answered (text : string) (files : list attachment) (st : state)
      (a : hostval) (w : world) :
  respond (host_world st) (ConvoSendMessage text files) = (JHost a, w) ->
  truthy (host_get a "completion") = true ->
  send true text files st =
    (Ok tt, {| variables := set_prop "claude_response" (JHost a) (variables st);
               host_world := w;
               requests := requests st ++ [ConvoSendMessage text files] |}).
Proof. intros Hr Hc. unfold send, bind, call. now rewrite Hr, Hc. Qed.

(** X22. A read of [{response}] uses the response up. The orchestrator
    binds the completion of the initial answer to [response]; the answer
    to a followup is bound to [claude_response] only; and a read, like
    every node, leaves the empty string in [response]. So of two followups
    of which the second ends with [{response}], the second is sent with
    the completion of the initial answer in the place of the read when the
    first followup is a text without directives, and with nothing in its
    place when the first followup has read the response itself. At the
    end [response] is empty and [claude_response] holds the last answer. *)
Theorem response_is_used_up_by_a_read
        (fuel : nat) (prompt : evaluation) (reads : bool) (p1 p2 : string) (st : state)
        (a0 a1 a2 : hostval) (w0 w1 w2 : world) :
  blank (body prompt) = false ->
  every prompt = [] ->
  followup prompt = [ {| item_body := if reads then p1 ++ "{response}" else p1 |};
                      {| item_body := p2 ++ "{response}" |} ] ->
  has_brace p1 = false -> blank p1 = false ->
  has_brace p2 = false -> blank p2 = false ->
  claude_ready (host_world st) = true ->
  respond (host_world st) (StartConversation (body prompt) (attachments prompt))
    = (JHost a0, w0) ->
  truthy (host_get a0 "completion") = true ->
  let answer := to_text (host_get a0 "completion") in
  let first := normalise (if reads then p1 ++ answer ++ LF else p1) in
  let second := normalise (p2 ++ (if reads then "" else answer) ++ LF) in
  respond w0 (ConvoSendMessage first []) = (JHost a1, w1) ->
  truthy (host_get a1 "completion") = true ->
  respond w1 (ConvoSendMessage second []) = (JHost a2, w2) ->
  truthy (host_get a2 "completion") = true ->
  exists out st',
    runPrompt (S (S fuel)) prompt false st = (Ok out, st')
    /\ requests st' =
         (requests st ++ [ StartConversation (body prompt) (attachments prompt);
                           ConvoSendMessage first [];
                           ConvoSendMessage second [] ])%list
    /\ lookup (variables st') "response" = JString ""
    /\ lookup (variables st') "claude_response" = JHost a2.
Proof.
  intros Hb He Hf Hp1 Hb1 Hp2 Hb2 Hready Hanswer0 Hc0 answer first second
         Hanswer1 Hc1 Hanswer2 Hc2.
  assert (Hst : snd (ensure_ready st) = st) by (unfold ensure_ready; now rewrite Hready).
  set (s0 := drain_state prompt a0 w0 st).
  set (r1 := {| body := first; attachments := []; followup := []; every := [] |}).
  set (r2 := {| body := second; attachments := []; followup := []; every := [] |}).
  set (s1 := if reads
             then with_variables
                    (<["result" := JString ""]> (<["response" := JString ""]> (variables s0)))
                    s0
             else s0).
  set (s2 := {| variables := set_prop "claude_response" (JHost a1) (variables s1);
                host_world := w1;
                requests := requests s1 ++ [ConvoSendMessage first []] |}).
  set (s3 := with_variables
               (<["result" := JString ""]> (<["response" := JString ""]> (variables s2))) s2).
  set (s4 := {| variables := set_prop "claude_response" (JHost a2) (variables s3);
                host_world := w2;
                requests := requests s3 ++ [ConvoSendMessage second []] |}).
  assert (Hresponse0 : lookup (variables s0) "response" = host_get a0 "completion")
    by (unfold s0, drain_state; cbn [variables]; now rewrite lookup_set_prop by discriminate).
  assert (H1 : getPrompt (S (S fuel)) (if reads then p1 ++ "{response}" else p1) s0
               = (Ok r1, s1)).
  { unfold r1, s1, first. destruct reads.
    - rewrite (getPrompt_text_then_read (S fuel) p1 "response")
        by (assumption || discriminate || reflexivity).
      now rewrite Hresponse0.
    - rewrite getPrompt_plain_text by assumption. unfold plain. now rewrite Hb1. }
  assert (Hworld1 : host_world s1 = w0) by (unfold s1; now destruct reads).
  assert (Hresponse2 : lookup (variables s2) "response"
                       = if reads then JString "" else host_get a0 "completion").
  { unfold s2. cbn [variables]. rewrite set_prop_insert by discriminate.
    unfold lookup. rewrite lookup_insert_ne by discriminate.
    unfold s1. destruct reads.
    - cbn [variables with_variables]. rewrite lookup_insert_ne by discriminate.
      now rewrite lookup_insert_eq.
    - exact Hresponse0. }
  assert (H2 : getPrompt (S (S fuel)) (p2 ++ "{response}") s2 = (Ok r2, s3)).
  { unfold r2, s3, second.
    rewrite (getPrompt_text_then_read (S fuel) p2 "response")
      by (assumption || discriminate || reflexivity).
    rewrite Hresponse2. now destruct reads. }
  assert (Hnb1 : blank first = false).
  { unfold first. rewrite blank_normalise. destruct reads; [| assumption].
    now rewrite blank_app, Hb1. }
  assert (Hnb2 : blank second = false)
    by (unfold second; now rewrite blank_normalise, blank_app, Hb2).
  exists (Some {| prompt_after :=
                    {| body := body prompt; attachments := attachments prompt;
                       followup := (followup prompt ++ [])%list; every := [] |};
                  conversation := true |}), s4.
  split; [| split; [| split]].
  - set (v1 := {| visited := {| item_body := if reads then p1 ++ "{response}" else p1 |};
                  yields := r1 |}).
    set (v2 := {| visited := {| item_body := p2 ++ "{response}" |}; yields := r2 |}).
    apply (turns_make_a_run _ _ _ a0 w0 [] [v1; v2] [] []); rewrite ?Hst, ?He, ?Hf;
      try assumption; try reflexivity.
    + apply (schedule_round (visited v1) [visited v2] [] v1 [] [v2] [] []);
        [reflexivity | exact Hnb1 | reflexivity |].
      apply (schedule_round (visited v2) [] [] v2 [] [] [] []);
        [reflexivity | exact Hnb2 | reflexivity |].
      constructor.
    + fold s0. apply (visits_send _ _ _ s1 s2); [exact H1 | exact Hnb1 | |].
      { apply send_answered; [now rewrite Hworld1 | assumption]. }
      apply (visits_send _ _ _ s3 s4); [exact H2 | exact Hnb2 | | constructor].
      apply send_answered; assumption.
    + cbn [length]. lia.
  - unfold s4, s3, s2. cbn [requests with_variables].
    assert (Hreq1 : requests s1 = requests s0) by (unfold s1; now destruct reads).
    rewrite Hreq1. unfold s0, drain_state. cbn [requests].
    now rewrite <- !app_assoc.
  - unfold s4, s3. cbn [variables with_variables].
    rewrite set_prop_insert by discriminate. unfold lookup.
    rewrite lookup_insert_ne by discriminate. rewrite lookup_insert_ne by discriminate.
    now rewrite lookup_insert_eq.
  - unfold s4. cbn [variables]. rewrite set_prop_insert by discriminate.
    unfold lookup. now rewrite lookup_insert_eq.
Qed.

End ResponseOfAFollowup.

(** ** The parts of a template *)

Lemma part_of_refl (s : string) : part_of s s.
Proof. exists EmptyString, EmptyString. now rewrite append_empty. Qed.

Lemma part_of_trans (t s v : string) : part_of t s -> part_of s v -> part_of t v.
Proof.
  intros (a1 & b1 & ->) (a2 & b2 & ->). exists (a1 ++ a2), (b2 ++ b1).
  now rewrite !append_assoc.
Qed.

Lemma part_of_left (s1 s2 : string) : part_of (s1 ++ s2) s1.
Proof. now exists EmptyString, s2. Qed.

Lemma part_of_right (s1 s2 : string) : part_of (s1 ++ s2) s2.
Proof. exists s1, EmptyString. now rewrite append_empty. Qed.

Lemma part_of_length (t s : string) : part_of t s -> String.length s <= String.length t.
Proof. intros (a & b & ->). rewrite !length_append. lia. Qed.

Lemma contains_here (t s : string) : contains t (t ++ s) = true.
Proof.
  pose proof (prefix_of_append t s) as Hp.
  destruct (t ++ s); cbn [contains]; now rewrite Hp.
Qed.

Lemma contains_after (t a s : string) : contains t s = true -> contains t (a ++ s) = true.
Proof.
  intros Hs. induction a as [| c a IH]; [exact Hs |].
  change (contains t (String c (a ++ s)) = true). cbn [contains].
  rewrite IH. apply orb_true_r.
Qed.

Lemma prefix_before (t s b : string) :
  String.prefix t s = true -> String.prefix t (s ++ b) = true.
Proof.
  revert s. induction t as [| a t IH]; intros s Hp.
  - now destruct (s ++ b).
  - destruct s as [| c s]; [discriminate |].
    change (String.prefix (String a t) (String c (s ++ b)) = true).
    cbn [String.prefix] in *. destruct (ascii_dec a c); [now apply IH | discriminate].
Qed.

Lemma contains_before (t s b : string) : contains t s = true -> contains t (s ++ b) = true.
Proof.
  induction s as [| c s IH]; intros Hs.
  - cbn [contains] in Hs. rewrite orb_false_r in Hs.
    destruct t; [| discriminate]. now destruct b.
  - change (contains t (String c (s ++ b)) = true). cbn [contains] in *.
    apply orb_prop in Hs as [Hp | Hs]; [| rewrite (IH Hs); apply orb_true_r].
    apply (prefix_before _ _ b) in Hp.
    change (String c s ++ b) with (String c (s ++ b)) in Hp. now rewrite Hp.
Qed.

Lemma contains_part (template s t : string) :
  part_of template s -> contains t s = true -> contains t template = true.
Proof.
  intros (a & b & ->) Hs. now apply contains_after, contains_before.
Qed.

Lemma matches_rest (r : regex) (s : string) (g : groups) (s' : string) (g' : groups) :
  matches r s g s' g' -> exists m, s = m ++ s'.
Proof.
  induction 1 as [c s g | greedy cs c w s g Hall | cs w s g Hall
                  | r s g s' g' _ IH | r s g
                  | r1 r2 s g s1 g1 s2 g2 _ [m1 IH1] _ [m2 IH2]
                  | name r s g s' g' _ IH
                  | name t s g Hg | name s g Hg];
    try (eexists; reflexivity); try exact IH.
  - now exists (String c EmptyString).
  - now exists EmptyString.
  - exists (m1 ++ m2). now rewrite IH1, IH2, append_assoc.
  - now exists EmptyString.
Qed.

(** Every capture of a match is a part of the text that was matched. *)
Lemma captures_part (r : regex) (s : string) (g : groups) (s' : string) (g' : groups) :
  matches r s g s' g' ->
  forall name v, group g' name = Some v -> group g name = Some v \/ part_of s v.
Proof.
  induction 1 as [c s g | greedy cs c w s g Hall | cs w s g Hall
                  | r s g s' g' _ IH | r s g
                  | r1 r2 s g s1 g1 s2 g2 H1 IH1 _ IH2
                  | name0 r s g s' g' Hr IH
                  | name0 t s g Hg | name0 s g Hg];
    intros name v Hv; auto.
  - destruct (IH2 name v Hv) as [Hg1 | Hpart]; [now apply IH1 |].
    right. destruct (matches_rest _ _ _ _ _ H1) as [m ->].
    eapply part_of_trans; [apply part_of_right | exact Hpart].
  - cbn [group] in Hv. destruct (String.eqb name0 name); [| now apply IH].
    injection Hv as <-. right.
    destruct (matches_rest _ _ _ _ _ Hr) as [m ->].
    rewrite consumed_append. apply part_of_left.
Qed.

Lemma exec_splits (r : regex) (s pre post : string) (a : groups) :
  exec r s = Some (pre, a, post) ->
  exists s0, s = pre ++ s0 /\ matches r s0 [] post a.
Proof.
  revert pre. induction s as [| c s IH]; intros pre; cbn [exec].
  - destruct (rmatch r "" [] (fun s' g => Some (g, s'))) as [[g s'] |] eqn:Hm;
      [| discriminate].
    intros [= <- <- <-]. apply rmatch_sound in Hm as (s1 & g1 & Hr & [= <- <-]).
    now exists EmptyString.
  - destruct (rmatch r (String c s) [] (fun s' g => Some (g, s'))) as [[g s'] |] eqn:Hm.
    + intros [= <- <- <-]. apply rmatch_sound in Hm as (s1 & g1 & Hr & [= <- <-]).
      now exists (String c s).
    + destruct (exec r s) as [[[pre' g] post'] |] eqn:He; [| discriminate].
      intros [= <- <- <-]. destruct (IH pre' eq_refl) as (s0 & -> & Hr).
      now exists s0.
Qed.

Lemma block_body_part (s0 post : string) (a : groups) :
  matches RE.block s0 [] post a ->
  part_of s0 (group_text a "body")
  /\ String.length (group_text a "body") < String.length s0.
Proof.
  unfold RE.block. intros Hm.
  inversion Hm as [| | | | | ? ? ? ? s1 g1 ? ? Hopen Hrest | | |]; subst.
  inversion Hopen; subst. unfold group_text.
  destruct (group a "body") as [v |] eqn:Hv; cbn [from_option id].
  - destruct (captures_part _ _ _ _ _ Hrest "body" v Hv) as [Hnone | Hpart];
      [discriminate |].
    split.
    + eapply part_of_trans; [| exact Hpart]. apply (part_of_right (String "{" "")).
    + apply part_of_length in Hpart. cbn [String.length]. lia.
  - split; [| cbn [String.length]; lia].
    now exists EmptyString, (String "{" s1).
Qed.

Lemma inline_command_occurs (s0 post : string) (a : groups) :
  matches RE.inline_command s0 [] post a ->
  exists rest, s0 = ("{#" ++ group_text a "command") ++ rest.
Proof.
  unfold RE.inline_command. intros Hm. invert_match;
    cbn [group_text group String.eqb Ascii.eqb Bool.eqb from_option id];
    rewrite consumed_append; eexists;
    change ("{#" ++ String ?c ?w) with (String "{" (String "#" (String c w)));
    reflexivity.
Qed.

Lemma block_command_occurs (s0 post : string) (a : groups) :
  matches RE.block s0 [] post a ->
  exists rest, s0 = ("{#" ++ group_text a "command") ++ rest.
Proof.
  unfold RE.block. intros Hm. invert_match;
    cbn [group_text group String.eqb Ascii.eqb Bool.eqb from_option id] in *;
    try discriminate;
    rewrite consumed_append; eexists;
    change ("{#" ++ String ?c ?w) with (String "{" (String "#" (String c w)));
    reflexivity.
Qed.

Lemma findReplace_scan_inside (template : string) (re : regex)
      (callback : groups -> result token) :
  (forall s0 post a t,
      part_of template s0 -> matches re s0 [] post a -> callback a = Ok t ->
      token_inside template t) ->
  forall (fuel : nat) (s : string) (out : list token),
    part_of template s ->
    findReplace_scan fuel re callback s = Ok out ->
    Forall (token_inside template) out.
Proof.
  intros Hcb. induction fuel as [| fuel IH]; intros s out Hs; cbn [findReplace_scan];
    destruct (exec re s) as [[[pre a] post] |] eqn:He;
    try (intros [= <-]; now repeat constructor); try discriminate.
  destruct (callback a) as [t | | | |] eqn:Ht; try discriminate.
  destruct (findReplace_scan fuel re callback post) as [rest | | | |] eqn:Hrest;
    try discriminate.
  intros [= <-]. apply exec_splits in He as (s0 & -> & Hm).
  destruct (matches_rest _ _ _ _ _ Hm) as [m ->].
  assert (Hs0 : part_of template (m ++ post))
    by (eapply part_of_trans; [exact Hs | apply part_of_right]).
  constructor; [| constructor].
  - split; [| exact I]. eapply part_of_trans; [exact Hs | apply part_of_left].
  - exact (Hcb _ _ _ _ Hs0 Hm Ht).
  - apply (IH post rest); [| exact Hrest].
    eapply part_of_trans; [exact Hs0 | apply part_of_right].
Qed.

Lemma findReplace_inside (template : string) (re : regex)
      (callback : groups -> result token) :
  (forall s0 post a t,
      part_of template s0 -> matches re s0 [] post a -> callback a = Ok t ->
      token_inside template t) ->
  forall (strings out : list token),
    Forall (token_inside template) strings ->
    findReplace re callback strings = Ok out ->
    Forall (token_inside template) out.
Proof.
  intros Hcb. induction strings as [| [str | n] strings IH]; intros out Hall;
    cbn [findReplace].
  - intros [= <-]. constructor.
  - inversion Hall as [| ? ? Hstr Hrest]; subst.
    destruct (String.length str =? 0)%nat.
    + destruct (findReplace re callback strings) as [out2 | | | |]; try discriminate.
      intros [= <-]. constructor; [exact Hstr | now apply IH].
    + destruct (findReplace_scan _ re callback str) as [out1 | | | |] eqn:Hscan;
        try discriminate.
      destruct (findReplace re callback strings) as [out2 | | | |]; try discriminate.
      intros [= <-]. apply Forall_app. split; [| now apply IH].
      exact (findReplace_scan_inside template re callback Hcb _ _ _ (proj1 Hstr) Hscan).
  - inversion Hall as [| ? ? Hn Hrest]; subst.
    destruct (findReplace re callback strings) as [out2 | | | |]; try discriminate.
    intros [= <-]. constructor; [exact Hn | now apply IH].
Qed.

Lemma parse_inside (template : string) (out : list token) :
  parse template = Ok out -> Forall (token_inside template) out.
Proof.
  unfold parse.
  destruct (findReplace RE.block _ _) as [out1 | | | |] eqn:H1; try discriminate.
  destruct (findReplace RE.inline_command _ _) as [out2 | | | |] eqn:H2; try discriminate.
  destruct (findReplace RE.var_write _ _) as [out3 | | | |] eqn:H3; try discriminate.
  intros H4.
  eapply findReplace_inside in H1.
  - eapply findReplace_inside in H2; [| | exact H1].
    + eapply findReplace_inside in H3; [| | exact H2].
      * eapply findReplace_inside in H4; [exact H4 | | exact H3].
        intros s0 post a t _ _ [= <-]. now split.
      * intros s0 post a t _ _ [= <-]. now split.
    + intros s0 post a t Hs0 Hm [= <-]. split; [| exact I]. cbn [token_within].
      destruct (inline_command_occurs _ _ _ Hm) as [rest ->].
      eapply contains_part; [exact Hs0 |]. apply contains_here.
    - intros s0 post a t Hs0 Hm Ht. unfold block_callback in Ht.
      destruct (negb _); [discriminate |]. injection Ht as <-. split.
      + cbn [token_within].
        destruct (block_body_part _ _ _ Hm) as [Hpart Hlen]. split.
        * eapply part_of_trans; eassumption.
        * apply part_of_length in Hs0. lia.
      + destruct (block_command_occurs _ _ _ Hm) as [rest ->].
        eapply contains_part; [exact Hs0 |]. apply contains_here.
    - constructor; [split; [apply part_of_refl | exact I] | constructor].
Qed.

Lemma parse_within (template : string) (out : list token) :
  parse template = Ok out -> Forall (token_within template) out.
Proof.
  intros Hout. eapply Forall_impl; [exact (parse_inside template out Hout) |].
  now intros t [Ht _].
Qed.

(** X23. Parsing never fails, whatever the template: the error of the
    block callback cannot be raised. Every text of the result is a part of
    the template, the body of every block is a part of the template and is
    shorter than it, and the name of every command stands in the template
    behind the two characters that open a command. *)
Theorem parse_yields_parts_of_the_template (template : string) :
  exists out, parse template = Ok out /\ Forall (token_within template) out.
Proof.
  destruct (parse_total template) as [out Hout].
  exists out. split; [exact Hout | now apply parse_within].
Qed.

(** ** Templates that run no code *)

Lemma prefix_shorter (t u s : string) :
  String.prefix (t ++ u) s = true -> String.prefix t s = true.
Proof.
  revert s. induction t as [| a t IH]; intros s Hp; [now destruct s |].
  destruct s as [| c s]; [discriminate |].
  change (String.prefix (String a (t ++ u)) (String c s) = true) in Hp.
  cbn [String.prefix] in *. destruct (ascii_dec a c); [now apply IH | discriminate].
Qed.

Lemma contains_shorter (t u s : string) :
  contains (t ++ u) s = true -> contains t s = true.
Proof.
  induction s as [| c s IH]; cbn [contains]; intros Hs.
  - rewrite orb_false_r in *. now apply prefix_shorter in Hs.
  - apply orb_prop in Hs as [Hp | Hs].
    + now rewrite (prefix_shorter _ _ _ Hp).
    + rewrite (IH Hs). apply orb_true_r.
Qed.

(** A command whose name follows [{#] in a template without [{#js] is no
    [js] command. *)
Lemma no_js_command (command template : string) :
  contains "{#js" template = false ->
  contains ("{#" ++ command) template = true ->
  is_js command = false.
Proof.
  intros Hjs Hocc. destruct (is_js command) eqn:Hc; [| reflexivity].
  unfold is_js in Hc. apply orb_prop in Hc as [Hc | Hc];
    [apply orb_prop in Hc as [Hc | Hc] |];
    apply String.eqb_eq in Hc; subst command.
  - change ("{#" ++ "js") with ("{#js" ++ "") in Hocc.
    apply contains_shorter in Hocc. congruence.
  - change ("{#" ++ "jsdisplay") with ("{#js" ++ "display") in Hocc.
    apply contains_shorter in Hocc. congruence.
  - change ("{#" ++ "jsd") with ("{#js" ++ "d") in Hocc.
    apply contains_shorter in Hocc. congruence.
Qed.

Section CodeFree.
Context {H : Host}.

(** In a template without [{#js] and without [{#import], every element
    is sheltered, as far as the bodies of its blocks are. *)
Lemma parse_sheltered (P : M evaluation -> Prop) (rec : string -> M evaluation)
      (template : string) (out : list token) :
  parse template = Ok out ->
  contains "{#js" template = false ->
  contains "{#import" template = false ->
  (forall text,
      part_of template text -> String.length text < String.length template ->
      P (rec text)) ->
  Forall (sheltered P rec) out.
Proof.
  intros Hout Hjs Himport Hrec.
  eapply Forall_impl; [exact (parse_inside template out Hout) |].
  intros [s | [command param var text | command value var | |]]; cbn; auto.
  - intros [[Hpart Hshort] Hocc]. split; [now apply (no_js_command _ template) |].
    now apply Hrec.
  - intros [Hocc _]. cbn [token_within] in Hocc.
    split; [now apply (no_js_command _ template) |].
    intros ->. change ("{#" ++ "import") with "{#import" in Hocc. congruence.
Qed.

Lemma contains_in_part (template text t : string) :
  part_of template text -> contains t template = false -> contains t text = false.
Proof.
  intros Hpart Hnot. destruct (contains t text) eqn:Hc; [| reflexivity].
  now rewrite (contains_part template text t Hpart Hc) in Hnot.
Qed.

(** *** The requests of an evaluation *)

Lemma quiet_same {A : Type} (m : M A) :
  (forall st, requests (snd (m st)) = requests st) -> quiet m.
Proof.
  intros Hm st. exists []. rewrite Hm, app_nil_r. now split.
Qed.

Lemma quiet_bind {A B : Type} (m : M A) (k : A -> M B) :
  quiet m -> (forall a, quiet (k a)) -> quiet (bind m k).
Proof.
  intros Hm Hk st. destruct (Hm st) as (sent1 & Hreq1 & Hone1). unfold bind.
  destruct (m st) as [[a | e | c | |] st1]; cbn [snd] in *;
    try (exists sent1; now split).
  destruct (Hk a st1) as (sent2 & Hreq2 & Hone2).
  exists (sent1 ++ sent2)%list. split.
  - now rewrite Hreq2, Hreq1, app_assoc.
  - rewrite forallb_app. now rewrite Hone1, Hone2.
Qed.

Lemma quiet_call (prompt : string) : quiet (call (ClaudeSendMessage prompt)).
Proof.
  intros st. exists [ClaudeSendMessage prompt]. split; [| reflexivity].
  unfold call. destruct (respond (host_world st) _) as [[| s | h] w]; try reflexivity.
  now destruct (truthy (host_get h "completion")).
Qed.

Ltac quiet_step :=
  match goal with
  | |- quiet (bind _ _) => apply quiet_bind; [| intros ?]
  | |- quiet (call (ClaudeSendMessage _)) => apply quiet_call
  | |- quiet (if ?b then _ else _) => destruct b
  | |- quiet (match ?x with _ => _ end) => destruct x
  | |- quiet _ => apply quiet_same; intros ?; reflexivity
  end.

Lemma quiet_write_file (path content : string) : quiet (write_file path content).
Proof.
  apply quiet_same. intros st. unfold write_file.
  now destruct (writeFileSync (host_world st) path content).
Qed.

Lemma quiet_random_file_name : quiet random_file_name.
Proof.
  apply quiet_same. intros st. unfold random_file_name.
  now destruct (random_hex (host_world st)).
Qed.

Lemma quiet_runCommand (command arg : string) (param : option string) :
  is_js command = false -> quiet (runCommand command arg param).
Proof.
  intros Hjs. unfold runCommand. rewrite Hjs.
  destruct (String.eqb command "writefile").
  { destruct param; [| quiet_step]. apply quiet_bind; [apply quiet_write_file |].
    intros _. quiet_step. }
  destruct (String.eqb command "every"); [quiet_step |].
  destruct (String.eqb command "file").
  { apply quiet_bind; [| intros name; quiet_step].
    destruct (truthy_text param); [quiet_step | apply quiet_random_file_name]. }
  destruct (String.eqb command "followup"); [quiet_step |].
  destruct (String.eqb command "claude"); [| quiet_step].
  apply quiet_bind; [apply quiet_call |]. intros result. quiet_step.
Qed.

Lemma quiet_simpleVarReplace (text : option string) : quiet (simpleVarReplace text).
Proof. destruct text; quiet_step. Qed.

Lemma quiet_lift {A : Type} (r : result A) : quiet (lift r).
Proof. quiet_step. Qed.

Lemma quiet_node_result (rec : string -> M evaluation) (block : node) (acc : evaluation) :
  sheltered quiet rec (TNode block) -> quiet (node_result rec block acc).
Proof.
  destruct block as [command param var text | command value var | |];
    cbn [sheltered node_result]; intros Hnode; [| | quiet_step | quiet_step].
  - destruct Hnode as [Hjs Hrec].
    destruct (String.eqb command "followup" || String.eqb command "every").
    + apply quiet_bind; [now apply quiet_runCommand |]. intros result. quiet_step.
    + apply quiet_bind; [exact Hrec |]. intros ran.
      apply quiet_bind; [quiet_step |]. intros _.
      apply quiet_bind; [now apply quiet_runCommand |]. intros result. quiet_step.
  - destruct Hnode as [Hjs Himport]. apply String.eqb_neq in Himport.
    apply quiet_bind; [apply quiet_lift |]. intros v. rewrite Himport.
    apply quiet_bind; [apply quiet_simpleVarReplace |]. intros arg.
    apply quiet_bind; [now apply quiet_runCommand |]. intros result. quiet_step.
Qed.

Lemma quiet_eval_node (rec : string -> M evaluation) (block : node) (acc : evaluation) :
  sheltered quiet rec (TNode block) -> quiet (eval_node rec block acc).
Proof.
  intros Hnode. unfold eval_node.
  apply quiet_bind; [destruct block; repeat quiet_step |]. intros acc1.
  apply quiet_bind; [destruct block; quiet_step |]. intros _.
  apply quiet_bind; [now apply quiet_node_result |]. intros [result acc2].
  apply quiet_bind; [quiet_step |]. intros _.
  apply quiet_bind; [quiet_step |]. intros _.
  apply quiet_bind; [destruct (default (Fresh ∅) (r_variables result)); quiet_step |].
  intros _.
  apply quiet_bind; [| intros _; quiet_step].
  destruct (truthy_text (node_var block)); [| quiet_step].
  apply quiet_bind; [quiet_step |]. intros response. quiet_step.
Qed.

Lemma quiet_eval_all (rec : string -> M evaluation) (out : list token) :
  Forall (sheltered quiet rec) out -> forall acc, quiet (eval_all rec out acc).
Proof.
  induction 1 as [| block out Hblock _ IH]; intros acc; cbn [eval_all].
  - quiet_step.
  - apply quiet_bind; [| exact IH].
    destruct block as [s | n]; cbn [eval_element].
    + destruct (blank s); quiet_step.
    + now apply quiet_eval_node.
Qed.

Lemma quiet_getPrompt (fuel : nat) :
  forall template,
    contains "{#js" template = false ->
    contains "{#import" template = false ->
    quiet (getPrompt fuel template).
Proof.
  induction fuel as [| fuel IH]; intros template Hjs Himport; cbn [getPrompt];
    [quiet_step |].
  intros st. unfold bind at 1, lift.
  destruct (parse_total template) as [out Hout]. rewrite Hout.
  apply quiet_bind; [| intros acc; quiet_step].
  apply quiet_eval_all.
  apply (parse_sheltered quiet _ template out Hout Hjs Himport).
  intros text Hpart _. apply IH; now apply (contains_in_part template).
Qed.

(** X9. The evaluation of a template that holds no [js] command and no
    [import] command never touches a conversation: the requests made
    before it are kept, and every request it adds is a message of
    [callClaude], whatever the scope and the answers of the host, and also
    when the evaluation fails. *)
Theorem getPrompt_sends_one_shots_only (fuel : nat) (template : string) (st : state) :
  contains "{#js" template = false ->
  contains "{#import" template = false ->
  exists sent,
    requests (snd (getPrompt fuel template st)) = (requests st ++ sent)%list
    /\ Forall (fun rq => exists prompt, rq = ClaudeSendMessage prompt) sent.
Proof.
  intros Hjs Himport.
  destruct (quiet_getPrompt fuel template Hjs Himport st) as (sent & Hreq & Hone).
  exists sent. split; [exact Hreq |].
  apply Forall_forall. intros rq Hin.
  apply list_elem_of_In in Hin.
  rewrite forallb_forall in Hone. specialize (Hone rq Hin).
  destruct rq; try discriminate. eauto.
Qed.

(** *** Termination *)

Lemma fuelled_bind {A B : Type} (m : M A) (k : A -> M B) :
  fuelled m -> (forall a, fuelled (k a)) -> fuelled (bind m k).
Proof.
  intros Hm Hk st. specialize (Hm st). unfold bind.
  destruct (m st) as [[a | e | c | |] st1]; cbn [fst] in *;
    try discriminate; [apply Hk | contradiction].
Qed.

Lemma fuelled_call (rq : request) : fuelled (call rq).
Proof.
  intros st. unfold call. destruct (respond (host_world st) rq) as [[| s | h] w];
    try discriminate.
  now destruct (truthy (host_get h "completion")).
Qed.

Lemma fuelled_write_file (path content : string) : fuelled (write_file path content).
Proof.
  intros st. unfold write_file.
  now destruct (writeFileSync (host_world st) path content).
Qed.

Lemma fuelled_random_file_name : fuelled random_file_name.
Proof.
  intros st. unfold random_file_name. now destruct (random_hex (host_world st)).
Qed.

Ltac fuelled_step :=
  match goal with
  | |- fuelled (bind _ _) => apply fuelled_bind; [| intros ?]
  | |- fuelled (call _) => apply fuelled_call
  | |- fuelled (write_file _ _) => apply fuelled_write_file
  | |- fuelled random_file_name => apply fuelled_random_file_name
  | |- fuelled (if ?b then _ else _) => destruct b
  | |- fuelled (match ?x with _ => _ end) => destruct x
  | |- fuelled _ => intros ?; discriminate
  end.

Lemma fuelled_runCommand (command arg : string) (param : option string) :
  is_js command = false -> fuelled (runCommand command arg param).
Proof. intros Hjs. unfold runCommand. rewrite Hjs. repeat fuelled_step. Qed.

(** The decoding of an input takes no fuel. *)
Lemma json_chars_fuelled (n : nat) :
  forall s, String.length s <= n -> json_chars s <> OutOfFuel.
Proof.
  assert (Hchar : forall c r, r <> OutOfFuel -> decoded_char c r <> OutOfFuel)
    by (intros c [v | e | c0 | |] Hr; cbn; congruence).
  assert (Hwide : forall r, r <> OutOfFuel -> decoded_wide r <> OutOfFuel)
    by (intros [v | e | c0 | |] Hr; cbn; congruence).
  induction n as [| n IH]; intros s Hlen.
  - destruct s; [discriminate | cbn [String.length] in Hlen; lia].
  - destruct s as [| a s]; [discriminate |]. cbn [String.length] in Hlen.
    cbn [json_chars].
    repeat match goal with
           | |- (if ?x then _ else _) <> _ => destruct x
           | |- (match ?x with _ => _ end) <> _ => destruct x
           | |- decoded_char _ _ <> _ => apply Hchar
           | |- decoded_wide _ <> _ => apply Hwide
           | |- json_chars _ <> _ => apply IH; cbn [String.length] in *; lia
           | |- _ => discriminate
           end.
Qed.

Lemma fuelled_parsed_value (value : option string) : fuelled (lift (parsed_value value)).
Proof.
  intros st. unfold lift, parsed_value, JSON_parse. cbn [fst].
  destruct value as [text |]; [| discriminate].
  destruct text as [| c s]; [discriminate |].
  assert (Hs : json_chars s <> OutOfFuel) by (now apply (json_chars_fuelled (String.length s))).
  destruct c as [[|] [|] [|] [|] [|] [|] [|] [|]]; try discriminate.
  now destruct (json_chars s).
Qed.

Lemma fuelled_node_result (rec : string -> M evaluation) (block : node) (acc : evaluation) :
  sheltered fuelled rec (TNode block) -> fuelled (node_result rec block acc).
Proof.
  destruct block as [command param var text | command value var | |];
    cbn [sheltered node_result]; intros Hnode; [| | fuelled_step | fuelled_step].
  - destruct Hnode as [Hjs Hrec].
    destruct (String.eqb command "followup" || String.eqb command "every").
    + apply fuelled_bind; [now apply fuelled_runCommand |]. intros r. fuelled_step.
    + apply fuelled_bind; [exact Hrec |]. intros ran.
      apply fuelled_bind; [fuelled_step |]. intros _.
      apply fuelled_bind; [now apply fuelled_runCommand |]. intros r. fuelled_step.
  - destruct Hnode as [Hjs Himport]. apply String.eqb_neq in Himport.
    apply fuelled_bind; [apply fuelled_parsed_value |]. intros v. rewrite Himport.
    apply fuelled_bind; [destruct v; fuelled_step |]. intros arg.
    apply fuelled_bind; [now apply fuelled_runCommand |]. intros r. fuelled_step.
Qed.

Lemma fuelled_eval_node (rec : string -> M evaluation) (block : node) (acc : evaluation) :
  sheltered fuelled rec (TNode block) -> fuelled (eval_node rec block acc).
Proof.
  intros Hnode st. rewrite eval_node_tail.
  pose proof (fuelled_node_result rec block (read_variable block acc st) Hnode
                (before_result block st)) as Hres.
  now destruct (node_result rec block _ _) as [[[r acc1] | | | |] st1].
Qed.

Lemma fuelled_eval_all (rec : string -> M evaluation) (out : list token) :
  Forall (sheltered fuelled rec) out -> forall acc, fuelled (eval_all rec out acc).
Proof.
  induction 1 as [| block out Hblock _ IH]; intros acc; cbn [eval_all].
  - fuelled_step.
  - apply fuelled_bind; [| exact IH].
    destruct block as [s | n]; cbn [eval_element].
    + destruct (blank s); fuelled_step.
    + now apply fuelled_eval_node.
Qed.

Lemma fuelled_getPrompt (fuel : nat) :
  forall template,
    String.length template < fuel ->
    contains "{#js" template = false ->
    contains "{#import" template = false ->
    fuelled (getPrompt fuel template).
Proof.
  induction fuel as [| fuel IH]; intros template Hlen Hjs Himport; [lia |].
  cbn [getPrompt]. intros st. unfold bind at 1, lift.
  destruct (parse_total template) as [out Hout]. rewrite Hout.
  apply fuelled_bind; [| intros acc; fuelled_step].
  apply fuelled_eval_all.
  apply (parse_sheltered fuelled _ template out Hout Hjs Himport).
  intros text Hpart Hshort. apply IH; [lia | |]; now apply (contains_in_part template).
Qed.

(** X24. The evaluation of a template in which neither [{#import] nor
    [{#js] occurs ends: no file is imported and no code is run, and blocks
    nest no deeper than the template is long, so a fuel above the length
    of the template is never used up, whatever the scope and the answers
    of the host. *)
Theorem getPrompt_ends_without_import (fuel : nat) (template : string) (st : state) :
  contains "{#import" template = false ->
  contains "{#js" template = false ->
  String.length template < fuel ->
  fst (getPrompt fuel template st) <> OutOfFuel.
Proof. intros Himport Hjs Hlen. now apply fuelled_getPrompt. Qed.

End CodeFree.

(** ** The rounds of [getFiles] *)

Lemma count_char_app (ch : ascii) (s1 s2 : string) :
  count_char ch (s1 ++ s2) = count_char ch s1 + count_char ch s2.
Proof.
  induction s1 as [| c s1 IH]; [reflexivity |].
  change (count_char ch (String c (s1 ++ s2)) = count_char ch (String c s1) + count_char ch s2).
  cbn [count_char]. rewrite IH. lia.
Qed.

Lemma count_char_free (ch : ascii) (s : string) :
  free_of ch s = true -> count_char ch s = 0.
Proof.
  unfold free_of. induction s as [| c s IH]; [reflexivity |].
  cbn [all_chars count_char]. intros Hs. apply andb_prop in Hs as [Hc Hs].
  apply negb_true_iff in Hc. now rewrite Hc, (IH Hs).
Qed.

Lemma free_of_app (ch : ascii) (s1 s2 : string) :
  free_of ch (s1 ++ s2) = free_of ch s1 && free_of ch s2.
Proof. apply all_chars_app. Qed.

Lemma free_of_part (ch : ascii) (t s : string) :
  part_of t s -> free_of ch t = true -> free_of ch s = true.
Proof.
  intros (a & b & ->). rewrite !free_of_app. intros Ht.
  apply andb_prop in Ht as [_ Ht]. now apply andb_prop in Ht as [Ht _].
Qed.

Lemma drop_drop (a b : nat) (s : string) :
  drop_str (a + b) s = drop_str b (drop_str a s).
Proof.
  revert s. induction a as [| a IH]; intros s; [reflexivity |].
  destruct s as [| c s]; [now destruct b |]. apply IH.
Qed.

Lemma take_drop (n : nat) (s : string) : s = take_str n s ++ drop_str n s.
Proof.
  revert s. induction n as [| n IH]; intros [| c s]; try reflexivity.
  change (String c s = String c (take_str n s ++ drop_str n s)). now rewrite <- IH.
Qed.

Lemma first_occurrence_sound (t s before after : string) :
  first_occurrence t s = Some (before, after) -> s = before ++ t ++ after.
Proof.
  revert before. induction s as [| c s IH]; intros before; cbn [first_occurrence].
  - destruct (String.prefix t "") eqn:Hp; [| discriminate].
    intros [= <- <-]. now apply prefix_append.
  - destruct (String.prefix t (String c s)) eqn:Hp.
    + intros [= <- <-]. now apply prefix_append.
    + destruct (first_occurrence t s) as [[b a] |]; [| discriminate].
      intros [= <- <-]. now rewrite (IH b eq_refl).
Qed.

Lemma first_occurrence_found (t before after : string) :
  exists b a, first_occurrence t (before ++ t ++ after) = Some (b, a).
Proof.
  induction before as [| c before (b & a & IH)].
  - change (EmptyString ++ t ++ after) with (t ++ after).
    pose proof (prefix_of_append t after) as Hp.
    destruct (t ++ after); cbn [first_occurrence]; rewrite Hp; eauto.
  - change (String c before ++ t ++ after) with (String c (before ++ t ++ after)).
    cbn [first_occurrence]. rewrite IH.
    destruct (String.prefix t (String c (before ++ t ++ after))); eauto.
Qed.

(** The shape of a reference to a file. *)
Lemma exec_file_reference (s pre post : string) (g : groups) :
  exec file_reference s = Some (pre, g, post) ->
  exists name,
    s = pre ++ String "[" (name ++ String "]" post)
    /\ g = [("1", name)]
    /\ free_of "]" name = true.
Proof.
  intros He. apply exec_splits in He as (s0 & -> & Hm).
  unfold file_reference in Hm. invert_match.
  eexists. split; [reflexivity |]. rewrite consumed_append.
  split; [reflexivity |]. now rewrite <- all_in_Not.
Qed.

Section RoundsOfGetFiles.
Context {H : Host}.
Variable uploadFile : string -> M attachment.
Hypothesis upload_ends : forall name, fuelled (uploadFile name).

Lemma getFiles_loop_ends (fuel : nat) :
  forall (question : string) (lastIndex : nat) (attachments : list attachment),
    free_of "$" question = true ->
    count_char "]" question < fuel ->
    fuelled (getFiles_loop uploadFile fuel lastIndex question attachments).
Proof.
  induction fuel as [| fuel IH]; intros question lastIndex attachments Hdollar Hcount;
    [lia |].
  cbn [getFiles_loop].
  destruct (exec file_reference (drop_str lastIndex question)) as [[[pre g] post] |] eqn:He;
    [| intros st; discriminate].
  apply exec_file_reference in He as (name & Hdrop & -> & Hname).
  cbn zeta. rewrite group_text_first, drop_drop, Hdrop, drop_append.
  set (m := String "[" (name ++ String "]" "")).
  assert (Hm : String "[" (name ++ String "]" post) = m ++ post).
  { unfold m. change (String "[" (name ++ String "]" "") ++ post)
      with (String "[" ((name ++ String "]" "") ++ post)).
    now rewrite append_assoc. }
  rewrite Hm, consumed_append.
  assert (Hpart : part_of question m).
  { exists (take_str lastIndex question ++ pre), post.
    rewrite (take_drop lastIndex question) at 1. rewrite Hdrop, Hm.
    now rewrite append_assoc. }
  destruct Hpart as (before0 & after0 & Hquestion).
  destruct (first_occurrence_found m before0 after0) as (before & after & Hfound).
  rewrite <- Hquestion in Hfound.
  pose proof (first_occurrence_sound _ _ _ _ Hfound) as Hsplit.
  assert (Hname_part : part_of question name).
  { eapply part_of_trans; [exists before, after; exact Hsplit |].
    exists (String "[" ""), (String "]" ""). reflexivity. }
  pose proof (free_of_part "$" _ _ Hname_part Hdollar) as Hname_dollar.
  assert (Htemplate : free_of "$" ("the uploaded file " ++ name) = true)
    by (rewrite free_of_app, Hname_dollar; reflexivity).
  apply fuelled_bind; [apply upload_ends |]. intros a.
  unfold replace_text. rewrite Hfound, (substitution_plain _ _ _ _ Htemplate).
  rewrite Hsplit in Hdollar, Hcount.
  rewrite !free_of_app in Hdollar.
  apply andb_prop in Hdollar as [Hbefore Hafter].
  apply andb_prop in Hafter as [_ Hafter].
  rewrite !count_char_app in Hcount.
  assert (Hone : count_char "]" m = 1).
  { unfold m. change (String "[" (name ++ String "]" ""))
      with (String "[" "" ++ name ++ String "]" "").
    rewrite !count_char_app, (count_char_free _ _ Hname). reflexivity. }
  rewrite Hone in Hcount.
  apply IH.
  - now rewrite free_of_app, Hbefore, free_of_app, Htemplate, Hafter.
  - rewrite !count_char_app, (count_char_free _ _ Hname).
    change (count_char "]" "the uploaded file ") with 0. lia.
Qed.

(** X26. Without a dollar sign in the message, the loop of [getFiles]
    ends: each round takes one closing bracket out of the text, so there
    are no more rounds (and no more uploads) than the message has closing
    brackets. *)
Theorem getFiles_ends_without_dollar (text : string) (st : state) :
  free_of "$" text = true ->
  fst (getFiles uploadFile (S (count_char "]" text)) text st) <> OutOfFuel.
Proof.
  intros Hdollar. apply getFiles_loop_ends; [assumption | lia].
Qed.

End RoundsOfGetFiles.

(** ** A template that imports itself *)

Section Backtracking.
Context {A : Type}.

(** A greedy repetition that runs past the place where the rest of the
    expression accepts comes back to it, when the rest accepts no later
    place. *)
Lemma plus_greedy_back (cs : cset) (k : string -> option A)
      (c : ascii) (w s : string) (x : A) :
  all_in cs (String c w) = true ->
  plus_greedy cs k s = None ->
  k s = Some x ->
  plus_greedy cs k (String c w ++ s) = Some x.
Proof.
  revert c. induction w as [| d w IH]; intros c Hall Hlater Hk.
  - change (plus_greedy cs k (String c s) = Some x). cbn [plus_greedy].
    cbn [all_in] in Hall. apply andb_prop in Hall as [-> _]. now rewrite Hlater.
  - change (plus_greedy cs k (String c (String d w ++ s)) = Some x).
    cbn [plus_greedy]. cbn [all_in] in Hall. apply andb_prop in Hall as [Hc Hall].
    rewrite Hc. now rewrite (IH d Hall Hlater Hk).
Qed.

End Backtracking.

Lemma plain_char (c : ascii) :
  is_plain c = true -> is_dot c = true /\ Ascii.eqb c "{" = false.
Proof.
  destruct c as [[|] [|] [|] [|] [|] [|] [|] [|]]; vm_compute; intros Hc;
    first [discriminate Hc | split; reflexivity].
Qed.

Lemma json_chars_plain (c : ascii) (s : string) :
  is_plain c = true -> json_chars (String c s) = decoded_char c (json_chars s).
Proof.
  destruct c as [[|] [|] [|] [|] [|] [|] [|] [|]]; intros Hc;
    first [reflexivity | vm_compute in Hc; discriminate Hc].
Qed.

Lemma plain_is_dot (v : string) : all_chars is_plain v = true -> all_in Dot v = true.
Proof.
  induction v as [| c v IH]; [reflexivity |]. cbn [all_chars all_in in_cset].
  intros Hv. apply andb_prop in Hv as [Hc Hv].
  destruct (plain_char c Hc) as [-> _]. now rewrite IH.
Qed.

Lemma plain_has_no_brace (v : string) : all_chars is_plain v = true -> has_brace v = false.
Proof.
  induction v as [| c v IH]; [reflexivity |]. cbn [all_chars has_brace].
  intros Hv. apply andb_prop in Hv as [Hc Hv].
  destruct (plain_char c Hc) as [_ ->]. now rewrite IH.
Qed.

(** [JSON.parse] of a plain text between quotes is the text. *)
Lemma JSON_parse_quoted (v : string) :
  all_chars is_plain v = true -> JSON_parse (quoted v) = Ok v.
Proof.
  unfold quoted. cbn [JSON_parse]. induction v as [| c v IH]; [reflexivity |].
  cbn [all_chars]. intros Hv. apply andb_prop in Hv as [Hc Hv].
  change (String c v ++ String "034" "") with (String c (v ++ String "034" "")).
  now rewrite (json_chars_plain c _ Hc), (IH Hv).
Qed.

(** A match of the block expression holds the two characters that open
    the closing tag. *)
Lemma block_needs_closing_tag (s0 post : string) (a : groups) :
  matches RE.block s0 [] post a -> contains "{/" s0 = true.
Proof.
  unfold RE.block. intros Hm.
  repeat match goal with
         | Hs : matches (Seq (Chr "{") (Seq (Chr "/") _)) ?s _ _ _ |- _ =>
             fail 1
         | Hs : matches (Seq _ _) ?s _ _ _ |- contains _ ?s = true =>
             let s1 := fresh "s" in
             let g1 := fresh "g" in
             let H1 := fresh "Hfirst" in
             let H2 := fresh "Hrest" in
             inversion Hs as [| | | | | ? ? ? ? s1 g1 ? ? H1 H2 | | |]; subst; clear Hs;
             destruct (matches_rest _ _ _ _ _ H1) as [? ->]; clear H1;
             apply contains_after
         end.
  invert_match;
    match goal with
    | |- contains _ (String "{" (String "/" ?x)) = true => exact (contains_here "{/" x)
    end.
Qed.

Lemma contains_open_in_text (x w : string) :
  has_brace w = false -> contains (String "{" x) w = false.
Proof.
  induction w as [| c w IH]; [reflexivity |]. cbn [has_brace contains String.prefix].
  intros Hw. apply orb_false_elim in Hw as [Hc Hw]. rewrite (IH Hw).
  destruct (ascii_dec "{" c) as [<- |]; [discriminate | reflexivity].
Qed.

Lemma exec_block_without_closing_tag (s : string) :
  contains "{/" s = false -> exec RE.block s = None.
Proof.
  intros Hs. destruct (exec RE.block s) as [[[pre a] post] |] eqn:He; [| reflexivity].
  apply exec_splits in He as (s0 & -> & Hm).
  apply block_needs_closing_tag in Hm.
  now rewrite (contains_after _ pre _ Hm) in Hs.
Qed.

Lemma exec_inline_import (c : ascii) (v : string) :
  all_chars is_plain (String c v) = true ->
  exec RE.inline_command ("{#import " ++ quoted (String c v) ++ "}")
    = Some (EmptyString,
            [("input", quoted (String c v)); ("command", "import")], EmptyString).
Proof.
  intros Hv. apply plain_is_dot in Hv.
  assert (Htext : "{#import " ++ quoted (String c v) ++ "}" =
                  String "{" (String "#" ("import" ++
                    String " " (String "034" (String c v ++ String "034" (String "}" "")))))).
  { unfold quoted.
    change ("{#import " ++ String "034" (String c v ++ String "034" "") ++ "}")
      with (String "{" (String "#" ("import" ++
              String " " (String "034" ((String c v ++ String "034" "") ++ String "}" ""))))).
    now rewrite append_assoc. }
  rewrite Htext. apply exec_here.
  unfold RE.inline_command. cbn [rmatch]. rewrite !Ascii.eqb_refl.
  set (rest := String " " (String "034" (String c v ++ String "034" (String "}" "")))).
  set (input := consumed (String "034" (String c v ++ String "034" (String "}" "")))
                         (String "}" "")).
  set (command := consumed ("import" ++ rest) rest).
  rewrite (plus_greedy_longest Lower _ "i" "mport" rest
             ([("input", input); ("command", command)], EmptyString));
    [| reflexivity | reflexivity |].
  - unfold input, command. rewrite consumed_append.
    replace (String "034" (String c v ++ String "034" (String "}" "")))
      with (String "034" (String c v ++ String "034" "") ++ String "}" "").
    + now rewrite consumed_append.
    + change (String "034" (String c v ++ String "034" "") ++ String "}" "")
        with (String "034" ((String c v ++ String "034" "") ++ String "}" "")).
      now rewrite append_assoc.
  - unfold rest. cbv beta iota.
    change (String " " (String "034" (String c v ++ String "034" (String "}" ""))))
      with (String " " "" ++ String "034" (String c v ++ String "034" (String "}" ""))).
    rewrite (plus_greedy_longest Space _ " " "" _
               ([("input", input); ("command", command)], EmptyString));
      [reflexivity | reflexivity | reflexivity |].
    cbv beta iota. rewrite !Ascii.eqb_refl.
    rewrite (plus_greedy_back Dot _ c v (String "034" (String "}" ""))
               ([("input", input); ("command", command)], EmptyString));
      [reflexivity | assumption | reflexivity | reflexivity].
Qed.

Lemma parse_import (v : string) :
  v <> "" ->
  all_chars is_plain v = true ->
  parse ("{#import " ++ quoted v ++ "}") =
    Ok [TStr ""; TNode (NCommand "import" (Some (quoted v)) None); TStr ""].
Proof.
  intros Hne Hv. destruct v as [| c v]; [contradiction |].
  pose proof (plain_has_no_brace _ Hv) as Hbrace.
  unfold parse.
  rewrite (findReplace_no_match RE.block).
  - rewrite (findReplace_one_match RE.inline_command _ _ _ _ _ _ eq_refl
               (exec_inline_import c v Hv) eq_refl eq_refl).
    reflexivity.
  - apply exec_block_without_closing_tag.
    change ("{#import " ++ quoted (String c v) ++ "}")
      with (String "{" (String "#" ("import " ++ quoted (String c v) ++ "}"))).
    cbn [contains String.prefix]. destruct (ascii_dec "/" "#"); [discriminate |].
    cbn [orb]. apply contains_open_in_text.
    unfold quoted. cbn [has_brace Ascii.eqb Bool.eqb orb].
    change (String "034" (String c v ++ String "034" ""))
      with (String "034" "" ++ String c v ++ String "034" "").
    rewrite !has_brace_app, Hbrace. reflexivity.
Qed.

Section SelfImport.
Context {H : Host}.

(** X27. A template that imports itself is evaluated without end: the
    import reads the file and evaluates its text in the same state, which
    holds the same import, and no guard stops the recursion. Whatever the
    fuel, the evaluation uses it up. *)
Theorem import_of_itself_never_ends (fuel : nat) (name path : string) (st : state) :
  name <> "" ->
  all_chars is_plain name = true ->
  lookup (variables st) "templatePath" = JString path ->
  readFileSync (host_world st) (import_path path name)
    = Some ("{#import " ++ quoted name ++ "}") ->
  fst (getPrompt fuel ("{#import " ++ quoted name ++ "}") st) = OutOfFuel.
Proof.
  intros Hne Hname Hpath Hread. induction fuel as [| fuel IH]; [reflexivity |].
  cbn [getPrompt]. unfold bind at 1, lift. rewrite parse_import by assumption.
  cbn [eval_all eval_element blank]. unfold bind at 1. unfold bind at 1. cbn [ret].
  unfold bind at 1. rewrite eval_node_tail.
  cbn [node_result read_variable before_result String.eqb Ascii.eqb Bool.eqb].
  unfold parsed_value. rewrite JSON_parse_quoted by assumption.
  unfold bind at 1. unfold lift. cbn [String.eqb Ascii.eqb Bool.eqb].
  unfold bind at 1. unfold get at 1. rewrite Hpath.
  unfold bind at 1. unfold read_file at 1. rewrite Hread.
  unfold bind at 1.
  destruct (getPrompt fuel _ st) as [[ran | e | c | |] st1]; cbn [fst] in IH;
    try discriminate. reflexivity.
Qed.

End SelfImport.

(** * The further properties on the demo host *)

(** X2 at the name [My Chat!!], with [lower_ascii] for [toLowerCase]: the
    file name is [my-chat-]. *)
Lemma formatName_idempotent_witness :
  let name := [77; 121; 32; 67; 104; 97; 116; 33; 33]%N in
  formatName lower_ascii name = [109; 121; 45; 99; 104; 97; 116; 45]%N
  /\ formatName lower_ascii (formatName lower_ascii name) = formatName lower_ascii name.
Proof.
  cbn zeta. split; [reflexivity |].
  apply (formatName_idempotent lower_ascii
           [77; 121; 32; 67; 104; 97; 116; 33; 33]%N lower_ascii_fixed).
  vm_compute. lia.
Defined.

(** X4 at the cookie text [sessionKey=sk-ant-sid01-abc; theme=dark]. *)
Lemma getCookie_first_pair_witness :
  getCookie "sessionKey" "sessionKey=sk-ant-sid01-abc; theme=dark"
    = Some "sk-ant-sid01-abc".
Proof.
  exact (getCookie_first_pair "sessionKey" "sk-ant-sid01-abc" "; theme=dark"
           eq_refl eq_refl).
Defined.

(** X5 at the second pair of the cookie text [b=2; a=1; c=3]. *)
Lemma getCookie_value_has_no_semicolon_witness :
  getCookie "a" "b=2; a=1; c=3" = Some "1" /\ all_in (Not ";") "1" = true.
Proof.
  split; [reflexivity |].
  apply (getCookie_value_has_no_semicolon "a" "b=2; a=1; c=3" "1"). reflexivity.
Defined.

(** X6 at a key file that holds a key between a space and a line feed. *)
Lemma getKey_returns_session_key_witness :
  getKey "~/.claude_key" None (Some (" sk-ant-sid01-xyz" ++ LF)) = Ok "sk-ant-sid01-xyz"
  /\ String.prefix START_SEQ "sk-ant-sid01-xyz" = true.
Proof.
  split; [reflexivity |].
  apply (getKey_returns_session_key "~/.claude_key" None
           (Some (" sk-ant-sid01-xyz" ++ LF)) "sk-ant-sid01-xyz").
  reflexivity.
Defined.

(** X7 at a key file without a key, with a key in [CLAUDE_KEY]. *)
Lemma getKey_file_decides_witness :
  getKey "~/.claude_key" (Some "sk-ant-sid01-env") (Some "no key here") = Exit 1.
Proof.
  exact (getKey_file_decides "~/.claude_key" (Some "sk-ant-sid01-env") "no key here"
           eq_refl).
Defined.

(** X8 at a text with two line feeds and three spaces in a row. *)
Lemma getPrompt_body_normalised_witness :
  let r := {| body := "a" ++ LF ++ " b"; attachments := []; followup := []; every := [] |} in
  getPrompt (H := Demo.host) 1 ("a" ++ LF ++ LF ++ "   b") Demo.start = (Ok r, Demo.start)
  /\ no_run "010" (body r) = true /\ no_run " " (body r) = true.
Proof.
  cbn zeta. split; [reflexivity |].
  apply (getPrompt_body_normalised (H := Demo.host) 1 ("a" ++ LF ++ LF ++ "   b")
           Demo.start _ Demo.start).
  reflexivity.
Defined.

(** X9 at a template with a [claude] block. *)
Lemma getPrompt_sends_one_shots_only_witness :
  requests (snd (getPrompt (H := Demo.host) 2 "a{#claude}hi{/claude}" Demo.start))
    = [ClaudeSendMessage "hi"]
  /\ exists sent,
      requests (snd (getPrompt (H := Demo.host) 2 "a{#claude}hi{/claude}" Demo.start))
        = (requests (H := Demo.host) Demo.start ++ sent)%list
      /\ Forall (fun rq => exists prompt, rq = ClaudeSendMessage prompt) sent.
Proof.
  split; [reflexivity |].
  apply (getPrompt_sends_one_shots_only (H := Demo.host) 2 "a{#claude}hi{/claude}"
           Demo.start); reflexivity.
Defined.

(** X10 at a text and a [followup] block, processed after the followup [e] was queued. *)
Lemma eval_all_appends_only_witness :
  let acc := {| body := "a"; attachments := []; followup := [ {| item_body := "e" |} ];
                every := [] |} in
  let out := [TStr "x"; TNode (NBlock "followup" None None "f")] in
  exists acc' st',
    eval_all (H := Demo.host) (getPrompt 1) out acc Demo.start = (Ok acc', st')
    /\ followup acc' = [ {| item_body := "e" |}; {| item_body := "f" |} ]
    /\ (exists text, body acc' = body acc ++ text)
    /\ attachments acc `prefix_of` attachments acc'
    /\ followup acc `prefix_of` followup acc'
    /\ every acc `prefix_of` every acc'.
Proof.
  cbn zeta.
  match eval vm_compute in
        (eval_all (H := Demo.host) (getPrompt 1)
                  [TStr "x"; TNode (NBlock "followup" None None "f")]
                  {| body := "a"; attachments := [];
                     followup := [ {| item_body := "e" |} ]; every := [] |} Demo.start)
  with
  | (Ok ?acc', ?st') =>
      exists acc', st'; split; [reflexivity |]; split; [reflexivity |];
      apply (eval_all_appends_only (H := Demo.host) (getPrompt 1)
               [TStr "x"; TNode (NBlock "followup" None None "f")]
               {| body := "a"; attachments := [];
                  followup := [ {| item_body := "e" |} ]; every := [] |}
               Demo.start acc' st');
      reflexivity
  end.
Defined.

(** X11 on the host whose backend sends no completion, at the prompt [hi] with the followup [a]. *)
Lemma no_completion_ends_the_run_witness :
  let prompt := {| body := "hi"; attachments := [];
                   followup := [ {| item_body := "a" |} ]; every := [] |} in
  let st := @Build_state mute_host ∅ {| Demo.files := [] |} [] in
  fst (runPrompt (H := mute_host) 1 prompt false st) = Exit 1
  /\ variables (snd (runPrompt (H := mute_host) 1 prompt false st)) = ∅
  /\ requests (snd (runPrompt (H := mute_host) 1 prompt false st)) =
       [ClaudeInit; StartConversation "hi" []].
Proof.
  cbn zeta.
  exact (no_completion_ends_the_run (H := mute_host) 1
           {| body := "hi"; attachments := [];
              followup := [ {| item_body := "a" |} ]; every := [] |}
           (@Build_state mute_host ∅ {| Demo.files := [] |} [])
           (Demo.Response "") {| Demo.files := [] |} eq_refl eq_refl eq_refl).
Defined.

(** X12 at the prompt without body and with the every-item [e]. *)
Lemma every_item_without_body_throws_witness :
  let prompt := {| body := ""; attachments := []; followup := [];
                   every := [ {| item_body := "e" |} ] |} in
  fst (runPrompt (H := Demo.host) 1 prompt false Demo.start) =
    Throw (TypeError "Cannot read properties of undefined (reading 'sendMessage')")
  /\ requests (snd (runPrompt (H := Demo.host) 1 prompt false Demo.start)) = [].
Proof.
  cbn zeta.
  apply (every_item_without_body_throws (H := Demo.host) 1
           {| body := ""; attachments := []; followup := [];
              every := [ {| item_body := "e" |} ] |}
           {| item_body := "e" |} [] (plain "e") Demo.start);
    [reflexivity | reflexivity | now apply getPrompt_plain | reflexivity].
Defined.

(** X13 at the prompt [hi]. *)
Lemma runPrompt_returns_the_prompt_witness :
  exists out pushed final,
    fst (runPrompt (H := Demo.host) 1 (plain "hi") false Demo.start) = Ok out
    /\ out = Some {| prompt_after :=
                       {| body := body (plain "hi"); attachments := attachments (plain "hi");
                          followup := (followup (plain "hi") ++ pushed)%list;
                          every := final |};
                     conversation := false || negb (blank (body (plain "hi"))) |}.
Proof.
  match eval vm_compute in (runPrompt (H := Demo.host) 1 (plain "hi") false Demo.start) with
  | (Ok ?out, ?st') =>
      destruct (runPrompt_returns_the_prompt (H := Demo.host) 1 (plain "hi") false
                  Demo.start out st' eq_refl) as (pushed & final & Hout);
      exists out, pushed, final; split; [reflexivity | exact Hout]
  end.
Defined.

(** X14 at the command that sends [q] and binds [answer]. *)
Lemma inline_claude_binds_nothing_witness :
  exists acc' st',
    eval_node (H := Demo.host) (getPrompt 1)
              (NCommand "claude" (Some (quoted "q")) (Some "answer"))
              empty_evaluation Demo.start = (Ok acc', st')
    /\ body acc' = ""
    /\ variables st' !! "answer" = Some (JString "")
    /\ variables st' !! "claude_response" = Some (JHost (Demo.Response "re:q"))
    /\ requests st' = [ClaudeSendMessage "q"].
Proof.
  apply (inline_claude_binds_nothing (H := Demo.host) (getPrompt 1) (quoted "q") "q" "answer"
           empty_evaluation Demo.start (Demo.Response "re:q") {| Demo.files := [] |});
    [discriminate | discriminate | discriminate | left; reflexivity
     | reflexivity | reflexivity].
Defined.

(** X15 at the text [a{n}b{m}] in a scope where [n] is [1] and [m] is unbound. *)
Lemma simpleVarReplace_substitutes_witness :
  substitute (H := Demo.host) {[ "n" := JString "1" ]} "a{n}b{m}" = "a1b".
Proof.
  etrans;
    [ exact (simpleVarReplace_substitutes (H := Demo.host) {[ "n" := JString "1" ]}
               "a" "n" "b{m}" eq_refl ltac:(discriminate) eq_refl)
    | reflexivity ].
Defined.

(** X16 at the template [{#foo}]. *)
Lemma command_without_input_throws_witness :
  getPrompt (H := Demo.host) 1 "{#foo}" Demo.start =
    (Throw (TypeError "Cannot read properties of undefined (reading 'replace')"),
     Demo.start).
Proof.
  apply (command_without_input_throws (H := Demo.host) 0 "foo" "}" Demo.start);
    [discriminate | reflexivity | discriminate | right; reflexivity].
Defined.

(** X17 at the templates [{x=5}{x}] and [{response=5}{response}]. *)
Lemma variable_written_is_read_back_witness :
  (exists st',
      getPrompt (H := Demo.host) 1 "{x=5}{x}" Demo.start =
        (Ok {| body := LF ++ "5" ++ LF; attachments := []; followup := []; every := [] |}, st')
      /\ requests st' = [] /\ host_world st' = {| Demo.files := [] |})
  /\ (exists st',
      getPrompt (H := Demo.host) 1 "{response=5}{response}" Demo.start =
        (Ok {| body := LF; attachments := []; followup := []; every := [] |}, st')
      /\ requests st' = [] /\ host_world st' = {| Demo.files := [] |}).
Proof.
  split.
  - apply (variable_written_is_read_back (H := Demo.host) 0 "x" "5" Demo.start);
      [discriminate | reflexivity | discriminate | discriminate | reflexivity | reflexivity].
  - apply (variable_written_is_read_back (H := Demo.host) 0 "response" "5" Demo.start);
      [discriminate | reflexivity | discriminate | discriminate | reflexivity | reflexivity].
Defined.

(** A followup that queues a followup. *)
Lemma nested_followup_resolves :
  resolves_to (H := Demo.host) 3 "{#followup}c{/followup}a"
    {| body := LF ++ "a"; attachments := [];
       followup := [ {| item_body := "c" |} ]; every := [] |}.
Proof. intros st. eexists. split; reflexivity. Qed.

(** X18 at the prompt [hi] whose first followup sends [a] and queues [c], and whose second followup sends [b]. *)
Lemma followups_first_come_first_served_witness :
  requests
    (snd (runPrompt (H := Demo.host) 3
            {| body := "hi"; attachments := [];
               followup := [ {| item_body := "{#followup}c{/followup}a" |};
                             {| item_body := "b" |} ];
               every := [] |}
            false Demo.start))
  = [ StartConversation "hi" []; ConvoSendMessage (LF ++ "a") [];
      ConvoSendMessage "b" []; ConvoSendMessage "c" [] ].
Proof.
  destruct (followups_first_come_first_served (H := Demo.host) 3
              {| body := "hi"; attachments := [];
                 followup := [ {| item_body := "{#followup}c{/followup}a" |};
                               {| item_body := "b" |} ];
                 every := [] |}
              [ {| body := LF ++ "a"; attachments := [];
                   followup := [ {| item_body := "c" |} ]; every := [] |};
                plain "b"; plain "c" ]
              Demo.start)
    as (sent & Hreq & _ & Hall).
  - reflexivity.
  - reflexivity.
  - apply drained_cons; [exact nested_followup_resolves | reflexivity |].
    apply drained_cons; [now apply getPrompt_plain | reflexivity |].
    apply drained_cons; [now apply getPrompt_plain | reflexivity |].
    apply drained_nil.
  - simpl. lia.
  - destruct (Hall demo_responsive) as [-> _]. exact Hreq.
Defined.

(** X19 at the message [Find some trends in [data.csv]]. *)
Lemma getFiles_replaces_the_reference_witness :
  getFiles demo_upload 1 "Find some trends in [data.csv]" Demo.start =
    (Ok ([ {| file_name := "data.csv"; file_type := "text/plain"; file_size := 0;
              extracted_content := "" |} ],
         "Find some trends in the uploaded file data.csv"), Demo.start).
Proof.
  exact (proj1 (proj2 (getFiles_replaces_the_reference (H := Demo.host) demo_upload 0
                         "Find some trends in " "data.csv" "" Demo.start
                         eq_refl eq_refl ltac:(discriminate) eq_refl eq_refl eq_refl))
               _ Demo.start eq_refl).
Defined.

(** X20 at the message [Please read [$&]] with a fuel of 1000 rounds. *)
Lemma getFiles_can_loop_forever_witness :
  fst (getFiles demo_upload 1000 "Please read [$&]" Demo.start) = OutOfFuel.
Proof.
  apply (getFiles_can_loop_forever (H := Demo.host) demo_upload 1000 "Please read "
           Demo.start); [reflexivity |].
  intros name st0. eexists _, st0. reflexivity.
Defined.

(** X21 at the text [Hello,   world]. *)
Lemma text_without_directives_is_its_own_prompt_witness :
  getPrompt (H := Demo.host) 1 "Hello,   world" Demo.start =
    (Ok {| body := "Hello, world"; attachments := []; followup := []; every := [] |},
     Demo.start).
Proof.
  exact (text_without_directives_is_its_own_prompt (H := Demo.host) 0 "Hello,   world"
           Demo.start eq_refl).
Defined.

(** X25 at the import of a file that queues the every-item [e]. *)
Lemma imported_every_kept_witness :
  let st := @Build_state Demo.host {[ "templatePath" := JString "main.txt" ]}
                         {| Demo.files := [("part.txt", "{#every}e{/every}x")] |} [] in
  exists acc' st',
    eval_node (H := Demo.host) (getPrompt 1) (NCommand "import" (Some (quoted "part.txt")) None)
              empty_evaluation st = (Ok acc', st')
    /\ every acc' = [ {| item_body := "e" |} ]
    /\ followup acc' = []
    /\ attachments acc' = [].
Proof.
  cbn zeta.
  match eval vm_compute in
        (getPrompt (H := Demo.host) 1 "{#every}e{/every}x"
           (@Build_state Demo.host {[ "templatePath" := JString "main.txt" ]}
                         {| Demo.files := [("part.txt", "{#every}e{/every}x")] |} []))
  with
  | (Ok ?ran, ?st1) =>
      exact (imported_every_kept (H := Demo.host) (getPrompt 1) (quoted "part.txt") None
               empty_evaluation
               (@Build_state Demo.host {[ "templatePath" := JString "main.txt" ]}
                             {| Demo.files := [("part.txt", "{#every}e{/every}x")] |} [])
               st1 "main.txt" "part.txt" "{#every}e{/every}x" ran
               eq_refl (or_introl eq_refl) eq_refl eq_refl)
  end.
Defined.

(** X22 at the prompt [hi] with the followups [A {response}] and
    [B {response}], and with the followups [A] and [B {response}]. *)
Lemma response_is_used_up_by_a_read_witness :
  requests
    (snd (runPrompt (H := Demo.host) 2
            {| body := "hi"; attachments := [];
               followup := [ {| item_body := "A {response}" |};
                             {| item_body := "B {response}" |} ];
               every := [] |}
            false Demo.start))
  = [ StartConversation "hi" []; ConvoSendMessage ("A re:hi" ++ LF) [];
      ConvoSendMessage ("B " ++ LF) [] ]
  /\ requests
       (snd (runPrompt (H := Demo.host) 2
               {| body := "hi"; attachments := [];
                  followup := [ {| item_body := "A" |};
                                {| item_body := "B {response}" |} ];
                  every := [] |}
               false Demo.start))
     = [ StartConversation "hi" []; ConvoSendMessage "A" [];
         ConvoSendMessage ("B re:hi" ++ LF) [] ].
Proof.
  split.
  - destruct (response_is_used_up_by_a_read (H := Demo.host) 0
                {| body := "hi"; attachments := [];
                   followup := [ {| item_body := "A {response}" |};
                                 {| item_body := "B {response}" |} ];
                   every := [] |}
                true "A " "B " Demo.start
                (Demo.Response "re:hi") (Demo.Response ("re:A re:hi" ++ LF))
                (Demo.Response ("re:B " ++ LF))
                {| Demo.files := [] |} {| Demo.files := [] |} {| Demo.files := [] |}
                eq_refl eq_refl eq_refl eq_refl eq_refl eq_refl eq_refl eq_refl eq_refl
                eq_refl eq_refl eq_refl eq_refl eq_refl)
      as (out & st' & Hrun & Hreq & _).
    rewrite Hrun. exact Hreq.
  - destruct (response_is_used_up_by_a_read (H := Demo.host) 0
                {| body := "hi"; attachments := [];
                   followup := [ {| item_body := "A" |};
                                 {| item_body := "B {response}" |} ];
                   every := [] |}
                false "A" "B " Demo.start
                (Demo.Response "re:hi") (Demo.Response "re:A")
                (Demo.Response ("re:B re:hi" ++ LF))
                {| Demo.files := [] |} {| Demo.files := [] |} {| Demo.files := [] |}
                eq_refl eq_refl eq_refl eq_refl eq_refl eq_refl eq_refl eq_refl eq_refl
                eq_refl eq_refl eq_refl eq_refl eq_refl)
      as (out & st' & Hrun & Hreq & _).
    rewrite Hrun. exact Hreq.
Defined.

(** X24 at three nested blocks. *)
Lemma getPrompt_ends_without_import_witness :
  fst (getPrompt (H := Demo.host) 30 "{#a}{#b}{#c}x{/c}{/b}{/a}" Demo.start) <> OutOfFuel.
Proof.
  apply (getPrompt_ends_without_import (H := Demo.host) 30
           "{#a}{#b}{#c}x{/c}{/b}{/a}" Demo.start); [reflexivity | reflexivity |].
  cbn [String.length]. lia.
Defined.

(** The demo upload ends. *)
Lemma demo_upload_ends : forall name, fuelled (demo_upload name).
Proof. intros name st. discriminate. Qed.

(** X26 at a message that names two files. *)
Lemma getFiles_ends_without_dollar_witness :
  fst (getFiles demo_upload 3 "Compare [a.txt] with [b.txt]" Demo.start) <> OutOfFuel.
Proof.
  exact (getFiles_ends_without_dollar (H := Demo.host) demo_upload demo_upload_ends
           "Compare [a.txt] with [b.txt]" Demo.start eq_refl).
Defined.

(** X27 at the file [loop.txt] that imports [loop.txt]. *)
Lemma import_of_itself_never_ends_witness :
  let text := "{#import " ++ quoted "loop.txt" ++ "}" in
  let st := @Build_state Demo.host {[ "templatePath" := JString "loop.txt" ]}
                         {| Demo.files := [("loop.txt", text)] |} [] in
  fst (getPrompt (H := Demo.host) 50 text st) = OutOfFuel.
Proof.
  cbn zeta.
  apply (import_of_itself_never_ends (H := Demo.host) 50 "loop.txt" "loop.txt");
    [discriminate | reflexivity | reflexivity | reflexivity].
Defined.
